(** * PythonAudioRoute: the mixing engine of [PythonAudioRoute.py]

    A shallow embedding of the two classes of the program,
    [AudioInputStrip] (one capture channel: queue, gain, stream) and
    [AudioRouterApp] (the registry of strips and the master mixer), and
    the properties of the design document checked against it.

    Modelling decisions, all taken from the source:

    - Samples are [float32] (every stream and every [np.zeros] uses that
      dtype).  They are IEEE-754 binary32 values, embedded with the
      standard library's [SpecFloat] at precision 24 and maximal exponent
      128, so NaN, infinities, signed zeros and rounding are those of the
      program.  The gain is a Python [float], a binary64 value.
    - A block is a numpy array of shape [(n, CHANNELS)] with
      [CHANNELS = 2]: a list of [n] frames, each frame a pair of samples.
      Every array the program handles has two columns, because every
      stream is opened with [channels=CHANNELS] and every silence block
      is [np.zeros((_, CHANNELS))].
    - [queue.Queue(maxsize=10)] is a list, oldest entry first; a [put]
      that would wait for room returns [None].
    - Objects are mutated in place in Python; here every method takes the
      object and returns the new one.  Callbacks and control operations
      are whole steps: interleavings inside a method are not modelled.
    - The Qt widgets a method reads or writes are modelled by what the
      method observes: the slider by its value and range, a combo box by
      its item data and current index, signals by calling the connected
      slot when the widget's value really changes.
    - The audio driver is a parameter: for each device it says whether
      the stream constructor raises, [start()] raises, or both succeed.
      [print] calls have no counterpart. *)

From Stdlib Require Import ZArith Lia Bool.
From Stdlib Require Import Floats.SpecFloat.
From stdpp Require Import base list.

(** ** Audio configuration (lines 10-13) *)

Definition SAMPLE_RATE : Z := 44100.
Definition BLOCK_SIZE : nat := 1024.
Definition CHANNELS : nat := 2.

(** ** float32 samples and float64 scalars *)

Module F32.
Definition prec : Z := 24.
Definition emax : Z := 128.

Definition zero : spec_float := S754_zero false.
Definition one : spec_float := S754_finite false 8388608 (-23).
Definition neg_one : spec_float := S754_finite true 8388608 (-23).
Definition two : spec_float := S754_finite false 8388608 (-22).
Definition half : spec_float := S754_finite false 8388608 (-24).
(** The float32 nearest to 0.3. *)
Definition three_tenths : spec_float := S754_finite false 10066330 (-25).
Definition nan : spec_float := S754_nan.
Definition inf : spec_float := S754_infinity false.

Definition add : spec_float -> spec_float -> spec_float := SFadd prec emax.
Definition mul : spec_float -> spec_float -> spec_float := SFmul prec emax.
Definition ltb : spec_float -> spec_float -> bool := SFltb.
Definition leb : spec_float -> spec_float -> bool := SFleb.

Definition is_nan (x : spec_float) : bool :=
  match x with S754_nan => true | _ => false end.

Definition is_zero (x : spec_float) : bool :=
  match x with S754_zero _ => true | _ => false end.

(** Neither NaN nor an infinity. *)
Definition is_finite (x : spec_float) : bool :=
  match x with S754_zero _ | S754_finite _ _ _ => true | _ => false end.

(** The element loop of numpy's [clip] on floats:
    [min(max(x, lo), hi)] where [max(a, b)] is
    [isnan(a) ? a : (a > b ? a : b)] and [min] likewise. *)
Definition np_max (a b : spec_float) : spec_float :=
  if is_nan a then a else if ltb b a then a else b.
Definition np_min (a b : spec_float) : spec_float :=
  if is_nan a then a else if ltb a b then a else b.
Definition clip (x lo hi : spec_float) : spec_float :=
  np_min (np_max x lo) hi.

(** [x] lies in the closed interval [[lo, hi]]. *)
Definition in_range (lo hi x : spec_float) : bool :=
  leb lo x && leb x hi.
End F32.

Module F64.
Definition prec : Z := 53.
Definition emax : Z := 1024.

Definition zero : spec_float := S754_zero false.
Definition one : spec_float := S754_finite false 4503599627370496 (-52).
Definition half : spec_float := S754_finite false 4503599627370496 (-53).

(** [float(n)] for a Python int. *)
Definition of_Z (n : Z) : spec_float := binary_normalize prec emax n 0 false.
Definition div : spec_float -> spec_float -> spec_float := SFdiv prec emax.
Definition leb : spec_float -> spec_float -> bool := SFleb.

(** The cast of a Python float to float32 that numpy applies to a
    scalar operand of a float32 array (round to nearest even). *)
Definition to_f32 (x : spec_float) : spec_float :=
  match x with
  | S754_finite s m e =>
      binary_normalize F32.prec F32.emax (cond_Zopp s (Zpos m)) e s
  | _ => x
  end.
End F64.

Abbreviation f32 := spec_float (only parsing).
Abbreviation f64 := spec_float (only parsing).

(** ** Blocks: numpy arrays of shape (n, CHANNELS) *)

Abbreviation frame := (spec_float * spec_float)%type (only parsing).
Abbreviation block := (list (spec_float * spec_float)) (only parsing).

(** [len(a)]: the number of rows. *)
Definition len (a : block) : nat := length a.
(** [a.size]: the number of samples. *)
Definition size (a : block) : nat := length a * CHANNELS.

(** [np.zeros((n, CHANNELS), dtype='float32')] *)
Definition np_zeros (n : nat) : block := replicate n (F32.zero, F32.zero).

(** [np.ones((n, CHANNELS), dtype='float32')], used to state examples. *)
Definition np_ones (n : nat) : block := replicate n (F32.one, F32.one).

Definition frame_scale (g : f64) (fr : frame) : frame :=
  (F32.mul fr.1 (F64.to_f32 g), F32.mul fr.2 (F64.to_f32 g)).

(** [data * g] for a float32 array and a Python float. *)
Definition block_scale (data : block) (g : f64) : block :=
  map (frame_scale g) data.

Definition frame_add (x y : frame) : frame :=
  (F32.add x.1 y.1, F32.add x.2 y.2).

(** The elementwise sum of two arrays with the same number of rows. *)
Definition block_add (a b : block) : block := zip_with frame_add a b.

(** [a += b] under numpy's broadcasting rules, for operands with
    [CHANNELS] columns: rows are added pairwise when the row counts
    agree, a one-row [b] is added to every row of [a], and any other
    [b] raises [ValueError] ([None]). *)
Definition np_iadd (a b : block) : option block :=
  if len b =? len a then Some (block_add a b)
  else
    match b with
    | [row] => Some (map (fun x => frame_add x row) a)
    | _ => None
    end.

Definition frame_clip (fr : frame) : frame :=
  (F32.clip fr.1 F32.neg_one F32.one, F32.clip fr.2 F32.neg_one F32.one).

(** [np.clip(a, -1.0, 1.0, out=a)] *)
Definition block_clip (a : block) : block := map frame_clip a.

(** The samples of a block, row by row. *)
Definition samples (a : block) : list f32 :=
  flat_map (fun fr : frame => [fr.1; fr.2]) a.

(** ** queue.Queue(maxsize=10), oldest entry first *)

Module Queue.
Definition maxsize : nat := 10.

Section Ops.
Context {A : Type}.

Definition qsize (q : list A) : nat := length q.

(** [0 < maxsize <= qsize()] *)
Definition full (q : list A) : bool :=
  (0 <? maxsize) && (maxsize <=? qsize q).

Definition empty (q : list A) : bool :=
  match q with [] => true | _ => false end.

(** [get_nowait()]: [None] stands for [queue.Empty]. *)
Definition get_nowait (q : list A) : option (A * list A) :=
  match q with
  | [] => None
  | x :: rest => Some (x, rest)
  end.

(** [put(x)] with the default [block=True]: [None] when the caller
    would have to wait for a free slot. *)
Definition put (x : A) (q : list A) : option (list A) :=
  if full q then None else Some (q ++ [x]).

(** [n] successive [get_nowait()] calls: what they returned, and
    whether one of them raised [queue.Empty]. *)
Fixpoint get_many (n : nat) (q : list A) : list A * list A * bool :=
  match n with
  | 0 => ([], q, false)
  | S n' =>
      match get_nowait q with
      | None => ([], q, true)
      | Some (x, rest) =>
          let '(xs, q', raised) := get_many n' rest in (x :: xs, q', raised)
      end
  end.
End Ops.
End Queue.

(** ** The widgets and the driver a strip talks to *)

(** An entry of [sd.query_devices()]. *)
Record device_info := {
  max_input_channels : nat;
  max_output_channels : nat
}.

(** A [QComboBox]: the user data of its items and the current index. *)
Record ComboBox := {
  items : list (option nat);
  currentIndex : nat
}.

Definition currentData (c : ComboBox) : option nat :=
  default None (items c !! currentIndex c).

(** The ids [i] of [for i, dev in enumerate(devices): if p(dev)]. *)
Fixpoint enumerate_filter (p : device_info -> bool) (i : nat)
    (devs : list device_info) : list nat :=
  match devs with
  | [] => []
  | dev :: rest =>
      if p dev then i :: enumerate_filter p (S i) rest
      else enumerate_filter p (S i) rest
  end.

(** [populate_devices] (lines 65-73): the placeholder with data [None],
    then one item per device that has input channels. *)
Definition populate_devices (devs : list device_info) : ComboBox :=
  {| items := None :: map Some
       (enumerate_filter (fun dev => 0 <? max_input_channels dev) 0 devs);
     currentIndex := 0 |}.

(** [populate_output_devices] (lines 190-196). *)
Definition populate_output_devices (devs : list device_info) : ComboBox :=
  {| items := None :: map Some
       (enumerate_filter (fun dev => 0 <? max_output_channels dev) 0 devs);
     currentIndex := 0 |}.

(** The slider of a strip: [setRange(0, 100)]. *)
Definition SLIDER_MIN : Z := 0.
Definition SLIDER_MAX : Z := 100.

(** A stream object of the driver. *)
Record Stream := {
  sid : nat;
  sdevice : nat;
  started : bool
}.

(** What opening a stream on a device does: the constructor raises,
    the constructor succeeds and [start()] raises, or both succeed. *)
Inductive open_outcome := ConstructorRaises | StartRaises | Opens.

Definition driver : Type := nat -> open_outcome.

(** The modal error boxes shown so far. *)
Inductive dialog := AudioError | OutputError.

(** What lies outside the two classes: the device list, the streams
    the driver holds open, and the dialogs shown to the user. *)
Record World := {
  devices : list device_info;
  next_sid : nat;
  open_streams : list nat;
  dialogs : list dialog
}.

(** The stream constructor succeeded: a new open stream. *)
Definition world_open (w : World) : World :=
  {| devices := devices w; next_sid := S (next_sid w);
     open_streams := open_streams w ++ [next_sid w];
     dialogs := dialogs w |}.

(** [stream.stop(); stream.close()] *)
Definition world_close (st : Stream) (w : World) : World :=
  {| devices := devices w; next_sid := next_sid w;
     open_streams := filter (fun h => h ≠ sid st) (open_streams w);
     dialogs := dialogs w |}.

(** [QMessageBox.critical(...)] *)
Definition world_dialog (d : dialog) (w : World) : World :=
  {| devices := devices w; next_sid := next_sid w;
     open_streams := open_streams w;
     dialogs := dialogs w ++ [d] |}.

(** ** AudioInputStrip (lines 15-139) *)

Record AudioInputStrip := {
  oid : nat;                      (* the identity of the Python object *)
  index : nat;
  stream : option Stream;
  audio_queue : list block;
  volume : f64;
  is_active : bool;
  slider : Z;
  device_combo : ComboBox
}.

Definition set_stream (v : option Stream) (s : AudioInputStrip) :=
  {| oid := oid s; index := index s; stream := v;
     audio_queue := audio_queue s; volume := volume s;
     is_active := is_active s; slider := slider s;
     device_combo := device_combo s |}.

Definition set_audio_queue (v : list block) (s : AudioInputStrip) :=
  {| oid := oid s; index := index s; stream := stream s;
     audio_queue := v; volume := volume s;
     is_active := is_active s; slider := slider s;
     device_combo := device_combo s |}.

Definition set_volume (v : f64) (s : AudioInputStrip) :=
  {| oid := oid s; index := index s; stream := stream s;
     audio_queue := audio_queue s; volume := v;
     is_active := is_active s; slider := slider s;
     device_combo := device_combo s |}.

Definition set_is_active (v : bool) (s : AudioInputStrip) :=
  {| oid := oid s; index := index s; stream := stream s;
     audio_queue := audio_queue s; volume := volume s;
     is_active := v; slider := slider s;
     device_combo := device_combo s |}.

Definition set_slider (v : Z) (s : AudioInputStrip) :=
  {| oid := oid s; index := index s; stream := stream s;
     audio_queue := audio_queue s; volume := volume s;
     is_active := is_active s; slider := v;
     device_combo := device_combo s |}.

Definition set_device_combo (v : ComboBox) (s : AudioInputStrip) :=
  {| oid := oid s; index := index s; stream := stream s;
     audio_queue := audio_queue s; volume := volume s;
     is_active := is_active s; slider := slider s;
     device_combo := v |}.

(** [__init__] and [init_ui] (lines 20-63): [o] is the identity of the
    new object. *)
Definition new_strip (o idx : nat) (devs : list device_info) : AudioInputStrip :=
  {| oid := o; index := idx; stream := None; audio_queue := [];
     volume := F64.one; is_active := false;
     slider := 100; device_combo := populate_devices devs |}.

(** [update_volume] (lines 75-76): [self.slider.value() / 100.0] *)
Definition update_volume (s : AudioInputStrip) : AudioInputStrip :=
  set_volume (F64.div (F64.of_Z (slider s)) (F64.of_Z 100)) s.

(** The slider is moved to [v]: Qt bounds the value to the range, and
    emits [valueChanged], connected to [update_volume], when the value
    changed. *)
Definition slider_setValue (v : Z) (s : AudioInputStrip) : AudioInputStrip :=
  let v' := Z.max SLIDER_MIN (Z.min v SLIDER_MAX) in
  if Z.eqb v' (slider s) then s else update_volume (set_slider v' s).

(** [audio_callback] (lines 78-91); [None] when [put] would wait. *)
Definition audio_callback (indata : block) (s : AudioInputStrip)
    : option AudioInputStrip :=
  let q :=
    if Queue.full (audio_queue s) then
      match Queue.get_nowait (audio_queue s) with
      | Some (_, rest) => rest
      | None => audio_queue s
      end
    else audio_queue s in
  match Queue.put indata q with
  | Some q' => Some (set_audio_queue q' s)
  | None => None
  end.

(** The capture thread delivers the blocks [bs] one after the other. *)
Fixpoint audio_callbacks (bs : list block) (s : AudioInputStrip)
    : option AudioInputStrip :=
  match bs with
  | [] => Some s
  | b :: rest =>
      match audio_callback b s with
      | Some s' => audio_callbacks rest s'
      | None => None
      end
  end.

(** [stop_stream] (lines 115-123) *)
Definition stop_stream (w : World) (s : AudioInputStrip)
    : World * AudioInputStrip :=
  let s1 := set_is_active false s in
  let '(w2, s2) :=
    match stream s1 with
    | Some st => (world_close st w, set_stream None s1)
    | None => (w, s1)
    end in
  (w2, set_audio_queue [] s2).

(** [start_stream] (lines 93-113).  [device_combo.setCurrentIndex(0)]
    in the handler emits [currentIndexChanged] when the index was not 0,
    and that signal is connected to [start_stream] itself (line 43): the
    nested call is the recursive one, [fuel] bounds the nesting. *)
Fixpoint start_stream (fuel : nat) (drv : driver) (w : World)
    (s : AudioInputStrip) : option (World * AudioInputStrip) :=
  match fuel with
  | 0 => None
  | S fuel' =>
      let '(w1, s1) := stop_stream w s in
      match currentData (device_combo s1) with
      | None => Some (w1, s1)
      | Some device_idx =>
          let handler (w2 : World) (s2 : AudioInputStrip) :=
            let w3 := world_dialog AudioError w2 in
            let combo := device_combo s2 in
            if currentIndex combo =? 0 then Some (w3, s2)
            else start_stream fuel' drv w3
                   (set_device_combo
                      {| items := items combo; currentIndex := 0 |} s2) in
          match drv device_idx with
          | ConstructorRaises => handler w1 s1
          | StartRaises =>
              let st := {| sid := next_sid w1; sdevice := device_idx;
                           started := false |} in
              handler (world_open w1) (set_stream (Some st) s1)
          | Opens =>
              let st := {| sid := next_sid w1; sdevice := device_idx;
                           started := true |} in
              Some (world_open w1,
                    set_is_active true (set_stream (Some st) s1))
          end
      end
  end.

(** [get_audio_chunk] (lines 125-134) *)
Definition get_audio_chunk (s : AudioInputStrip) : block * AudioInputStrip :=
  if negb (is_active s) || Queue.empty (audio_queue s) then
    (np_zeros BLOCK_SIZE, s)
  else
    match Queue.get_nowait (audio_queue s) with
    | Some (data, rest) => (block_scale data (volume s), set_audio_queue rest s)
    | None => (np_zeros BLOCK_SIZE, s)
    end.

(** [n] successive calls of [get_audio_chunk]. *)
Fixpoint get_audio_chunks (n : nat) (s : AudioInputStrip)
    : list block * AudioInputStrip :=
  match n with
  | 0 => ([], s)
  | S n' =>
      let '(chunk, s1) := get_audio_chunk s in
      let '(chunks, s2) := get_audio_chunks n' s1 in
      (chunk :: chunks, s2)
  end.

(** ** AudioRouterApp (lines 142-262) *)

Record AudioRouterApp := {
  input_strips : list AudioInputStrip;
  output_stream : option Stream;
  out_combo : ComboBox;
  world : World;
  next_oid : nat                  (* identities handed out so far *)
}.

Definition set_input_strips (v : list AudioInputStrip) (a : AudioRouterApp) :=
  {| input_strips := v; output_stream := output_stream a;
     out_combo := out_combo a; world := world a; next_oid := next_oid a |}.

Definition set_output_stream (v : option Stream) (a : AudioRouterApp) :=
  {| input_strips := input_strips a; output_stream := v;
     out_combo := out_combo a; world := world a; next_oid := next_oid a |}.

Definition set_out_combo (v : ComboBox) (a : AudioRouterApp) :=
  {| input_strips := input_strips a; output_stream := output_stream a;
     out_combo := v; world := world a; next_oid := next_oid a |}.

Definition set_world (v : World) (a : AudioRouterApp) :=
  {| input_strips := input_strips a; output_stream := output_stream a;
     out_combo := out_combo a; world := v; next_oid := next_oid a |}.

(** [__init__] and [init_ui] (lines 143-188) *)
Definition new_app (devs : list device_info) : AudioRouterApp :=
  {| input_strips := []; output_stream := None;
     out_combo := populate_output_devices devs;
     world := {| devices := devs; next_sid := 0; open_streams := [];
                 dialogs := [] |};
     next_oid := 0 |}.

(** [add_input_strip] (lines 198-202) *)
Definition add_input_strip (a : AudioRouterApp) : AudioRouterApp :=
  let idx := length (input_strips a) in
  let strip := new_strip (next_oid a) idx (devices (world a)) in
  {| input_strips := input_strips a ++ [strip];
     output_stream := output_stream a; out_combo := out_combo a;
     world := world a; next_oid := S (next_oid a) |}.

(** [list.remove(x)]: the first element equal to [x] goes; strips
    compare by identity. *)
Fixpoint list_remove (o : nat) (l : list AudioInputStrip) : list AudioInputStrip :=
  match l with
  | [] => []
  | s :: rest => if oid s =? o then rest else s :: list_remove o rest
  end.

(** [remove_input_strip] (lines 204-206) *)
Definition remove_input_strip (strip : AudioInputStrip) (a : AudioRouterApp)
    : AudioRouterApp :=
  if existsb (fun s => oid s =? oid strip) (input_strips a)
  then set_input_strips (list_remove (oid strip) (input_strips a)) a
  else a.

(** [close_strip] (lines 136-139) of the strip [self]. *)
Definition close_strip (self : AudioInputStrip) (a : AudioRouterApp)
    : AudioRouterApp :=
  let '(w, self') := stop_stream (world a) self in
  remove_input_strip self' (set_world w a).

(** The loop of [output_callback] (lines 220-224); [None] when the
    in-place addition raises. *)
Fixpoint mix_strips (mixed_audio : block) (strips : list AudioInputStrip)
    : option (block * list AudioInputStrip) :=
  match strips with
  | [] => Some (mixed_audio, [])
  | strip :: rest =>
      let '(chunk, strip') := get_audio_chunk strip in
      let mixed' :=
        if len chunk =? len mixed_audio then np_iadd mixed_audio chunk
        else Some mixed_audio in
      match mixed' with
      | None => None
      | Some m =>
          match mix_strips m rest with
          | None => None
          | Some (out, rest') => Some (out, strip' :: rest')
          end
      end
  end.

(** [output_callback] (lines 208-229): what is written to [outdata],
    and the application afterwards; [None] when the callback raises. *)
Definition output_callback (frames : nat) (a : AudioRouterApp)
    : option (block * AudioRouterApp) :=
  let mixed_audio := np_zeros frames in
  match mix_strips mixed_audio (input_strips a) with
  | None => None
  | Some (mixed, strips') => Some (block_clip mixed, set_input_strips strips' a)
  end.

(** [restart_output_stream] (lines 231-253); [out_combo]'s
    [currentIndexChanged] is connected to it (line 167), so
    [setCurrentIndex(0)] in the handler nests a call when the index was
    not 0. *)
Fixpoint restart_output_stream (fuel : nat) (drv : driver) (a : AudioRouterApp)
    : option AudioRouterApp :=
  match fuel with
  | 0 => None
  | S fuel' =>
      let a1 :=
        match output_stream a with
        | Some st => set_output_stream None (set_world (world_close st (world a)) a)
        | None => a
        end in
      match currentData (out_combo a1) with
      | None => Some a1
      | Some device_idx =>
          let handler (a2 : AudioRouterApp) :=
            let a3 := set_world (world_dialog OutputError (world a2)) a2 in
            let combo := out_combo a3 in
            if currentIndex combo =? 0 then Some a3
            else restart_output_stream fuel' drv
                   (set_out_combo
                      {| items := items combo; currentIndex := 0 |} a3) in
          match drv device_idx with
          | ConstructorRaises => handler a1
          | StartRaises =>
              let st := {| sid := next_sid (world a1); sdevice := device_idx;
                           started := false |} in
              handler (set_output_stream (Some st)
                         (set_world (world_open (world a1)) a1))
          | Opens =>
              let st := {| sid := next_sid (world a1); sdevice := device_idx;
                           started := true |} in
              Some (set_output_stream (Some st)
                      (set_world (world_open (world a1)) a1))
          end
      end
  end.

(** The control operations on the registry: the "+ Add Input Source"
    button, and the "Remove Input" button of the strip shown at
    position [k]. *)
Inductive control := AddInput | RemoveInput (k : nat).

Definition control_step (a : AudioRouterApp) (c : control) : AudioRouterApp :=
  match c with
  | AddInput => add_input_strip a
  | RemoveInput k =>
      match input_strips a !! k with
      | Some strip => close_strip strip a
      | None => a
      end
  end.

Definition run (cs : list control) (a : AudioRouterApp) : AudioRouterApp :=
  fold_left control_step cs a.

(** [start_stream] of the strip at position [k] of the registry. *)
Definition strip_start_stream (fuel : nat) (drv : driver) (k : nat)
    (a : AudioRouterApp) : option AudioRouterApp :=
  match input_strips a !! k with
  | None => Some a
  | Some s =>
      match start_stream fuel drv (world a) s with
      | Some (w, s') =>
          Some (set_input_strips (<[k := s']> (input_strips a)) (set_world w a))
      | None => None
      end
  end.

(** The user picks item [i] of the device list of a strip: the combo
    box moves to it and, when the index changed, emits
    [currentIndexChanged], which runs [start_stream]. *)
Definition select_device (fuel : nat) (drv : driver) (i : nat) (w : World)
    (s : AudioInputStrip) : option (World * AudioInputStrip) :=
  if currentIndex (device_combo s) =? i then Some (w, s)
  else start_stream fuel drv w
         (set_device_combo
            {| items := items (device_combo s); currentIndex := i |} s).

(** The same events on the strip at position [k] of the registry. *)
Definition strip_select_device (fuel : nat) (drv : driver) (k i : nat)
    (a : AudioRouterApp) : option AudioRouterApp :=
  match input_strips a !! k with
  | None => Some a
  | Some s =>
      match select_device fuel drv i (world a) s with
      | Some (w, s') =>
          Some (set_input_strips (<[k := s']> (input_strips a)) (set_world w a))
      | None => None
      end
  end.

Definition strip_audio_callback (k : nat) (indata : block)
    (a : AudioRouterApp) : option AudioRouterApp :=
  match input_strips a !! k with
  | None => Some a
  | Some s =>
      match audio_callback indata s with
      | Some s' => Some (set_input_strips (<[k := s']> (input_strips a)) a)
      | None => None
      end
  end.

Definition strip_slider_setValue (k : nat) (v : Z) (a : AudioRouterApp)
    : AudioRouterApp :=
  set_input_strips (alter (slider_setValue v) k (input_strips a)) a.

(** The last [n] entries of a list, in order. *)
Definition last_n {A : Type} (n : nat) (l : list A) : list A :=
  drop (length l - n) l.

(** One push: the queue afterwards. *)
Definition pushed (q : list block) (indata : block) : list block :=
  (if decide (length q = Queue.maxsize) then drop 1 q else q) ++ [indata].

(** The chunk a strip yields, and the strip afterwards. *)
Definition chunk_of (s : AudioInputStrip) : block := (get_audio_chunk s).1.
Definition after_chunk (s : AudioInputStrip) : AudioInputStrip :=
  (get_audio_chunk s).2.

(** Row [i] of an array that has one. *)
Definition row (i : nat) (c : block) : frame :=
  default (F32.zero, F32.zero) (c !! i).

(** The accumulation step as the design document words it: a yielded
    block is added elementwise when its size equals the accumulator's,
    and skipped otherwise. *)
Definition spec_accumulate (acc : block) (chunks : list block) : block :=
  fold_left
    (fun acc c => if decide (size c = size acc) then block_add acc c else acc)
    chunks acc.

(** The yielded blocks that have [frames] rows. *)
Definition matching (frames : nat) (chunks : list block) : list block :=
  filter (fun c => len c = frames) chunks.

(** No sample of the block is NaN; every sample is finite. *)
Definition block_no_nan (a : block) : Prop :=
  Forall (fun x => F32.is_nan x = false) (samples a).
Definition block_finite (a : block) : Prop :=
  Forall (fun x => F32.is_finite x = true) (samples a).

(** The gain the slider position [v] stands for: [v / 100.0]. *)
Definition gain_of_percent (v : Z) : spec_float :=
  F64.div (F64.of_Z v) (F64.of_Z 100).

(** [v] bounded to the range of the slider. *)
Definition clamp_percent (v : Z) : Z := Z.max SLIDER_MIN (Z.min v SLIDER_MAX).

(** A gain in [[0.0, 1.0]]. *)
Definition unit_gain (g : spec_float) : bool :=
  F64.leb F64.zero g && F64.leb g F64.one.


(** ** Concrete runs used to exercise the statements below *)

Definition ex_devices : list device_info :=
  [ {| max_input_channels := 2; max_output_channels := 0 |};
    {| max_input_channels := 0; max_output_channels := 2 |};
    {| max_input_channels := 2; max_output_channels := 2 |} ].

(** A strip as [add_input_strip] creates the first one. *)
Definition ex_strip : AudioInputStrip := new_strip 0 0 ex_devices.

(** A one-frame block holding the integer [n] on both channels. *)
Definition ex_block (n : Z) : block :=
  [ (binary_normalize F32.prec F32.emax n 0 false,
     binary_normalize F32.prec F32.emax n 0 false) ].

Definition ex_blocks : list block :=
  map ex_block [1; 2; 3; 4; 5; 6; 7; 8; 9; 10; 11]%Z.

(** A driver that opens every device but device 2, on which [start()]
    raises. *)
Definition ex_driver : driver :=
  fun device => if device =? 2 then StartRaises else Opens.

(** The strip at position [k]. *)
Definition ex_strip_at (k : nat) (a : AudioRouterApp) : AudioInputStrip :=
  default ex_strip (input_strips a !! k).

(** Two strips added. *)
Definition ex_added_app : AudioRouterApp :=
  run [AddInput; AddInput] (new_app ex_devices).

(** Both strips capturing from device 0 (item 1 of the list). *)
Definition ex_running_app : AudioRouterApp :=
  default ex_added_app
    (strip_select_device 2 ex_driver 0 1 ex_added_app
     ≫= strip_select_device 2 ex_driver 1 1).

Definition ex_active_strip : AudioInputStrip := ex_strip_at 0 ex_running_app.

(** Both strips at gain 1.0 captured a block of ones. *)
Definition ex_ones_app : AudioRouterApp :=
  default ex_running_app
    (strip_audio_callback 0 (np_ones BLOCK_SIZE) ex_running_app
     ≫= strip_audio_callback 1 (np_ones BLOCK_SIZE)).

(** The first strip captured a block whose first frame is NaN. *)
Definition ex_nan_block : block := (F32.nan, F32.nan) :: np_zeros 1023.

Definition ex_nan_app : AudioRouterApp :=
  default ex_running_app (strip_audio_callback 0 ex_nan_block ex_running_app).

(** The slider of the first strip was moved to 0, then the strip
    captured a block whose first frame is infinite. *)
Definition ex_inf_block : block := (F32.inf, F32.inf) :: np_zeros 1023.

Definition ex_muted_strip : AudioInputStrip :=
  ex_strip_at 0
    (default ex_running_app
       (strip_audio_callback 0 ex_inf_block
          (strip_slider_setValue 0 0 ex_running_app))).

(** The user just picked device 2 on the first strip and device 1 for
    playback; the slots have not run yet. *)
Definition ex_selected_app : AudioRouterApp :=
  set_out_combo
    {| items := items (out_combo ex_running_app); currentIndex := 1 |}
    (set_input_strips
       (alter (fun s => set_device_combo
                 {| items := items (device_combo s); currentIndex := 2 |} s)
              0 (input_strips ex_running_app))
       ex_running_app).

(** Only the first strip captures, and it holds a 512-frame block of
    ones; the second strip has no device. *)
Definition ex_mixed_app : AudioRouterApp :=
  default ex_added_app
    (strip_select_device 2 ex_driver 0 1 ex_added_app
     ≫= strip_audio_callback 0 (np_ones 512)).

(** Only the first strip captures: at gain 0.5 a block of ones, or at
    gain 1.0 a block of 0.3. *)
Definition ex_half_app : AudioRouterApp :=
  default ex_added_app
    (strip_select_device 2 ex_driver 0 1
       (strip_slider_setValue 0 50 ex_added_app)
     ≫= strip_audio_callback 0 (np_ones BLOCK_SIZE)).

Definition ex_three_tenths_app : AudioRouterApp :=
  default ex_added_app
    (strip_select_device 2 ex_driver 0 1 ex_added_app
     ≫= strip_audio_callback 0
          (replicate BLOCK_SIZE (F32.three_tenths, F32.three_tenths))).

(** Add, add, remove the first strip, add. *)
Definition ex_controls : list control :=
  [AddInput; AddInput; RemoveInput 0; AddInput].

(** The registry hands out each object identity once. *)
Definition registry_ok (a : AudioRouterApp) : Prop :=
  Forall (fun s => oid s < next_oid a) (input_strips a) ∧
  NoDup (map oid (input_strips a)).

(** ** The rest of the program: [closeEvent] and the events of a run *)

(** The loop of [closeEvent] (lines 260-261). *)
Fixpoint stop_all (w : World) (strips : list AudioInputStrip)
    : World * list AudioInputStrip :=
  match strips with
  | [] => (w, [])
  | strip :: rest =>
      let '(w1, strip') := stop_stream w strip in
      let '(w2, rest') := stop_all w1 rest in
      (w2, strip' :: rest')
  end.

(** [closeEvent] (lines 255-262).  The playback stream is stopped and
    closed but [self.output_stream] keeps the object, which is no
    longer started. *)
Definition closeEvent (a : AudioRouterApp) : AudioRouterApp :=
  let w1 :=
    match output_stream a with
    | Some st => world_close st (world a)
    | None => world a
    end in
  let stopped :=
    (fun st => {| sid := sid st; sdevice := sdevice st; started := false |})
      <$> output_stream a in
  let '(w2, strips) := stop_all w1 (input_strips a) in
  set_output_stream stopped (set_input_strips strips (set_world w2 a)).

(** The first lines of [restart_output_stream] (232-235): the playback
    stream, if any, is stopped, closed and forgotten. *)
Definition close_output (a : AudioRouterApp) : AudioRouterApp :=
  match output_stream a with
  | Some st => set_output_stream None (set_world (world_close st (world a)) a)
  | None => a
  end.

(** The user picks item [i] of the playback device list. *)
Definition select_output (fuel : nat) (drv : driver) (i : nat)
    (a : AudioRouterApp) : option AudioRouterApp :=
  if currentIndex (out_combo a) =? i then Some a
  else restart_output_stream fuel drv
         (set_out_combo
            {| items := items (out_combo a); currentIndex := i |} a).

(** What can happen to the running application: the two buttons, a
    pick in a device list (with what the driver answers if a stream is
    opened), a slider move, and the two driver callbacks.  The driver
    calls a callback only on a stream that is started. *)
Inductive event :=
| EvAddInput
| EvRemoveInput (k : nat)
| EvSelectDevice (k i : nat) (answer : open_outcome)
| EvSlider (k : nat) (v : Z)
| EvSelectOutput (i : nat) (answer : open_outcome)
| EvCapture (k : nat) (indata : block)
| EvPlayback (frames : nat).

Definition stream_started (st : option Stream) : bool :=
  match st with
  | Some st => started st
  | None => false
  end.

(** One event; [None] when a callback raises, a [put] waits or the
    nesting of slots exceeds the bound 2. *)
Definition event_step (a : AudioRouterApp) (e : event)
    : option AudioRouterApp :=
  match e with
  | EvAddInput => Some (add_input_strip a)
  | EvRemoveInput k => Some (control_step a (RemoveInput k))
  | EvSelectDevice k i answer =>
      match input_strips a !! k with
      | Some s =>
          if i <? length (items (device_combo s))
          then strip_select_device 2 (fun _ => answer) k i a
          else Some a
      | None => Some a
      end
  | EvSlider k v => Some (strip_slider_setValue k v a)
  | EvSelectOutput i answer =>
      if i <? length (items (out_combo a))
      then select_output 2 (fun _ => answer) i a
      else Some a
  | EvCapture k indata =>
      match input_strips a !! k with
      | Some s =>
          if stream_started (stream s) then strip_audio_callback k indata a
          else Some a
      | None => Some a
      end
  | EvPlayback frames =>
      if stream_started (output_stream a)
      then snd <$> output_callback frames a
      else Some a
  end.

Fixpoint run_events (es : list event) (a : AudioRouterApp)
    : option AudioRouterApp :=
  match es with
  | [] => Some a
  | e :: rest =>
      match event_step a e with
      | Some a' => run_events rest a'
      | None => None
      end
  end.

(** What holds of every strip of a running application. *)
Definition strip_ok (s : AudioInputStrip) : Prop :=
  length (audio_queue s) ≤ Queue.maxsize ∧
  (SLIDER_MIN ≤ slider s ≤ SLIDER_MAX)%Z ∧
  volume s = gain_of_percent (slider s) ∧
  items (device_combo s) !! 0 = Some None ∧
  is_active s = stream_started (stream s) ∧
  (∀ st, stream s = Some st → started st = true) ∧
  currentData (device_combo s) = sdevice <$> stream s.

(** The streams a registry holds, and the ones the application holds. *)
Definition opt_sid (st : option Stream) : list nat :=
  match st with
  | Some st => [sid st]
  | None => []
  end.

Definition strip_sids (l : list AudioInputStrip) : list nat :=
  l ≫= (fun s => opt_sid (stream s)).

Definition held_sids (a : AudioRouterApp) : list nat :=
  strip_sids (input_strips a) ++ opt_sid (output_stream a).

(** The driver holds open exactly the streams the application holds,
    each once, and hands out fresh handles. *)
Definition streams_ok (a : AudioRouterApp) : Prop :=
  open_streams (world a) ≡ₚ held_sids a ∧
  NoDup (held_sids a) ∧
  Forall (fun h => h < next_sid (world a)) (open_streams (world a)).

(** What holds of the playback side. *)
Definition output_ok (a : AudioRouterApp) : Prop :=
  items (out_combo a) !! 0 = Some None ∧
  (∀ st, output_stream a = Some st → started st = true) ∧
  currentData (out_combo a) = sdevice <$> output_stream a.

Definition app_ok (a : AudioRouterApp) : Prop :=
  registry_ok a ∧ Forall strip_ok (input_strips a) ∧
  streams_ok a ∧ output_ok a.

(** A float32 value in canonical form. *)
Definition f32_valid (x : spec_float) : bool :=
  valid_binary F32.prec F32.emax x.

(** Negative zero read as positive zero, other values unchanged: what
    adding a sample to the zero accumulator gives. *)
Definition plus_zero (x : spec_float) : spec_float :=
  match x with
  | S754_zero _ => F32.zero
  | _ => x
  end.

Definition block_plus_zero (a : block) : block :=
  map (fun fr : frame => (plus_zero fr.1, plus_zero fr.2)) a.

(** A strip that yields silence: inactive, or with nothing queued. *)
Definition silent (s : AudioInputStrip) : Prop :=
  is_active s = false ∨ audio_queue s = [].

(** A run with captures on both strips, a playback pass, a failing
    pick, a slider move and a removal. *)
Definition ex_events : list event :=
  [ EvAddInput; EvAddInput;
    EvSelectDevice 0 1 Opens; EvSelectDevice 1 2 Opens;
    EvSelectOutput 1 Opens;
    EvCapture 0 (np_ones BLOCK_SIZE); EvCapture 1 (np_ones BLOCK_SIZE);
    EvSlider 1 30; EvPlayback BLOCK_SIZE;
    EvSelectDevice 0 2 StartRaises; EvRemoveInput 1 ].

(** The application after the first nine of these events: two strips
    capturing, playback running. *)
Definition ex_reached_app : AudioRouterApp :=
  default (new_app ex_devices)
    (run_events (take 9 ex_events) (new_app ex_devices)).

(** What the registry shows of its strips, in display order: the
    identity of each strip and the id it carries. *)
Definition labels (a : AudioRouterApp) : list (nat * nat) :=
  (fun s => (oid s, index s)) <$> input_strips a.

(** The strip an event is aimed at, for the events of one strip. *)
Definition event_strip (e : event) : option nat :=
  match e with
  | EvSelectDevice k _ _ | EvSlider k _ | EvCapture k _ => Some k
  | EvAddInput | EvRemoveInput _ | EvSelectOutput _ _ | EvPlayback _ => None
  end.

(** The events that do not come from a button or a device list: the
    slider and the two driver callbacks. *)
Definition audio_event (e : event) : bool :=
  match e with
  | EvSlider _ _ | EvCapture _ _ | EvPlayback _ => true
  | EvAddInput | EvRemoveInput _ | EvSelectDevice _ _ _
  | EvSelectOutput _ _ => false
  end.

(** The device lists of a running application are the ones built at
    creation from [sd.query_devices()]. *)
Definition lists_ok (devs : list device_info) (a : AudioRouterApp) : Prop :=
  devices (world a) = devs ∧
  items (out_combo a) = items (populate_output_devices devs) ∧
  Forall (fun s => items (device_combo s) = items (populate_devices devs))
         (input_strips a).

(** * Properties *)

(** ** The channel buffer *)

Section ChannelBuffer.
Implicit Types (s : AudioInputStrip) (q bs : list block) (b indata : block).

Lemma set_audio_queue_twice q q' s :
  set_audio_queue q (set_audio_queue q' s) = set_audio_queue q s.
Proof. reflexivity. Qed.

Lemma full_iff q : Queue.full q = true ↔ Queue.maxsize ≤ length q.
Proof.
  unfold Queue.full, Queue.qsize, Queue.maxsize.
  rewrite andb_true_iff, Nat.ltb_lt, Nat.leb_le. lia.
Qed.

Lemma full_false_iff q : Queue.full q = false ↔ length q < Queue.maxsize.
Proof.
  rewrite <- not_true_iff_false, full_iff. lia.
Qed.

Lemma pushed_length q indata :
  length q ≤ Queue.maxsize → length (pushed q indata) ≤ Queue.maxsize.
Proof.
  intros Hq. unfold pushed. rewrite length_app. simpl.
  destruct (decide (length q = Queue.maxsize)) as [Heq|Hne].
  - rewrite length_drop. unfold Queue.maxsize in *. lia.
  - lia.
Qed.

Lemma audio_callback_pushed s indata :
  length (audio_queue s) ≤ Queue.maxsize →
  audio_callback indata s
  = Some (set_audio_queue (pushed (audio_queue s) indata) s).
Proof.
  intros Hq. unfold audio_callback, pushed.
  destruct (Queue.full (audio_queue s)) eqn:Hfull.
  - apply full_iff in Hfull.
    destruct (decide (length (audio_queue s) = Queue.maxsize)) as [Heq|Hne];
      [|lia].
    destruct (audio_queue s) as [|x rest] eqn:Hqs; simpl in *.
    + unfold Queue.maxsize in Heq. lia.
    + unfold Queue.put.
      assert (Hnf : Queue.full rest = false).
      { apply full_false_iff. lia. }
      rewrite Hnf. reflexivity.
  - unfold Queue.put. rewrite Hfull.
    apply full_false_iff in Hfull.
    destruct (decide (length (audio_queue s) = Queue.maxsize)) as [Heq|Hne];
      [lia|reflexivity].
Qed.

Lemma last_n_pushed q b rest :
  length q ≤ Queue.maxsize →
  last_n Queue.maxsize (pushed q b ++ rest)
  = last_n Queue.maxsize (q ++ b :: rest).
Proof.
  intros Hq. unfold pushed, last_n.
  destruct (decide (length q = Queue.maxsize)) as [Heq|Hne].
  - generalize dependent Queue.maxsize. intros n Hq Heq.
    destruct q as [|x q']; cbn [length] in *.
    + subst n. cbn. reflexivity.
    + cbn [drop]. rewrite drop_0, <- app_assoc. cbn [app].
      cbn [length].
      replace (S (length (q' ++ b :: rest)) - n)
        with (S (length (q' ++ b :: rest) - n))
        by (rewrite length_app; cbn [length]; lia).
      reflexivity.
  - rewrite <- app_assoc. reflexivity.
Qed.

Lemma audio_callbacks_last_n bs : ∀ s,
  length (audio_queue s) ≤ Queue.maxsize →
  audio_callbacks bs s
  = Some (set_audio_queue (last_n Queue.maxsize (audio_queue s ++ bs)) s).
Proof.
  induction bs as [|b rest IH]; intros s Hq; simpl.
  - rewrite app_nil_r. unfold last_n.
    replace (length (audio_queue s) - Queue.maxsize) with 0 by lia.
    rewrite drop_0. destruct s; reflexivity.
  - rewrite audio_callback_pushed by exact Hq.
    rewrite IH.
    + simpl. rewrite set_audio_queue_twice.
      rewrite last_n_pushed by exact Hq. reflexivity.
    + simpl. apply pushed_length, Hq.
Qed.

Lemma last_n_length {A} n (l : list A) : length (last_n n l) ≤ n.
Proof. unfold last_n. rewrite length_drop. lia. Qed.

(** Draining a queue with as many [get_nowait] calls as it has
    entries returns them from the head on and raises nothing. *)
Lemma get_many_all {A} (q : list A) :
  Queue.get_many (length q) q = (q, [], false).
Proof.
  induction q as [|x q IH]; simpl; [reflexivity|].
  rewrite IH. reflexivity.
Qed.
End ChannelBuffer.

(** ** float32 facts *)

Section Float32.
Implicit Types x y lo hi : spec_float.

Lemma ltb_leb x y : F32.ltb x y = true → F32.leb x y = true.
Proof.
  unfold F32.ltb, F32.leb, SFltb, SFleb.
  destruct (SFcompare x y) as [[]|]; congruence.
Qed.

(** NaN goes through the clip unchanged, and nothing else becomes
    NaN. *)
Lemma clip_is_nan x :
  F32.is_nan (F32.clip x F32.neg_one F32.one) = F32.is_nan x.
Proof.
  unfold F32.clip, F32.np_min, F32.np_max.
  destruct (F32.is_nan x) eqn:Hx.
  - rewrite Hx. exact Hx.
  - destruct (F32.ltb F32.neg_one x).
    + rewrite Hx. destruct (F32.ltb x F32.one); [exact Hx|reflexivity].
    + reflexivity.
Qed.

(** Every sample that is a number is clipped into [[-1.0, 1.0]]. *)
Lemma clip_in_range x :
  F32.is_nan x = false →
  F32.in_range F32.neg_one F32.one (F32.clip x F32.neg_one F32.one) = true.
Proof.
  intros Hx. unfold F32.clip, F32.np_min, F32.np_max, F32.in_range.
  rewrite Hx.
  destruct (F32.ltb F32.neg_one x) eqn:Hlo.
  - rewrite Hx. destruct (F32.ltb x F32.one) eqn:Hhi.
    + rewrite (ltb_leb _ _ Hlo), (ltb_leb _ _ Hhi). reflexivity.
    + reflexivity.
  - reflexivity.
Qed.

(** Rounding never produces NaN: the shifted and rounded mantissa of
    a non-negative mantissa is non-negative. *)
Lemma shr_1_nonneg mrs : (0 ≤ shr_m mrs)%Z → (0 ≤ shr_m (shr_1 mrs))%Z.
Proof.
  destruct mrs as [m r s]. cbn [shr_m].
  destruct m as [|p|p]; intros H; [reflexivity| |lia].
  destruct p; cbn; lia.
Qed.

Lemma iter_shr_1_nonneg p : ∀ mrs,
  (0 ≤ shr_m mrs)%Z → (0 ≤ shr_m (SpecFloat.iter_pos shr_1 p mrs))%Z.
Proof.
  induction p as [p IH|p IH|]; intros mrs H; cbn [SpecFloat.iter_pos].
  - apply IH, IH, shr_1_nonneg, H.
  - apply IH, IH, H.
  - apply shr_1_nonneg, H.
Qed.

Lemma shr_fexp_nonneg prec emax m e l :
  (0 ≤ m)%Z → (0 ≤ shr_m (shr_fexp prec emax m e l).1)%Z.
Proof.
  intros H. unfold shr_fexp, shr.
  assert (H0 : (0 ≤ shr_m (shr_record_of_loc m l))%Z)
    by (destruct l as [|[]]; exact H).
  destruct (fexp prec emax (Zdigits2 m + e) - e)%Z; cbn [fst];
    [exact H0|apply iter_shr_1_nonneg, H0|exact H0].
Qed.

Lemma round_nearest_even_nonneg m l :
  (0 ≤ m)%Z → (0 ≤ round_nearest_even m l)%Z.
Proof.
  intros H. destruct l as [|[]]; cbn; try destruct (Z.even m); lia.
Qed.

Lemma binary_round_aux_not_nan prec emax sx mx ex lx :
  (0 ≤ mx)%Z → F32.is_nan (binary_round_aux prec emax sx mx ex lx) = false.
Proof.
  intros H. unfold binary_round_aux.
  pose proof (shr_fexp_nonneg prec emax mx ex lx H) as H1.
  destruct (shr_fexp prec emax mx ex lx) as [mrs' e'].
  cbn [fst] in H1.
  pose proof (shr_fexp_nonneg prec emax _ e' loc_Exact
                (round_nearest_even_nonneg _ (loc_of_shr_record mrs') H1)) as H2.
  destruct (shr_fexp prec emax _ e' loc_Exact) as [mrs'' e''].
  cbn [fst] in H2.
  destruct (shr_m mrs'') as [|p|p]; [reflexivity| |lia].
  destruct (e'' <=? emax - prec)%Z; reflexivity.
Qed.

Lemma binary_normalize_not_nan prec emax m e szero :
  F32.is_nan (binary_normalize prec emax m e szero) = false.
Proof.
  destruct m as [|p|p]; cbn [binary_normalize]; [reflexivity| |];
    unfold binary_round;
    destruct (shl_align _ _ _) as [mz ez];
    apply binary_round_aux_not_nan; lia.
Qed.

(** Adding a finite sample to a sum that is not NaN does not give
    NaN (the sum may have overflowed to an infinity before). *)
Lemma add_not_nan x y :
  F32.is_nan x = false → F32.is_finite y = true →
  F32.is_nan (F32.add x y) = false.
Proof.
  destruct x as [sx|sx| |sx mx ex], y as [sy|sy| |sy my ey];
    cbn; intros Hx Hy; try discriminate; try reflexivity.
  - destruct sx, sy; reflexivity.
  - apply binary_normalize_not_nan.
Qed.

(** A finite sample times the gain 0.0 is a zero. *)
Lemma mul_gain_zero x :
  F32.is_finite x = true →
  F32.is_zero (F32.mul x (F64.to_f32 F64.zero)) = true.
Proof. destruct x; simpl; intros H; try discriminate; reflexivity. Qed.
End Float32.

(** ** The mixing pass *)

Section Mixer.
Implicit Types (a b acc mixed c : block) (cs : list block).
Implicit Types (strips : list AudioInputStrip).

Lemma len_np_zeros n : len (np_zeros n) = n.
Proof. apply length_replicate. Qed.

Lemma len_block_add a b : len b = len a → len (block_add a b) = len a.
Proof.
  unfold len, block_add. intros H. rewrite length_zip_with. lia.
Qed.

Lemma len_block_clip a : len (block_clip a) = len a.
Proof. apply length_map. Qed.

Lemma size_eq_len a b : size a = size b ↔ len a = len b.
Proof. unfold size, len, CHANNELS. lia. Qed.

Lemma np_iadd_same a b : len b = len a → np_iadd a b = Some (block_add a b).
Proof. intros H. unfold np_iadd. rewrite H, Nat.eqb_refl. reflexivity. Qed.

Lemma get_audio_chunk_eta s :
  get_audio_chunk s = (chunk_of s, after_chunk s).
Proof. unfold chunk_of, after_chunk. destruct (get_audio_chunk s); reflexivity. Qed.

(** The loop never raises: it computes the accumulation of the
    design document and leaves every strip as [get_audio_chunk] left
    it. *)
Lemma mix_strips_accumulate strips : ∀ mixed,
  mix_strips mixed strips
  = Some (spec_accumulate mixed (map chunk_of strips), map after_chunk strips).
Proof.
  induction strips as [|s rest IH]; intros mixed; [reflexivity|].
  cbn [mix_strips map]. rewrite get_audio_chunk_eta.
  unfold spec_accumulate. cbn [fold_left].
  destruct (decide (size (chunk_of s) = size mixed)) as [Heq|Hne].
  - apply size_eq_len in Heq. rewrite Heq, Nat.eqb_refl.
    rewrite np_iadd_same by exact Heq.
    fold (spec_accumulate (block_add mixed (chunk_of s)) (map chunk_of rest)).
    rewrite IH. reflexivity.
  - assert (Hlen : len (chunk_of s) ≠ len mixed)
      by (intros H; apply Hne, size_eq_len, H).
    apply Nat.eqb_neq in Hlen. rewrite Hlen.
    fold (spec_accumulate mixed (map chunk_of rest)).
    rewrite IH. reflexivity.
Qed.

Lemma spec_accumulate_matching cs : ∀ acc,
  spec_accumulate acc cs = fold_left block_add (matching (len acc) cs) acc
  ∧ len (spec_accumulate acc cs) = len acc.
Proof.
  induction cs as [|c rest IH]; intros acc; [split; reflexivity|].
  unfold spec_accumulate, matching. cbn [fold_left]. rewrite filter_cons.
  destruct (decide (size c = size acc)) as [Heq|Hne].
  - apply size_eq_len in Heq.
    destruct (decide (len c = len acc)) as [_|Hn]; [|contradiction].
    cbn [fold_left].
    destruct (IH (block_add acc c)) as [IH1 IH2].
    rewrite len_block_add in IH1, IH2 by exact Heq.
    split; assumption.
  - destruct (decide (len c = len acc)) as [Hn|_].
    + exfalso. apply Hne, size_eq_len, Hn.
    + apply IH.
Qed.

Lemma row_lookup i c : i < len c → c !! i = Some (row i c).
Proof.
  intros H. unfold row.
  destruct (c !! i) eqn:E; [reflexivity|].
  apply lookup_ge_None in E. unfold len in H. lia.
Qed.

(** Row [i] of a sum of blocks is the sum of their rows [i], added
    in the same order. *)
Lemma fold_block_add_row i cs : ∀ acc,
  Forall (fun c => len c = len acc) cs → i < len acc →
  row i (fold_left block_add cs acc)
  = fold_left frame_add (map (row i) cs) (row i acc).
Proof.
  induction cs as [|c rest IH]; intros acc Hall Hi; [reflexivity|].
  apply Forall_cons in Hall as [Hc Hrest].
  cbn [fold_left map].
  rewrite IH.
  - f_equal. unfold row at 1. unfold block_add.
    rewrite lookup_zip_with.
    rewrite (row_lookup i acc) by exact Hi.
    rewrite (row_lookup i c) by lia. reflexivity.
  - rewrite len_block_add by exact Hc. exact Hrest.
  - rewrite len_block_add by exact Hc. exact Hi.
Qed.

Lemma matching_all frames cs :
  Forall (fun c => len c = frames) (matching frames cs).
Proof.
  unfold matching. apply Forall_forall. intros c Hc.
  apply list_elem_of_filter in Hc. tauto.
Qed.

Lemma samples_clipped a :
  Forall (fun x => F32.is_nan x = false →
                   F32.in_range F32.neg_one F32.one x = true)
         (samples (block_clip a)).
Proof.
  induction a as [|[l r] rest IH]; [constructor|].
  cbn. repeat constructor; try exact IH.
  - intros H. rewrite clip_is_nan in H. apply clip_in_range, H.
  - intros H. rewrite clip_is_nan in H. apply clip_in_range, H.
Qed.
Lemma block_add_no_nan a : ∀ b,
  block_no_nan a → block_finite b → block_no_nan (block_add a b).
Proof.
  unfold block_no_nan, block_finite.
  induction a as [|[al ar] a IH]; intros [|[bl br] b] Ha Hb;
    try (cbn; constructor).
  - apply add_not_nan.
    + cbn in Ha. apply Forall_inv in Ha. exact Ha.
    + cbn in Hb. apply Forall_inv in Hb. exact Hb.
  - cbn in Ha, Hb.
    apply Forall_inv_tail in Ha. apply Forall_inv_tail in Hb.
    constructor.
    + apply add_not_nan.
      * apply Forall_inv in Ha. exact Ha.
      * apply Forall_inv in Hb. exact Hb.
    + apply IH.
      * apply Forall_inv_tail in Ha. exact Ha.
      * apply Forall_inv_tail in Hb. exact Hb.
Qed.

Lemma fold_block_add_no_nan cs : ∀ acc,
  block_no_nan acc → Forall block_finite cs →
  block_no_nan (fold_left block_add cs acc).
Proof.
  induction cs as [|c cs IH]; intros acc Hacc Hcs; [exact Hacc|].
  apply Forall_cons in Hcs as [Hc Hcs]. cbn [fold_left].
  apply IH; [apply block_add_no_nan; assumption|exact Hcs].
Qed.

Lemma np_zeros_no_nan n : block_no_nan (np_zeros n).
Proof.
  unfold block_no_nan. induction n as [|n IH]; cbn; repeat constructor.
  exact IH.
Qed.

Lemma samples_clipped_no_nan a :
  block_no_nan a →
  Forall (fun x => F32.in_range F32.neg_one F32.one x = true)
         (samples (block_clip a)).
Proof.
  unfold block_no_nan.
  induction a as [|[l r] rest IH]; intros Ha; [constructor|].
  cbn in Ha. cbn.
  pose proof (Forall_inv Ha) as Hl. apply Forall_inv_tail in Ha.
  pose proof (Forall_inv Ha) as Hr. apply Forall_inv_tail in Ha.
  repeat constructor; try (apply clip_in_range; assumption).
  apply IH, Ha.
Qed.
End Mixer.

(** C2. A push into a full buffer discards exactly the oldest entry and
    appends the new block; a push never waits; the buffer never holds
    more than [N = 10] blocks, whatever the sequence of pushes, and holds
    the last [N] blocks pushed, oldest first.  In particular [N + 1]
    pushes into an empty buffer leave exactly the last [N] blocks, which
    [N] reads return oldest first. *)
Theorem C2_push_drops_oldest (s : AudioInputStrip) (bs : list block) :
  length (audio_queue s) ≤ Queue.maxsize →
  (∀ indata, ∃ s',
      audio_callback indata s = Some s' ∧
      audio_queue s'
      = (if decide (length (audio_queue s) = Queue.maxsize)
         then drop 1 (audio_queue s) else audio_queue s) ++ [indata] ∧
      length (audio_queue s') ≤ Queue.maxsize) ∧
  (∃ s',
      audio_callbacks bs s = Some s' ∧
      length (audio_queue s') ≤ Queue.maxsize ∧
      audio_queue s' = last_n Queue.maxsize (audio_queue s ++ bs)) ∧
  (audio_queue s = [] → length bs = S Queue.maxsize →
   ∃ s',
      audio_callbacks bs s = Some s' ∧
      audio_queue s' = drop 1 bs ∧
      Queue.get_many Queue.maxsize (audio_queue s') = (drop 1 bs, [], false)).
Proof.
  intros Hq. split; [|split].
  - intros indata. eexists. split; [apply audio_callback_pushed, Hq|].
    split; [reflexivity|]. apply pushed_length, Hq.
  - eexists. split; [apply audio_callbacks_last_n, Hq|].
    split; [apply last_n_length|reflexivity].
  - intros Hempty Hlen. eexists.
    split; [apply audio_callbacks_last_n, Hq|].
    assert (Hlast : last_n Queue.maxsize (audio_queue s ++ bs) = drop 1 bs).
    { rewrite Hempty. cbn [app]. unfold last_n. rewrite Hlen.
      replace (S Queue.maxsize - Queue.maxsize) with 1 by lia.
      reflexivity. }
    cbn [audio_queue set_audio_queue]. rewrite Hlast.
    split; [reflexivity|].
    assert (Hn : Queue.maxsize = length (drop 1 bs))
      by (rewrite length_drop; lia).
    rewrite Hn at 1. apply get_many_all.
Qed.

Lemma C2_push_drops_oldest_witness :
  length (audio_queue ex_strip) ≤ Queue.maxsize ∧
  ∃ s', audio_callbacks ex_blocks ex_strip = Some s' ∧
        audio_queue s' = drop 1 ex_blocks.
Proof.
  assert (H : length (audio_queue ex_strip) ≤ Queue.maxsize)
    by (vm_compute; lia).
  split; [exact H|].
  destruct (C2_push_drops_oldest ex_strip ex_blocks H) as (_ & _ & H3).
  destruct (H3 eq_refl eq_refl) as (s' & Hs' & Hqueue & _).
  exists s'. split; assumption.
Defined.

Section MixerExamples.
Lemma block_add_replicate n (x y : spec_float * spec_float) :
  block_add (replicate n x) (replicate n y) = replicate n (frame_add x y).
Proof. induction n as [|n IH]; [reflexivity|]. cbn. f_equal. exact IH. Qed.

Lemma block_scale_replicate n g (x : spec_float * spec_float) :
  block_scale (replicate n x) g = replicate n (frame_scale g x).
Proof. induction n as [|n IH]; [reflexivity|]. cbn. f_equal. exact IH. Qed.

Lemma block_clip_replicate n (x : spec_float * spec_float) :
  block_clip (replicate n x) = replicate n (frame_clip x).
Proof. induction n as [|n IH]; [reflexivity|]. cbn. f_equal. exact IH. Qed.

Lemma chunk_of_active s data rest :
  is_active s = true → audio_queue s = data :: rest →
  get_audio_chunk s = (block_scale data (volume s), set_audio_queue rest s).
Proof.
  intros Ha Hq. unfold get_audio_chunk. rewrite Ha, Hq. reflexivity.
Qed.

Lemma chunk_of_silent s :
  is_active s = false ∨ audio_queue s = [] →
  get_audio_chunk s = (np_zeros BLOCK_SIZE, s).
Proof.
  intros [Ha|Hq]; unfold get_audio_chunk.
  - rewrite Ha. reflexivity.
  - rewrite Hq, orb_true_r. reflexivity.
Qed.
End MixerExamples.

(** C1 (amended).  Every playback callback returns normally; it starts
    from [frames] rows of zeros, adds row by row the chunk of each strip
    whose row count is [frames], clips, and writes [frames] rows.  Every
    written sample that is not NaN lies in [[-1.0, 1.0]] (a NaN sum is
    written as NaN), and no written sample is NaN when the chunks added
    hold only finite samples.  Two channels that each yield a block of
    ones at gain 1.0 give a block of ones. *)
Theorem C1_mix_then_clip (frames : nat) (a : AudioRouterApp) :
  ∃ out a',
    output_callback frames a = Some (out, a') ∧
    len out = frames ∧
    (∀ i, i < frames →
       out !! i
       = Some (frame_clip
                 (fold_left frame_add
                    (map (row i)
                       (matching frames (map chunk_of (input_strips a))))
                    (F32.zero, F32.zero)))) ∧
    Forall (fun x => F32.is_nan x = false →
                     F32.in_range F32.neg_one F32.one x = true)
           (samples out) ∧
    (Forall block_finite (matching frames (map chunk_of (input_strips a))) →
     Forall (fun x => F32.in_range F32.neg_one F32.one x = true)
            (samples out)) ∧
    (∀ s1 s2 q1 q2,
       input_strips a = [s1; s2] →
       is_active s1 = true → is_active s2 = true →
       volume s1 = F64.one → volume s2 = F64.one →
       audio_queue s1 = np_ones frames :: q1 →
       audio_queue s2 = np_ones frames :: q2 →
       out = np_ones frames).
Proof.
  unfold output_callback. rewrite mix_strips_accumulate.
  set (cs := map chunk_of (input_strips a)).
  destruct (spec_accumulate_matching cs (np_zeros frames)) as [Hacc Hlen].
  rewrite len_np_zeros in Hacc, Hlen.
  eexists _, _. split; [reflexivity|].
  split; [rewrite len_block_clip; exact Hlen|].
  split; [|split; [|split]].
  - intros i Hi. unfold block_clip. rewrite list_lookup_fmap.
    rewrite (row_lookup i) by (rewrite Hlen; exact Hi).
    cbn. f_equal. f_equal. rewrite Hacc.
    rewrite fold_block_add_row.
    + f_equal. unfold row, np_zeros.
      rewrite lookup_replicate_2 by exact Hi. reflexivity.
    + rewrite len_np_zeros. apply matching_all.
    + rewrite len_np_zeros. exact Hi.
  - apply samples_clipped.
  - intros Hfinite. apply samples_clipped_no_nan. rewrite Hacc.
    apply fold_block_add_no_nan; [apply np_zeros_no_nan|exact Hfinite].
  - intros s1 s2 q1 q2 Hin Ha1 Ha2 Hv1 Hv2 Hq1 Hq2.
    subst cs. rewrite Hin. cbn [map].
    unfold chunk_of.
    rewrite (chunk_of_active s1 _ _ Ha1 Hq1), (chunk_of_active s2 _ _ Ha2 Hq2).
    rewrite Hv1, Hv2. cbn [fst].
    unfold np_ones. rewrite block_scale_replicate.
    unfold spec_accumulate. cbn [fold_left].
    unfold size, np_zeros. rewrite !length_replicate.
    destruct (decide (frames * CHANNELS = frames * CHANNELS)) as [_|Hn];
      [|contradiction].
    rewrite block_add_replicate, length_replicate.
    destruct (decide (frames * CHANNELS = frames * CHANNELS)) as [_|Hn];
      [|contradiction].
    rewrite block_add_replicate, block_clip_replicate.
    f_equal.
Qed.

Lemma C1_mix_then_clip_witness :
  ∃ out a',
    output_callback BLOCK_SIZE ex_ones_app = Some (out, a') ∧
    out = np_ones BLOCK_SIZE.
Proof.
  destruct (C1_mix_then_clip BLOCK_SIZE ex_ones_app)
    as (out & a' & Hrun & _ & _ & _ & _ & Hones).
  exists out, a'. split; [exact Hrun|].
  apply (Hones (ex_strip_at 0 ex_ones_app) (ex_strip_at 1 ex_ones_app) [] []);
    reflexivity.
Defined.

(** C1 as stated fails: a strip that captured a block starting with a
    NaN sample makes the callback write NaN, which is not in
    [[-1.0, 1.0]]. *)
Lemma C1_counterexample :
  ∃ out a',
    output_callback BLOCK_SIZE ex_nan_app = Some (out, a') ∧
    ¬ Forall (fun x => F32.in_range F32.neg_one F32.one x = true)
        (samples out).
Proof.
  eexists _, _. split; [vm_compute; reflexivity|].
  intros H. apply Forall_inv in H. vm_compute in H. discriminate H.
Qed.

(** Two scenarios of the design document, run on the model: one strip
    at gain 0.5 holding ones next to a strip without device gives 0.5
    everywhere; one strip at gain 1.0 holding 0.3 next to a strip
    without device gives 0.3 everywhere. *)
Example mix_half_gain_with_silent_strip :
  fst <$> output_callback BLOCK_SIZE ex_half_app
  = Some (replicate BLOCK_SIZE (F32.half, F32.half)).
Proof. vm_compute. reflexivity. Qed.

Example mix_end_to_end :
  fst <$> output_callback BLOCK_SIZE ex_three_tenths_app
  = Some (replicate BLOCK_SIZE (F32.three_tenths, F32.three_tenths)).
Proof. vm_compute. reflexivity. Qed.

Section SilentStrip.
Lemma spec_accumulate_app acc (cs1 cs2 : list (list (spec_float * spec_float))) :
  spec_accumulate acc (cs1 ++ cs2)
  = spec_accumulate (spec_accumulate acc cs1) cs2.
Proof. unfold spec_accumulate. apply fold_left_app. Qed.

Lemma spec_accumulate_len acc (cs : list (list (spec_float * spec_float))) :
  len (spec_accumulate acc cs) = len acc.
Proof. apply spec_accumulate_matching. Qed.

Lemma after_chunk_silent s :
  is_active s = false ∨ audio_queue s = [] → after_chunk s = s.
Proof.
  intros H. unfold after_chunk. rewrite chunk_of_silent by exact H.
  reflexivity.
Qed.
End SilentStrip.

(** C10. An inactive or empty strip yields silence of the fixed shape
    [BLOCK_SIZE x CHANNELS = 1024 x 2], whatever frame count the
    playback callback asks for; when that count is not 1024 the chunk
    fails the size check and the strip contributes nothing: the pass
    writes what it writes without the strip, and the strip is left as
    it was. *)
Theorem C10_silence_has_fixed_shape (s : AudioInputStrip) :
  is_active s = false ∨ audio_queue s = [] →
  get_audio_chunk s = (np_zeros BLOCK_SIZE, s) ∧
  len (chunk_of s) = 1024 ∧
  size (chunk_of s) = 1024 * 2 ∧
  ∀ frames a before after_,
    frames ≠ 1024 →
    input_strips a = before ++ s :: after_ →
    (∀ acc, len acc = frames → spec_accumulate acc [chunk_of s] = acc) ∧
    ∃ out a',
      output_callback frames a = Some (out, a') ∧
      input_strips a' !! length before = Some s ∧
      ∃ a'',
        output_callback frames (set_input_strips (before ++ after_) a)
        = Some (out, a'').
Proof.
  intros Hsilent.
  assert (Hchunk : chunk_of s = np_zeros BLOCK_SIZE)
    by (unfold chunk_of; rewrite chunk_of_silent by exact Hsilent; reflexivity).
  split; [apply chunk_of_silent, Hsilent|].
  rewrite Hchunk.
  split; [apply len_np_zeros|].
  split; [unfold size; change (length (np_zeros BLOCK_SIZE)) with
            (len (np_zeros BLOCK_SIZE)); rewrite len_np_zeros; reflexivity|].
  intros frames a before after_ Hframes Hin.
  assert (Hskip : ∀ acc, len acc = frames →
            spec_accumulate acc [np_zeros BLOCK_SIZE] = acc).
  { intros acc Hacc. unfold spec_accumulate. cbn [fold_left].
    destruct (decide (size (np_zeros BLOCK_SIZE) = size acc)) as [Heq|Hne];
      [|reflexivity].
    apply size_eq_len in Heq. rewrite len_np_zeros, Hacc in Heq.
    unfold BLOCK_SIZE in Heq. congruence. }
  split; [exact Hskip|].
  unfold output_callback. rewrite !mix_strips_accumulate.
  eexists _, _. split; [reflexivity|].
  cbn [input_strips set_input_strips]. rewrite Hin.
  split.
  - rewrite map_app. cbn [map].
    rewrite lookup_app_r by (rewrite length_map; lia).
    rewrite length_map, Nat.sub_diag. cbn.
    rewrite after_chunk_silent by exact Hsilent. reflexivity.
  - eexists. do 2 f_equal.
    rewrite !map_app. cbn [map]. rewrite Hchunk.
    rewrite !spec_accumulate_app.
    change (np_zeros BLOCK_SIZE :: map chunk_of after_)
      with ([np_zeros BLOCK_SIZE] ++ map chunk_of after_).
    rewrite spec_accumulate_app. rewrite Hskip; [reflexivity|].
    rewrite spec_accumulate_len. apply len_np_zeros.
Qed.

Lemma C10_silence_has_fixed_shape_witness :
  get_audio_chunk (ex_strip_at 1 ex_mixed_app)
  = (np_zeros BLOCK_SIZE, ex_strip_at 1 ex_mixed_app) ∧
  ∃ out a' a'',
    output_callback 512 ex_mixed_app = Some (out, a') ∧
    output_callback 512
      (set_input_strips [ex_strip_at 0 ex_mixed_app] ex_mixed_app)
    = Some (out, a'').
Proof.
  destruct (C10_silence_has_fixed_shape (ex_strip_at 1 ex_mixed_app))
    as (Hchunk & _ & _ & Hskip).
  - left. reflexivity.
  - split; [exact Hchunk|].
    destruct (Hskip 512 ex_mixed_app [ex_strip_at 0 ex_mixed_app] [])
      as (_ & out & a' & Hrun & _ & a'' & Hwithout).
    + discriminate.
    + reflexivity.
    + exists out, a', a''. split; [exact Hrun|exact Hwithout].
Defined.

Section NextMixBlock.
Implicit Types (s : AudioInputStrip).

Lemma samples_block_scale (data : list (spec_float * spec_float)) g :
  samples (block_scale data g)
  = map (fun x => F32.mul x (F64.to_f32 g)) (samples data).
Proof.
  induction data as [|[l r] rest IH]; [reflexivity|].
  cbn. f_equal. f_equal. exact IH.
Qed.

Lemma samples_np_zeros n :
  Forall (fun x => F32.is_zero x = true) (samples (np_zeros n)).
Proof. induction n as [|n IH]; cbn; repeat constructor. exact IH. Qed.

(** Reading an active strip as often as it has blocks returns every
    block once, scaled, oldest first, and empties the queue. *)
Lemma get_audio_chunks_all (q : list (list (spec_float * spec_float))) : ∀ s,
  is_active s = true → audio_queue s = q →
  get_audio_chunks (length q) s
  = (map (fun data => block_scale data (volume s)) q, set_audio_queue [] s).
Proof.
  induction q as [|data rest IH]; intros s Ha Hq.
  - cbn. destruct s; cbn in *. subst. reflexivity.
  - cbn [length get_audio_chunks].
    rewrite (chunk_of_active s data rest Ha Hq).
    rewrite (IH (set_audio_queue rest s)) by (assumption || reflexivity).
    reflexivity.
Qed.

Lemma set_audio_queue_id s : set_audio_queue (audio_queue s) s = s.
Proof. destruct s; reflexivity. Qed.
End NextMixBlock.

(** C3 (amended).  [get_audio_chunk] returns silence of
    [BLOCK_SIZE x CHANNELS] zeros and leaves the strip alone when the
    strip is inactive or its queue is empty; otherwise it removes the
    oldest block and returns it with every sample multiplied by the
    gain.  Blocks pushed into an empty active strip (at most the
    capacity) come back once each, in the order pushed, and then silence
    follows.  At gain 0.0 the returned block is all zeros whenever the
    samples of the block read are finite. *)
Theorem C3_next_mix_block (s : AudioInputStrip) :
  (is_active s = false ∨ audio_queue s = [] →
     get_audio_chunk s = (np_zeros BLOCK_SIZE, s) ∧
     len (np_zeros BLOCK_SIZE) = BLOCK_SIZE ∧
     size (np_zeros BLOCK_SIZE) = BLOCK_SIZE * CHANNELS ∧
     Forall (fun x => F32.is_zero x = true) (samples (np_zeros BLOCK_SIZE))) ∧
  (∀ data rest,
     is_active s = true → audio_queue s = data :: rest →
     ∃ chunk,
       get_audio_chunk s = (chunk, set_audio_queue rest s) ∧
       len chunk = len data ∧
       samples chunk
       = map (fun x => F32.mul x (F64.to_f32 (volume s))) (samples data)) ∧
  (∀ bs,
     is_active s = true → audio_queue s = [] → length bs ≤ Queue.maxsize →
     ∃ s1,
       audio_callbacks bs s = Some s1 ∧
       get_audio_chunks (length bs) s1
       = (map (fun data => block_scale data (volume s)) bs, s) ∧
       get_audio_chunk s = (np_zeros BLOCK_SIZE, s)) ∧
  (volume s = F64.zero →
     (∀ data rest, audio_queue s = data :: rest →
        Forall (fun x => F32.is_finite x = true) (samples data)) →
     Forall (fun x => F32.is_zero x = true) (samples (chunk_of s))).
Proof.
  split; [|split; [|split]].
  - intros Hsilent. split; [apply chunk_of_silent, Hsilent|].
    split; [apply len_np_zeros|].
    split; [|apply samples_np_zeros].
    unfold size. change (length (np_zeros BLOCK_SIZE)) with
      (len (np_zeros BLOCK_SIZE)). rewrite len_np_zeros. reflexivity.
  - intros data rest Ha Hq. eexists.
    split; [apply chunk_of_active; eassumption|].
    split; [apply length_map|apply samples_block_scale].
  - intros bs Ha Hq Hlen.
    assert (Hcap : length (audio_queue s) ≤ Queue.maxsize)
      by (rewrite Hq; cbn; lia).
    eexists. split; [apply audio_callbacks_last_n, Hcap|].
    assert (Hlast : last_n Queue.maxsize (audio_queue s ++ bs) = bs).
    { rewrite Hq. cbn [app]. unfold last_n.
      replace (length bs - Queue.maxsize) with 0 by lia. apply drop_0. }
    rewrite Hlast. split.
    + rewrite (get_audio_chunks_all bs (set_audio_queue bs s))
        by (assumption || reflexivity).
      cbn [volume set_audio_queue]. f_equal.
      rewrite set_audio_queue_twice, <- Hq. apply set_audio_queue_id.
    + apply chunk_of_silent. right. exact Hq.
  - intros Hv Hfin. unfold chunk_of.
    destruct (is_active s) eqn:Ha.
    + destruct (audio_queue s) as [|data rest] eqn:Hq.
      * rewrite chunk_of_silent by (right; exact Hq). apply samples_np_zeros.
      * rewrite (chunk_of_active s data rest Ha Hq). cbn [fst].
        rewrite samples_block_scale, Hv.
        apply Forall_fmap. specialize (Hfin data rest eq_refl).
        eapply Forall_impl; [exact Hfin|].
        intros x Hx. cbn. apply mul_gain_zero, Hx.
    + rewrite chunk_of_silent by (left; exact Ha). apply samples_np_zeros.
Qed.

Lemma C3_next_mix_block_witness :
  ∃ s1,
    audio_callbacks (take 3 ex_blocks) ex_active_strip = Some s1 ∧
    get_audio_chunks 3 s1
    = (map (fun data => block_scale data (volume ex_active_strip))
         (take 3 ex_blocks), ex_active_strip).
Proof.
  destruct (C3_next_mix_block ex_active_strip) as (_ & _ & Hfifo & _).
  destruct (Hfifo (take 3 ex_blocks)) as (s1 & Hpush & Hread & _).
  - reflexivity.
  - reflexivity.
  - vm_compute. lia.
  - exists s1. split; [exact Hpush|exact Hread].
Defined.

(** C3 as stated fails: at gain 0.0 an infinite sample in the block
    read gives NaN, not zero. *)
Lemma C3_counterexample :
  volume ex_muted_strip = F64.zero ∧
  ¬ Forall (fun x => F32.is_zero x = true) (samples (chunk_of ex_muted_strip)).
Proof.
  split; [reflexivity|].
  intros H. apply Forall_inv in H. vm_compute in H. discriminate H.
Qed.

Section Gain.
(** All 101 slider positions give a gain in [[0.0, 1.0]]. *)
Lemma unit_gain_positions :
  forallb (fun n => unit_gain (gain_of_percent (Z.of_nat n))) (seq 0 101)
  = true.
Proof. vm_compute. reflexivity. Qed.

Lemma unit_gain_of_percent v :
  (SLIDER_MIN ≤ v ≤ SLIDER_MAX)%Z → unit_gain (gain_of_percent v) = true.
Proof.
  unfold SLIDER_MIN, SLIDER_MAX. intros Hv.
  pose proof unit_gain_positions as Hall.
  rewrite forallb_forall in Hall.
  specialize (Hall (Z.to_nat v)).
  rewrite Z2Nat.id in Hall by lia.
  apply Hall. apply in_seq. lia.
Qed.

Lemma clamp_percent_range v :
  (SLIDER_MIN ≤ clamp_percent v ≤ SLIDER_MAX)%Z.
Proof. unfold clamp_percent, SLIDER_MIN, SLIDER_MAX. lia. Qed.
End Gain.




Section StopStream.
Lemma stop_stream_eq w s :
  stop_stream w s
  = (match stream s with Some st => world_close st w | None => w end,
     set_audio_queue [] (set_stream None (set_is_active false s))).
Proof.
  unfold stop_stream. destruct s as [o i [st|] q v act sl dc]; reflexivity.
Qed.
End StopStream.

(** C8. After [stop_stream] the strip is inactive, its queue is empty
    and it has no stream, the stream it had being closed; a second call
    changes neither the strip nor anything outside it. *)
Theorem C8_stop_idempotent (w : World) (s : AudioInputStrip) :
  is_active (stop_stream w s).2 = false ∧
  audio_queue (stop_stream w s).2 = [] ∧
  stream (stop_stream w s).2 = None ∧
  (∀ st, stream s = Some st → sid st ∉ open_streams (stop_stream w s).1) ∧
  stop_stream (stop_stream w s).1 (stop_stream w s).2 = stop_stream w s.
Proof.
  rewrite stop_stream_eq. cbn [fst snd].
  split; [reflexivity|]. split; [reflexivity|]. split; [reflexivity|].
  split.
  - intros st Hst. rewrite Hst. cbn. intros Hin.
    apply list_elem_of_filter in Hin. destruct Hin as [Hne _].
    apply Hne. reflexivity.
  - rewrite stop_stream_eq. reflexivity.
Qed.

Lemma C8_stop_idempotent_witness :
  stop_stream (stop_stream (world ex_running_app) ex_active_strip).1
              (stop_stream (world ex_running_app) ex_active_strip).2
  = stop_stream (world ex_running_app) ex_active_strip.
Proof.
  destruct (C8_stop_idempotent (world ex_running_app) ex_active_strip)
    as (_ & _ & _ & _ & H).
  exact H.
Defined.

Section OpenFailure.
Lemma placeholder_not_current c d :
  items c !! 0 = Some None → currentData c = Some d → currentIndex c ≠ 0.
Proof.
  unfold currentData. intros H0 Hd Hidx. rewrite Hidx, H0 in Hd.
  discriminate Hd.
Qed.

Lemma currentData_reset c :
  items c !! 0 = Some None →
  currentData {| items := items c; currentIndex := 0 |} = None.
Proof. unfold currentData. cbn. intros ->. reflexivity. Qed.

Lemma filter_fresh (new : nat) (l : list nat) :
  new ∉ l → filter (fun h => h ≠ new) (l ++ [new]) = l.
Proof.
  intros Hnew. rewrite filter_app, filter_cons, filter_nil.
  destruct (decide (new ≠ new)) as [Hne|_]; [contradiction|].
  rewrite app_nil_r.
  induction l as [|x l IH]; [reflexivity|].
  rewrite filter_cons. apply not_elem_of_cons in Hnew as [Hx Hl].
  destruct (decide (x ≠ new)) as [_|Heq].
  - f_equal. apply IH, Hl.
  - exfalso. apply Heq. congruence.
Qed.

Lemma filter_keeps_fresh (old new : nat) (l : list nat) :
  new ∉ l → new ∉ filter (fun h => h ≠ old) l.
Proof. intros Hnew Hin. apply list_elem_of_filter in Hin. tauto. Qed.

(** [start_stream] when the driver refuses the selected device. *)
Lemma start_stream_open_failure fuel drv w s d :
  items (device_combo s) !! 0 = Some None →
  currentData (device_combo s) = Some d →
  drv d ≠ Opens →
  next_sid w ∉ open_streams w →
  ∃ w' s',
    start_stream (S (S fuel)) drv w s = Some (w', s') ∧
    s' = set_device_combo
           {| items := items (device_combo s); currentIndex := 0 |}
           (stop_stream w s).2 ∧
    dialogs w' = dialogs w ++ [AudioError] ∧
    open_streams w' = open_streams (stop_stream w s).1 ∧
    devices w' = devices w.
Proof.
  intros H0 Hd Hdrv Hfresh.
  pose proof (placeholder_not_current _ _ H0 Hd) as Hidx.
  apply Nat.eqb_neq in Hidx.
  pose proof (currentData_reset _ H0) as Hreset.
  cbn [start_stream]. rewrite stop_stream_eq.
  cbn [device_combo set_audio_queue set_stream set_is_active fst snd].
  rewrite Hd.
  destruct (drv d) eqn:Hout; [| |congruence].
  - (* the constructor raises *)
    cbn [device_combo]. rewrite Hidx.
    rewrite stop_stream_eq.
    cbn [device_combo set_audio_queue set_stream set_is_active
         set_device_combo stream].
    cbn [items currentIndex] in Hreset |- *. rewrite Hreset.
    eexists _, _. split; [reflexivity|]. split; [reflexivity|].
    destruct (stream s); repeat split; reflexivity.
  - (* the constructor succeeds, start() raises *)
    cbn [device_combo set_stream]. rewrite Hidx.
    rewrite stop_stream_eq.
    cbn [device_combo set_audio_queue set_stream set_is_active
         set_device_combo stream].
    cbn [items currentIndex] in Hreset |- *. rewrite Hreset.
    eexists _, _. split; [reflexivity|]. split; [reflexivity|].
    split; [destruct (stream s); reflexivity|].
    split; [|destruct (stream s); reflexivity].
    destruct (stream s) as [st|]; cbn.
    + apply filter_fresh, filter_keeps_fresh, Hfresh.
    + apply filter_fresh, Hfresh.
Qed.
End OpenFailure.

(** C5. When the driver refuses the device selected on a strip
    (the stream constructor or [start()] raises), [start_stream]
    returns with the strip inactive, without stream, with an empty
    queue and with the selection back on the placeholder; the only
    change to the driver's open streams is that the strip's previous
    stream is closed, so no stream opened by the call remains; one
    "Audio Error" dialog is shown; every other strip and the playback
    stream are as before. *)
Theorem C5_capture_open_failure (fuel : nat) (drv : driver) (k : nat)
    (a : AudioRouterApp) (s : AudioInputStrip) (d : nat) :
  input_strips a !! k = Some s →
  items (device_combo s) !! 0 = Some None →
  currentData (device_combo s) = Some d →
  drv d ≠ Opens →
  next_sid (world a) ∉ open_streams (world a) →
  ∃ a' s',
    strip_start_stream (S (S fuel)) drv k a = Some a' ∧
    input_strips a' !! k = Some s' ∧
    is_active s' = false ∧ stream s' = None ∧ audio_queue s' = [] ∧
    currentData (device_combo s') = None ∧
    open_streams (world a')
    = match stream s with
      | Some st => filter (fun h => h ≠ sid st) (open_streams (world a))
      | None => open_streams (world a)
      end ∧
    dialogs (world a') = dialogs (world a) ++ [AudioError] ∧
    length (input_strips a') = length (input_strips a) ∧
    (∀ j, j ≠ k → input_strips a' !! j = input_strips a !! j) ∧
    output_stream a' = output_stream a.
Proof.
  intros Hk H0 Hd Hdrv Hfresh.
  destruct (start_stream_open_failure fuel drv (world a) s d H0 Hd Hdrv Hfresh)
    as (w' & s' & Hrun & Hs' & Hdialogs & Hopen & _).
  unfold strip_start_stream. rewrite Hk, Hrun.
  eexists _, s'. split; [reflexivity|].
  cbn [input_strips set_input_strips set_world world output_stream].
  split.
  { apply list_lookup_insert_eq. eapply lookup_lt_Some, Hk. }
  rewrite Hs', stop_stream_eq in *. cbn [snd fst] in *.
  split; [reflexivity|]. split; [reflexivity|]. split; [reflexivity|].
  split; [apply currentData_reset, H0|].
  split; [rewrite Hopen; destruct (stream s); reflexivity|].
  split; [exact Hdialogs|].
  split; [apply length_insert|].
  split; [|reflexivity].
  intros j Hj. apply list_lookup_insert_ne. congruence.
Qed.

Lemma C5_capture_open_failure_witness :
  ∃ a',
    strip_start_stream 2 ex_driver 0 ex_selected_app = Some a' ∧
    is_active (ex_strip_at 0 a') = false ∧
    stream (ex_strip_at 0 a') = None ∧
    open_streams (world ex_selected_app) = [0; 1] ∧
    open_streams (world a') = [1] ∧
    dialogs (world a') = [AudioError] ∧
    input_strips a' !! 1 = input_strips ex_selected_app !! 1.
Proof.
  destruct (C5_capture_open_failure 0 ex_driver 0 ex_selected_app
              (ex_strip_at 0 ex_selected_app) 2)
    as (a' & s' & Hrun & Hs' & Hactive & Hstream & _ & _ & Hopen & Hdialogs
        & _ & Hothers & _).
  - reflexivity.
  - reflexivity.
  - reflexivity.
  - discriminate.
  - apply (bool_decide_unpack _). vm_compute. reflexivity.
  - exists a'. split; [exact Hrun|].
    unfold ex_strip_at at 1 2. rewrite Hs'. cbn [default from_option id].
    split; [exact Hactive|]. split; [exact Hstream|].
    split; [reflexivity|]. split; [exact Hopen|].
    split; [exact Hdialogs|]. apply Hothers. lia.
Defined.

Section PlaybackFailure.
Lemma restart_output_stream_failure fuel drv a d :
  items (out_combo a) !! 0 = Some None →
  currentData (out_combo a) = Some d →
  drv d ≠ Opens →
  next_sid (world a) ∉ open_streams (world a) →
  ∃ a',
    restart_output_stream (S (S fuel)) drv a = Some a' ∧
    output_stream a' = None ∧
    out_combo a' = {| items := items (out_combo a); currentIndex := 0 |} ∧
    open_streams (world a')
    = match output_stream a with
      | Some st => filter (fun h => h ≠ sid st) (open_streams (world a))
      | None => open_streams (world a)
      end ∧
    dialogs (world a') = dialogs (world a) ++ [OutputError] ∧
    input_strips a' = input_strips a ∧
    next_oid a' = next_oid a.
Proof.
  intros H0 Hd Hdrv Hfresh.
  pose proof (placeholder_not_current _ _ H0 Hd) as Hidx.
  apply Nat.eqb_neq in Hidx.
  pose proof (currentData_reset _ H0) as Hreset.
  cbn [items currentIndex] in Hreset.
  assert (Hnested : ∀ a0,
            out_combo a0 = {| items := items (out_combo a); currentIndex := 0 |} →
            restart_output_stream (S fuel) drv a0
            = Some match output_stream a0 with
                   | Some st =>
                       set_output_stream None
                         (set_world (world_close st (world a0)) a0)
                   | None => a0
                   end).
  { intros a0 Hc0. cbn [restart_output_stream].
    destruct (output_stream a0); cbn [out_combo set_output_stream set_world];
      rewrite Hc0; unfold currentData; cbn [items currentIndex];
      rewrite H0; reflexivity. }
  remember (S fuel) as fuel1 eqn:Hfuel1.
  cbn [restart_output_stream].
  destruct (output_stream a) as [st|] eqn:Hst;
    cbn [out_combo set_output_stream set_world]; rewrite Hd;
    (destruct (drv d) eqn:Hout; [| |congruence]);
    cbn [out_combo set_output_stream set_world]; rewrite Hidx;
    rewrite Hnested by reflexivity;
    cbn [output_stream set_out_combo set_output_stream set_world];
    rewrite ?Hst;
    (eexists; split; [reflexivity|]);
    cbn [output_stream set_out_combo set_output_stream set_world out_combo
         world input_strips next_oid];
    rewrite ?Hst;
    repeat (split; [reflexivity|]).
  - repeat split; reflexivity.
  - split; [|repeat split; reflexivity].
    cbn. apply filter_fresh, filter_keeps_fresh, Hfresh.
  - repeat split; reflexivity.
  - split; [|repeat split; reflexivity].
    cbn. apply filter_fresh, Hfresh.
Qed.
End PlaybackFailure.

(** C9. When the driver refuses the selected playback device,
    [restart_output_stream] returns with no playback stream, the
    previous one closed and none left open by the call, one
    "Output Error" dialog shown and the selection back on the
    placeholder; the registry and every strip in it (stream, active
    flag, gain, queue) are exactly as before. *)
Theorem C9_playback_open_failure (fuel : nat) (drv : driver)
    (a : AudioRouterApp) (d : nat) :
  items (out_combo a) !! 0 = Some None →
  currentData (out_combo a) = Some d →
  drv d ≠ Opens →
  next_sid (world a) ∉ open_streams (world a) →
  ∃ a',
    restart_output_stream (S (S fuel)) drv a = Some a' ∧
    output_stream a' = None ∧
    currentData (out_combo a') = None ∧
    open_streams (world a')
    = match output_stream a with
      | Some st => filter (fun h => h ≠ sid st) (open_streams (world a))
      | None => open_streams (world a)
      end ∧
    dialogs (world a') = dialogs (world a) ++ [OutputError] ∧
    input_strips a' = input_strips a ∧
    (∀ k s, input_strips a !! k = Some s →
       ∃ s', input_strips a' !! k = Some s' ∧
             stream s' = stream s ∧ is_active s' = is_active s ∧
             volume s' = volume s ∧ audio_queue s' = audio_queue s).
Proof.
  intros H0 Hd Hdrv Hfresh.
  destruct (restart_output_stream_failure fuel drv a d H0 Hd Hdrv Hfresh)
    as (a' & Hrun & Hout & Hcombo & Hopen & Hdialogs & Hstrips & _).
  exists a'. split; [exact Hrun|]. split; [exact Hout|].
  split; [rewrite Hcombo; apply currentData_reset, H0|].
  split; [exact Hopen|]. split; [exact Hdialogs|]. split; [exact Hstrips|].
  intros k s Hk. exists s. rewrite Hstrips. repeat split; try reflexivity.
  exact Hk.
Qed.

Lemma C9_playback_open_failure_witness :
  ∃ a',
    restart_output_stream 2 (fun _ => StartRaises) ex_selected_app = Some a' ∧
    output_stream a' = None ∧
    open_streams (world a') = [0; 1] ∧
    dialogs (world a') = [OutputError] ∧
    input_strips a' = input_strips ex_selected_app.
Proof.
  destruct (C9_playback_open_failure 0 (fun _ => StartRaises)
              ex_selected_app 1)
    as (a' & Hrun & Hout & _ & Hopen & Hdialogs & Hstrips & _).
  - reflexivity.
  - reflexivity.
  - discriminate.
  - apply (bool_decide_unpack _). vm_compute. reflexivity.
  - exists a'. split; [exact Hrun|]. split; [exact Hout|].
    split; [exact Hopen|]. split; [exact Hdialogs|exact Hstrips].
Defined.

(** ** The registry *)

Section Registry.
Implicit Types (a : AudioRouterApp) (c : control) (cs : list control).
Implicit Types (l : list AudioInputStrip) (s : AudioInputStrip).

Lemma run_snoc cs c a : run (cs ++ [c]) a = control_step (run cs a) c.
Proof. unfold run. rewrite fold_left_app. reflexivity. Qed.

Lemma list_remove_subseteq o l s : s ∈ list_remove o l → s ∈ l.
Proof.
  induction l as [|x l IH]; cbn; [tauto|].
  destruct (oid x =? o).
  - intros H. right. exact H.
  - intros H. apply elem_of_cons in H as [->|H]; [left|right; apply IH, H].
Qed.

Lemma list_remove_oids_sublist o l :
  sublist (map oid (list_remove o l)) (map oid l).
Proof.
  induction l as [|x l IH]; cbn; [constructor|].
  destruct (oid x =? o); cbn.
  - apply sublist_cons. reflexivity.
  - apply sublist_skip. exact IH.
Qed.

(** What a control step does to the registry. *)
Lemma control_step_strips a c :
  (∃ s, c = AddInput ∧
        input_strips (control_step a c) = input_strips a ++ [s] ∧
        oid s = next_oid a ∧ index s = length (input_strips a) ∧
        next_oid (control_step a c) = S (next_oid a)) ∨
  (c ≠ AddInput ∧
   (∀ s, s ∈ input_strips (control_step a c) → s ∈ input_strips a) ∧
   sublist (map oid (input_strips (control_step a c)))
           (map oid (input_strips a)) ∧
   next_oid (control_step a c) = next_oid a).
Proof.
  destruct c as [|k]; [left|right].
  - eexists. repeat split; reflexivity.
  - split; [discriminate|]. cbn [control_step].
    destruct (input_strips a !! k) as [strip|]; [|repeat split; auto].
    unfold close_strip. rewrite stop_stream_eq.
    unfold remove_input_strip.
    cbn [oid set_audio_queue set_stream set_is_active input_strips set_world].
    destruct (existsb _ _); cbn [input_strips set_input_strips set_world next_oid].
    + split; [intros s; apply list_remove_subseteq|].
      split; [apply list_remove_oids_sublist|reflexivity].
    + repeat split; auto.
Qed.

Lemma registry_ok_new devs : registry_ok (new_app devs).
Proof. split; cbn; constructor. Qed.

Lemma registry_ok_step a c : registry_ok a → registry_ok (control_step a c).
Proof.
  intros [Hfresh Hnodup].
  destruct (control_step_strips a c)
    as [(s & _ & Hstrips & Hoid & _ & Hnext)|(_ & Hsub & Hoids & Hnext)].
  - split; rewrite Hstrips, ?Hnext.
    + apply Forall_app. split.
      * eapply Forall_impl; [exact Hfresh|]. cbn. intros; lia.
      * constructor; [lia|constructor].
    + rewrite map_app. cbn [map]. apply NoDup_app.
      split; [exact Hnodup|]. split; [|apply NoDup_singleton].
      intros o Ho Hin. apply list_elem_of_singleton in Hin. subst o.
      apply list_elem_of_fmap in Ho as (x & Hx & Hin).
      rewrite Forall_forall in Hfresh. specialize (Hfresh x Hin). lia.
  - split; rewrite ?Hnext.
    + apply Forall_forall. intros x Hx.
      rewrite Forall_forall in Hfresh. apply Hfresh, Hsub, Hx.
    + eapply sublist_NoDup; eassumption.
Qed.

Lemma registry_ok_run cs : ∀ a, registry_ok a → registry_ok (run cs a).
Proof.
  induction cs as [|c cs IH]; intros a Hok; [exact Hok|].
  cbn. apply IH, registry_ok_step, Hok.
Qed.

Lemma next_oid_run cs : ∀ a, next_oid a ≤ next_oid (run cs a).
Proof.
  induction cs as [|c cs IH]; intros a; [reflexivity|].
  cbn. etransitivity; [|apply IH].
  destruct (control_step_strips a c)
    as [(s & _ & _ & _ & _ & Hnext)|(_ & _ & _ & Hnext)]; rewrite Hnext; lia.
Qed.

Lemma same_oid_same_strip l s s' :
  NoDup (map oid l) → s ∈ l → s' ∈ l → oid s' = oid s → s' = s.
Proof.
  induction l as [|x l IH]; cbn; intros Hnd Hs Hs' Hoid.
  - apply elem_of_nil in Hs. contradiction.
  - apply NoDup_cons in Hnd as [Hx Hnd].
    apply elem_of_cons in Hs as [->|Hs];
      apply elem_of_cons in Hs' as [->|Hs'].
    + reflexivity.
    + exfalso. apply Hx. rewrite <- Hoid.
      apply list_elem_of_fmap. exists s'. split; [reflexivity|exact Hs'].
    + exfalso. apply Hx. rewrite Hoid.
      apply list_elem_of_fmap. exists s. split; [reflexivity|exact Hs].
    + apply IH; assumption.
Qed.

(** A strip keeps all its fields, its id among them, for as long as
    it is registered. *)
Lemma strip_stable cs : ∀ a s s',
  registry_ok a → s ∈ input_strips a → s' ∈ input_strips (run cs a) →
  oid s' = oid s → s' = s.
Proof.
  induction cs as [|c cs IH] using rev_ind; intros a s s' Hok Hs Hs' Hoid.
  - cbn in Hs'. destruct Hok as [_ Hnd].
    eapply same_oid_same_strip; eassumption.
  - rewrite run_snoc in Hs'.
    destruct (control_step_strips (run cs a) c)
      as [(x & _ & Hstrips & Hx & _ & _)|(_ & Hsub & _ & _)].
    + rewrite Hstrips in Hs'. apply elem_of_app in Hs' as [Hs'|Hs'].
      * eapply IH; eassumption.
      * apply list_elem_of_singleton in Hs'. subst s'. exfalso.
        destruct Hok as [Hfresh _]. rewrite Forall_forall in Hfresh.
        specialize (Hfresh s Hs). pose proof (next_oid_run cs a). lia.
    + eapply IH; try eassumption. apply Hsub, Hs'.
Qed.

Lemma run_adds n : ∀ a,
  map index (input_strips (run (replicate n AddInput) a))
  = map index (input_strips a) ++ seq (length (input_strips a)) n.
Proof.
  induction n as [|n IH]; intros a; cbn [replicate run fold_left seq].
  - rewrite app_nil_r. reflexivity.
  - fold (run (replicate n AddInput) (control_step a AddInput)).
    rewrite IH. cbn [control_step add_input_strip input_strips].
    rewrite map_app, length_app. cbn [map length index new_strip].
    rewrite <- app_assoc, Nat.add_1_r. reflexivity.
Qed.

Lemma all_adds cs :
  Forall (fun c => c = AddInput) cs → cs = replicate (length cs) AddInput.
Proof.
  induction 1 as [|c cs -> _ IH]; [reflexivity|]. cbn. f_equal. exact IH.
Qed.
End Registry.

(** C6 (amended).  The id of a strip is assigned at creation, as the
    number of strips registered at that moment, and never changes while
    the strip is registered.  As long as no strip has been removed, the
    ids are 0, 1, 2, ... in creation order, so no two strips share
    one. *)
Theorem C6_ids_assigned_and_stable (devs : list device_info)
    (cs : list control) :
  (∃ s,
     input_strips (add_input_strip (run cs (new_app devs)))
     = input_strips (run cs (new_app devs)) ++ [s] ∧
     index s = length (input_strips (run cs (new_app devs)))) ∧
  (∀ cs' s s',
     s ∈ input_strips (run cs (new_app devs)) →
     s' ∈ input_strips (run cs' (run cs (new_app devs))) →
     oid s' = oid s → index s' = index s) ∧
  (Forall (fun c => c = AddInput) cs →
   map index (input_strips (run cs (new_app devs))) = seq 0 (length cs) ∧
   NoDup (map index (input_strips (run cs (new_app devs))))).
Proof.
  split; [|split].
  - eexists. split; reflexivity.
  - intros cs' s s' Hs Hs' Hoid. f_equal.
    eapply (strip_stable cs'); try eassumption.
    apply registry_ok_run, registry_ok_new.
  - intros Hadds. rewrite (all_adds cs Hadds), run_adds.
    rewrite length_replicate. cbn. split; [reflexivity|apply NoDup_seq].
Qed.

Lemma C6_ids_assigned_and_stable_witness :
  map index (input_strips (run [AddInput; AddInput; AddInput] (new_app ex_devices)))
  = [0; 1; 2].
Proof.
  destruct (C6_ids_assigned_and_stable ex_devices [AddInput; AddInput; AddInput])
    as (_ & _ & Hadds).
  destruct Hadds as [Hids _]; [repeat constructor|].
  exact Hids.
Defined.

(** C6 as stated fails: after add, add, remove the first, add, the two
    registered strips are different objects, the second created after
    the first, and both carry the id 1. *)
Lemma C6_counterexample :
  ∃ s1 s2,
    input_strips (run ex_controls (new_app ex_devices)) = [s1; s2] ∧
    oid s1 < oid s2 ∧
    index s1 = 1 ∧ index s2 = 1.
Proof.
  eexists _, _. split; [reflexivity|]. cbn. repeat split; lia.
Qed.

(** ** Strips in a running application *)

Section StripInvariant.
Implicit Types (s : AudioInputStrip) (w : World).

(** [start_stream] in full, for a device list that starts with the
    placeholder: what it returns in each case. *)
Lemma start_stream_cases fuel drv w s :
  items (device_combo s) !! 0 = Some None →
  start_stream (S (S fuel)) drv w s
  = Some
      match currentData (device_combo s) with
      | None => stop_stream w s
      | Some d =>
          let st b := {| sid := next_sid (stop_stream w s).1; sdevice := d;
                         started := b |} in
          let reset :=
            set_device_combo
              {| items := items (device_combo s); currentIndex := 0 |}
              (stop_stream w s).2 in
          match drv d with
          | Opens =>
              (world_open (stop_stream w s).1,
               set_is_active true (set_stream (Some (st true)) (stop_stream w s).2))
          | ConstructorRaises =>
              (world_dialog AudioError (stop_stream w s).1, reset)
          | StartRaises =>
              (world_close (st false)
                 (world_dialog AudioError (world_open (stop_stream w s).1)),
               reset)
          end
      end.
Proof.
  intros H0.
  pose proof (currentData_reset _ H0) as Hreset.
  cbn [items currentIndex] in Hreset.
  cbn [start_stream]. rewrite stop_stream_eq.
  cbn [device_combo set_audio_queue set_stream set_is_active fst snd].
  destruct (currentData (device_combo s)) as [d|] eqn:Hd; [|reflexivity].
  pose proof (placeholder_not_current _ _ H0 Hd) as Hidx.
  apply Nat.eqb_neq in Hidx.
  destruct (drv d); cbn [device_combo set_stream]; rewrite ?Hidx;
    try rewrite stop_stream_eq;
    cbn [device_combo set_audio_queue set_stream set_is_active
         set_device_combo stream];
    rewrite ?Hreset; reflexivity.
Qed.

Lemma strip_ok_new o i devs : strip_ok (new_strip o i devs).
Proof.
  unfold strip_ok, SLIDER_MIN, SLIDER_MAX. cbn.
  repeat split; try reflexivity; try lia. intros st [=].
Qed.

Lemma strip_ok_slider v s : strip_ok s → strip_ok (slider_setValue v s).
Proof.
  intros Hok. unfold slider_setValue. fold (clamp_percent v).
  destruct (Z.eqb (clamp_percent v) (slider s)); [exact Hok|].
  destruct Hok as (Hq & _ & _ & Hrest).
  split; [exact Hq|]. split; [apply clamp_percent_range|].
  split; [reflexivity|exact Hrest].
Qed.

Lemma strip_ok_audio_callback indata s :
  strip_ok s →
  ∃ s', audio_callback indata s = Some s' ∧ strip_ok s' ∧ oid s' = oid s
        ∧ stream s' = stream s.
Proof.
  intros (Hq & Hrest). rewrite audio_callback_pushed by exact Hq.
  eexists. split; [reflexivity|]. split; [|split; reflexivity].
  split; [apply pushed_length, Hq|exact Hrest].
Qed.

Lemma after_chunk_cases s :
  after_chunk s = s ∨
  ∃ data rest, audio_queue s = data :: rest ∧ after_chunk s = set_audio_queue rest s.
Proof.
  unfold after_chunk, get_audio_chunk.
  destruct (negb (is_active s) || Queue.empty (audio_queue s)); [left; reflexivity|].
  destruct (audio_queue s) as [|data rest] eqn:Hq; [left; reflexivity|].
  right. exists data, rest. split; reflexivity.
Qed.

Lemma strip_ok_after_chunk s : strip_ok s → strip_ok (after_chunk s).
Proof.
  intros Hok. destruct (after_chunk_cases s) as [->|(data & rest & Hq & ->)];
    [exact Hok|].
  destruct Hok as (Hlen & Hrest). split; [|exact Hrest].
  rewrite Hq in Hlen. cbn in *. lia.
Qed.

Lemma filter_all {A} (P : A → Prop) `{∀ x, Decision (P x)} (l : list A) :
  (∀ x, x ∈ l → P x) → filter P l = l.
Proof.
  induction l as [|x l IH]; intros Hall; [reflexivity|].
  rewrite filter_cons_True by (apply Hall; left).
  f_equal. apply IH. intros y Hy. apply Hall. right. exact Hy.
Qed.

Lemma Forall_filter_keep {A} (P Q : A → Prop) `{∀ x, Decision (Q x)}
    (l : list A) :
  Forall P l → Forall P (filter Q l).
Proof.
  rewrite !Forall_forall. intros Hall x Hx.
  apply list_elem_of_filter in Hx. apply Hall, Hx.
Qed.

Lemma stop_stream_open w s :
  open_streams (stop_stream w s).1
  = filter (fun h => h ∉ opt_sid (stream s)) (open_streams w) ∧
  next_sid (stop_stream w s).1 = next_sid w ∧
  devices (stop_stream w s).1 = devices w ∧
  dialogs (stop_stream w s).1 = dialogs w.
Proof.
  rewrite stop_stream_eq. cbn [fst].
  destruct (stream s) as [st|]; cbn.
  - repeat split. apply list_filter_iff. intros h.
    rewrite list_elem_of_singleton. tauto.
  - repeat split. symmetry. apply filter_all. intros h _.
    apply not_elem_of_nil.
Qed.

(** What [start_stream] does to a strip of a running application and
    to the driver: the strip stays well formed, its previous stream is
    closed, and the only stream that can be open afterwards on its
    behalf is a new one, held by the strip. *)
Lemma start_stream_effect fuel drv w s :
  items (device_combo s) !! 0 = Some None →
  (SLIDER_MIN ≤ slider s ≤ SLIDER_MAX)%Z →
  volume s = gain_of_percent (slider s) →
  Forall (fun h => h < next_sid w) (open_streams w) →
  ∃ w' s',
    start_stream (S (S fuel)) drv w s = Some (w', s') ∧
    strip_ok s' ∧
    oid s' = oid s ∧ index s' = index s ∧
    devices w' = devices w ∧
    open_streams w'
    = filter (fun h => h ∉ opt_sid (stream s)) (open_streams w)
      ++ opt_sid (stream s') ∧
    (∀ st, stream s' = Some st → sid st = next_sid w) ∧
    Forall (fun h => h < next_sid w') (open_streams w').
Proof.
  intros H0 Hsl Hvol Hfresh.
  rewrite (start_stream_cases fuel drv w s H0).
  destruct (stop_stream_open w s) as (Hopen & Hnext & Hdev & _).
  assert (Hfresh1 : Forall (fun h => h < next_sid w)
                      (open_streams (stop_stream w s).1)).
  { rewrite Hopen. apply Forall_filter_keep, Hfresh. }
  assert (Hnew : next_sid w ∉ open_streams (stop_stream w s).1).
  { intros Hin. rewrite Forall_forall in Hfresh1.
    specialize (Hfresh1 _ Hin). lia. }
  pose proof (currentData_reset _ H0) as Hreset.
  destruct (currentData (device_combo s)) as [d|] eqn:Hd.
  - destruct (drv d); cbn zeta; eexists _, _; (split; [reflexivity|]);
      rewrite stop_stream_eq in *; cbn [fst snd] in *.
    + (* the constructor raises *)
      split; [|split; [reflexivity|split; [reflexivity|]]].
      { unfold strip_ok. cbn. rewrite Hreset.
        repeat split; try assumption; try lia. intros st [=]. }
      cbn [world_dialog devices open_streams next_sid stream
           set_device_combo set_audio_queue set_stream opt_sid].
      split; [exact Hdev|]. split; [rewrite app_nil_r; exact Hopen|].
      split; [intros st [=]|]. rewrite Hnext. exact Hfresh1.
    + (* start() raises *)
      split; [|split; [reflexivity|split; [reflexivity|]]].
      { unfold strip_ok. cbn. rewrite Hreset.
        repeat split; try assumption; try lia. intros st [=]. }
      cbn [world_dialog world_close world_open devices open_streams next_sid
           stream set_device_combo set_audio_queue set_stream opt_sid sid].
      split; [exact Hdev|]. rewrite Hnext.
      rewrite (filter_fresh _ _ Hnew).
      split; [rewrite app_nil_r; exact Hopen|].
      split; [intros st [=]|].
      eapply Forall_impl; [exact Hfresh1|]. cbn. intros; lia.
    + (* the stream opens *)
      split; [|split; [reflexivity|split; [reflexivity|]]].
      { unfold strip_ok. cbn. rewrite Hd.
        repeat split; try assumption; try lia. intros st [= <-]. reflexivity. }
      cbn [world_open devices open_streams next_sid stream
           set_is_active set_audio_queue set_stream opt_sid sid].
      split; [exact Hdev|]. rewrite Hnext, Hopen.
      split; [reflexivity|].
      split; [intros st [= <-]; reflexivity|].
      apply Forall_app. split.
      * apply Forall_filter_keep. eapply Forall_impl; [exact Hfresh|].
        cbn. intros; lia.
      * repeat constructor.
  - rewrite stop_stream_eq in *; cbn [fst snd] in *.
    eexists _, _. split; [reflexivity|].
    split; [|split; [reflexivity|split; [reflexivity|]]].
    { unfold strip_ok. cbn. rewrite Hd.
      repeat split; try assumption; try lia. intros st [=]. }
    cbn [stream set_audio_queue set_stream opt_sid].
    split; [exact Hdev|]. split; [rewrite app_nil_r; exact Hopen|].
    split; [intros st [=]|]. rewrite Hnext. exact Hfresh1.
Qed.
End StripInvariant.

(** ** The playback stream *)

Section OutputInvariant.
Implicit Types (a : AudioRouterApp).

(** [restart_output_stream] in full, for a device list that starts
    with the placeholder. *)
Lemma restart_output_stream_cases fuel drv a :
  items (out_combo a) !! 0 = Some None →
  restart_output_stream (S (S fuel)) drv a
  = Some
      match currentData (out_combo a) with
      | None => close_output a
      | Some d =>
          let w1 := world (close_output a) in
          let st b := {| sid := next_sid w1; sdevice := d; started := b |} in
          let reset := {| items := items (out_combo a); currentIndex := 0 |} in
          match drv d with
          | Opens =>
              {| input_strips := input_strips a;
                 output_stream := Some (st true);
                 out_combo := out_combo a;
                 world := world_open w1; next_oid := next_oid a |}
          | ConstructorRaises =>
              {| input_strips := input_strips a;
                 output_stream := None;
                 out_combo := reset;
                 world := world_dialog OutputError w1; next_oid := next_oid a |}
          | StartRaises =>
              {| input_strips := input_strips a;
                 output_stream := None;
                 out_combo := reset;
                 world := world_close (st false)
                            (world_dialog OutputError (world_open w1));
                 next_oid := next_oid a |}
          end
      end.
Proof.
  intros H0.
  assert (Hnested : ∀ a0,
            out_combo a0 = {| items := items (out_combo a); currentIndex := 0 |} →
            restart_output_stream (S fuel) drv a0 = Some (close_output a0)).
  { intros a0 Hc0. cbn [restart_output_stream]. fold (close_output a0).
    assert (Hc : out_combo (close_output a0) = out_combo a0)
      by (unfold close_output; destruct (output_stream a0); reflexivity).
    rewrite Hc, Hc0. unfold currentData. cbn [items currentIndex].
    rewrite H0. reflexivity. }
  remember (S fuel) as fuel1 eqn:Hfuel1.
  cbn [restart_output_stream]. fold (close_output a).
  assert (Hc : out_combo (close_output a) = out_combo a)
    by (unfold close_output; destruct (output_stream a); reflexivity).
  assert (Hs : input_strips (close_output a) = input_strips a)
    by (unfold close_output; destruct (output_stream a); reflexivity).
  assert (Hn : next_oid (close_output a) = next_oid a)
    by (unfold close_output; destruct (output_stream a); reflexivity).
  assert (Ho : output_stream (close_output a) = None).
  { unfold close_output. destruct (output_stream a) eqn:E; [reflexivity|exact E]. }
  rewrite Hc.
  destruct (currentData (out_combo a)) as [d|] eqn:Hd; [|reflexivity].
  pose proof (placeholder_not_current _ _ H0 Hd) as Hidx.
  apply Nat.eqb_neq in Hidx.
  destruct (drv d);
    cbn [out_combo set_output_stream set_world]; rewrite ?Hc, ?Hidx.
  - rewrite Hnested by (cbn; rewrite ?Hc; reflexivity).
    unfold close_output at 1.
    cbn [output_stream set_out_combo set_world set_output_stream].
    rewrite Ho.
    unfold set_out_combo, set_world, set_output_stream.
    cbn [input_strips output_stream out_combo world next_oid].
    rewrite Ho, Hs, Hn. reflexivity.
  - rewrite Hnested by (cbn; rewrite ?Hc; reflexivity).
    unfold close_output at 1.
    cbn [output_stream set_out_combo set_world set_output_stream].
    unfold set_out_combo, set_world, set_output_stream.
    cbn [input_strips output_stream out_combo world next_oid].
    rewrite Hs, Hn. reflexivity.
  - unfold set_out_combo, set_world, set_output_stream.
    cbn [input_strips output_stream out_combo world next_oid].
    rewrite Hs, Hn, Hc. reflexivity.
Qed.

Lemma close_output_open a :
  open_streams (world (close_output a))
  = filter (fun h => h ∉ opt_sid (output_stream a)) (open_streams (world a)) ∧
  next_sid (world (close_output a)) = next_sid (world a) ∧
  devices (world (close_output a)) = devices (world a).
Proof.
  unfold close_output. destruct (output_stream a) as [st|]; cbn.
  - repeat split. apply list_filter_iff. intros h.
    rewrite list_elem_of_singleton. tauto.
  - repeat split. symmetry. apply filter_all. intros h _.
    apply not_elem_of_nil.
Qed.

Lemma restart_output_stream_effect fuel drv a :
  items (out_combo a) !! 0 = Some None →
  Forall (fun h => h < next_sid (world a)) (open_streams (world a)) →
  ∃ a',
    restart_output_stream (S (S fuel)) drv a = Some a' ∧
    output_ok a' ∧
    input_strips a' = input_strips a ∧ next_oid a' = next_oid a ∧
    open_streams (world a')
    = filter (fun h => h ∉ opt_sid (output_stream a)) (open_streams (world a))
      ++ opt_sid (output_stream a') ∧
    (∀ st, output_stream a' = Some st → sid st = next_sid (world a)) ∧
    Forall (fun h => h < next_sid (world a')) (open_streams (world a')).
Proof.
  intros H0 Hfresh.
  rewrite (restart_output_stream_cases fuel drv a H0).
  destruct (close_output_open a) as (Hopen & Hnext & _).
  assert (Hfresh1 : Forall (fun h => h < next_sid (world a))
                      (open_streams (world (close_output a)))).
  { rewrite Hopen. apply Forall_filter_keep, Hfresh. }
  assert (Hnew : next_sid (world a) ∉ open_streams (world (close_output a))).
  { intros Hin. rewrite Forall_forall in Hfresh1.
    specialize (Hfresh1 _ Hin). lia. }
  pose proof (currentData_reset _ H0) as Hreset.
  destruct (currentData (out_combo a)) as [d|] eqn:Hd.
  - destruct (drv d); cbn zeta; eexists; (split; [reflexivity|]);
      cbn [input_strips next_oid output_stream world opt_sid].
    + split; [|split; [reflexivity|split; [reflexivity|]]].
      { unfold output_ok. cbn. rewrite Hreset.
        repeat split; try assumption. intros st [=]. }
      cbn [world_dialog open_streams next_sid].
      split; [rewrite app_nil_r; exact Hopen|].
      split; [intros st [=]|]. rewrite Hnext. exact Hfresh1.
    + split; [|split; [reflexivity|split; [reflexivity|]]].
      { unfold output_ok. cbn. rewrite Hreset.
        repeat split; try assumption. intros st [=]. }
      cbn [world_dialog world_close world_open open_streams next_sid sid].
      rewrite Hnext. rewrite (filter_fresh _ _ Hnew).
      split; [rewrite app_nil_r; exact Hopen|].
      split; [intros st [=]|].
      eapply Forall_impl; [exact Hfresh1|]. cbn. intros; lia.
    + split; [|split; [reflexivity|split; [reflexivity|]]].
      { unfold output_ok. cbn. rewrite Hd.
        repeat split; try assumption. intros st [= <-]. reflexivity. }
      cbn [world_open open_streams next_sid sid].
      rewrite Hnext, Hopen. split; [reflexivity|].
      split; [intros st [= <-]; reflexivity|].
      apply Forall_app. split.
      * apply Forall_filter_keep. eapply Forall_impl; [exact Hfresh|].
        cbn. intros; lia.
      * repeat constructor.
  - exists (close_output a). split; [reflexivity|].
    assert (Ho : output_stream (close_output a) = None).
    { unfold close_output. destruct (output_stream a) eqn:E; [reflexivity|exact E]. }
    assert (Hc : out_combo (close_output a) = out_combo a)
      by (unfold close_output; destruct (output_stream a); reflexivity).
    split; [|split; [|split]].
    + unfold output_ok. rewrite Hc, Ho, Hd.
      repeat split; try assumption. intros st [=].
    + unfold close_output; destruct (output_stream a); reflexivity.
    + unfold close_output; destruct (output_stream a); reflexivity.
    + rewrite Ho. cbn [opt_sid]. rewrite app_nil_r.
      split; [exact Hopen|]. split; [intros st [=]|].
      rewrite Hnext. exact Hfresh1.
Qed.
End OutputInvariant.

(** ** The running application *)

Section AppInvariant.
Implicit Types (a : AudioRouterApp) (l : list AudioInputStrip).

(** Replacing the streams [old] held at one place by [new], which is
    empty or the fresh handle: the driver's list follows. *)
Lemma held_replace (A old B new open : list nat) (next : nat) :
  open ≡ₚ A ++ old ++ B →
  NoDup (A ++ old ++ B) →
  Forall (fun h => h < next) open →
  NoDup new → (∀ x, x ∈ new → x = next) →
  filter (fun h => h ∉ old) open ++ new ≡ₚ A ++ new ++ B ∧
  NoDup (A ++ new ++ B).
Proof.
  intros Hperm Hnd Hfresh Hnew Hnext.
  apply NoDup_app in Hnd as (HndA & HA & Hnd).
  apply NoDup_app in Hnd as (Hndold & Hold & HndB).
  rewrite Forall_forall in Hfresh.
  assert (Hlt : ∀ x, x ∈ A ∨ x ∈ B → x < next).
  { intros x Hx. apply Hfresh. rewrite Hperm, !elem_of_app. tauto. }
  assert (Hnd' : NoDup (A ++ new ++ B)).
  { apply NoDup_app. split; [exact HndA|]. split.
    - intros x Hx Hin. apply elem_of_app in Hin as [Hin|Hin].
      + apply Hnext in Hin. specialize (Hlt x (or_introl Hx)). lia.
      + apply (HA x Hx). apply elem_of_app. right. exact Hin.
    - apply NoDup_app. split; [exact Hnew|]. split; [|exact HndB].
      intros x Hx Hin. apply Hnext in Hx.
      specialize (Hlt x (or_intror Hin)). lia. }
  split; [|exact Hnd'].
  apply NoDup_Permutation; [|exact Hnd'|].
  - apply NoDup_app. split; [|split; [|exact Hnew]].
    + apply NoDup_filter. rewrite Hperm.
      apply NoDup_app. split; [exact HndA|]. split; [exact HA|].
      apply NoDup_app. split; [exact Hndold|]. split; [exact Hold|exact HndB].
    + intros x Hx Hin. apply list_elem_of_filter in Hx as [_ Hx].
      apply Hnext in Hin. specialize (Hfresh x Hx). lia.
  - intros x. rewrite !elem_of_app, list_elem_of_filter, Hperm, !elem_of_app.
    split.
    + intros [[Hno [Hx|[Hx|Hx]]]|Hx]; tauto.
    + intros [Hx|[Hx|Hx]]; [left|right; exact Hx|left].
      * split; [|left; exact Hx]. intros Hin. apply (HA x Hx).
        apply elem_of_app. left. exact Hin.
      * split; [|right; right; exact Hx]. intros Hin. apply (Hold x Hin Hx).
Qed.

Lemma opt_sid_new (st : option Stream) (next : nat) :
  (∀ st', st = Some st' → sid st' = next) →
  NoDup (opt_sid st) ∧ (∀ x, x ∈ opt_sid st → x = next).
Proof.
  intros H. destruct st as [st'|]; cbn.
  - split; [apply NoDup_singleton|]. intros x Hx.
    apply list_elem_of_singleton in Hx. subst x. apply H. reflexivity.
  - split; [constructor|]. intros x Hx. apply elem_of_nil in Hx. contradiction.
Qed.

Lemma strip_sids_middle l k s :
  l !! k = Some s →
  strip_sids l
  = strip_sids (take k l) ++ opt_sid (stream s) ++ strip_sids (drop (S k) l).
Proof.
  intros Hk. rewrite <- (take_drop_middle l k s Hk) at 1.
  unfold strip_sids. rewrite bind_app, bind_cons. reflexivity.
Qed.

Lemma strip_sids_insert l k s s' :
  l !! k = Some s →
  strip_sids (<[k := s']> l)
  = strip_sids (take k l) ++ opt_sid (stream s') ++ strip_sids (drop (S k) l).
Proof.
  intros Hk. rewrite insert_take_drop by (eapply lookup_lt_Some, Hk).
  unfold strip_sids. rewrite bind_app, bind_cons. reflexivity.
Qed.

(** The strip at position [k] trades its stream against a new one (or
    none), the driver's list changing accordingly. *)
Lemma streams_ok_insert a k s s' w' :
  streams_ok a → input_strips a !! k = Some s →
  open_streams w'
  = filter (fun h => h ∉ opt_sid (stream s)) (open_streams (world a))
    ++ opt_sid (stream s') →
  (∀ st, stream s' = Some st → sid st = next_sid (world a)) →
  Forall (fun h => h < next_sid w') (open_streams w') →
  streams_ok (set_input_strips (<[k := s']> (input_strips a)) (set_world w' a)).
Proof.
  intros (Hperm & Hnd & Hfresh) Hk Hopen Hsid Hfresh'.
  unfold streams_ok, held_sids in *.
  cbn [input_strips output_stream world set_input_strips set_world].
  rewrite (strip_sids_middle _ _ _ Hk), <- !app_assoc in Hperm, Hnd.
  rewrite (strip_sids_insert _ _ _ s' Hk), <- !app_assoc.
  destruct (opt_sid_new _ _ Hsid) as [Hnew Hnext].
  destruct (held_replace _ _ _ _ _ _ Hperm Hnd Hfresh Hnew Hnext) as [Hp' Hnd'].
  rewrite Hopen. split; [exact Hp'|]. split; [exact Hnd'|].
  rewrite <- Hopen. exact Hfresh'.
Qed.

(** The same for the playback stream. *)
Lemma streams_ok_output a a' :
  streams_ok a → input_strips a' = input_strips a →
  open_streams (world a')
  = filter (fun h => h ∉ opt_sid (output_stream a)) (open_streams (world a))
    ++ opt_sid (output_stream a') →
  (∀ st, output_stream a' = Some st → sid st = next_sid (world a)) →
  Forall (fun h => h < next_sid (world a')) (open_streams (world a')) →
  streams_ok a'.
Proof.
  intros (Hperm & Hnd & Hfresh) Hstrips Hopen Hsid Hfresh'.
  unfold streams_ok, held_sids in *. rewrite Hstrips.
  destruct (opt_sid_new _ _ Hsid) as [Hnew Hnext].
  rewrite <- (app_nil_r (opt_sid (output_stream a))) in Hperm, Hnd.
  destruct (held_replace _ _ _ _ _ _ Hperm Hnd Hfresh Hnew Hnext) as [Hp' Hnd'].
  rewrite app_nil_r in Hp', Hnd'.
  rewrite Hopen. split; [exact Hp'|]. split; [exact Hnd'|].
  rewrite <- Hopen. exact Hfresh'.
Qed.

(** Strips changed in place without a change of stream. *)
Lemma streams_ok_same_streams a l' :
  streams_ok a → stream <$> l' = stream <$> input_strips a →
  streams_ok (set_input_strips l' a).
Proof.
  intros Hok Hstreams. unfold streams_ok, held_sids in *.
  cbn [input_strips output_stream world set_input_strips].
  assert (Hs : strip_sids l' = strip_sids (input_strips a)).
  { unfold strip_sids.
    change (fun s => opt_sid (stream s)) with (opt_sid ∘ stream).
    rewrite <- !list_fmap_bind, Hstreams. reflexivity. }
  rewrite Hs. exact Hok.
Qed.
End AppInvariant.

Section Events.
Implicit Types (a : AudioRouterApp) (l : list AudioInputStrip).

Lemma fmap_insert_same {B} (g : AudioInputStrip → B) l k s s' :
  l !! k = Some s → g s' = g s → g <$> <[k := s']> l = g <$> l.
Proof.
  intros Hk Hg. rewrite list_fmap_insert. apply list_insert_id.
  rewrite list_lookup_fmap, Hk, Hg. reflexivity.
Qed.

Lemma fmap_alter_same {B} (g : AudioInputStrip → B) f l k :
  (∀ s, g (f s) = g s) → g <$> alter f k l = g <$> l.
Proof.
  intros Hg. apply list_eq. intros j. rewrite !list_lookup_fmap.
  destruct (decide (k = j)) as [->|Hne].
  - rewrite list_lookup_alter_eq. destruct (l !! j); cbn; [|reflexivity].
    rewrite Hg. reflexivity.
  - rewrite list_lookup_alter_ne by exact Hne. reflexivity.
Qed.

Lemma fmap_fmap_same {B} (g : AudioInputStrip → B) f l :
  (∀ s, g (f s) = g s) → g <$> (f <$> l) = g <$> l.
Proof.
  intros Hg. rewrite <- list_fmap_compose. apply list_fmap_ext.
  intros i s _. apply Hg.
Qed.

Lemma registry_ok_same_oids a a' :
  registry_ok a → oid <$> input_strips a' = oid <$> input_strips a →
  next_oid a' = next_oid a → registry_ok a'.
Proof.
  unfold registry_ok. intros [Hfresh Hnd] Hoids Hnext.
  change (map oid) with (fmap (M:=list) oid) in *.
  rewrite Hoids, Hnext. split; [|exact Hnd].
  assert (H : Forall (fun o => o < next_oid a) (oid <$> input_strips a'))
    by (rewrite Hoids; apply Forall_fmap; exact Hfresh).
  apply Forall_fmap in H. exact H.
Qed.

Lemma after_chunk_same s :
  oid (after_chunk s) = oid s ∧ stream (after_chunk s) = stream s ∧
  index (after_chunk s) = index s.
Proof.
  destruct (after_chunk_cases s) as [->|(data & rest & _ & ->)];
    repeat split; reflexivity.
Qed.

Lemma slider_setValue_same v s :
  oid (slider_setValue v s) = oid s ∧
  stream (slider_setValue v s) = stream s ∧
  index (slider_setValue v s) = index s.
Proof.
  unfold slider_setValue.
  destruct (Z.eqb _ _); repeat split; reflexivity.
Qed.

(** Removing a registered strip takes it out of its position. *)
Lemma list_remove_delete l k s :
  NoDup (oid <$> l) → l !! k = Some s → list_remove (oid s) l = delete k l.
Proof.
  revert k. induction l as [|x l IH]; intros k Hnd Hk; [discriminate|].
  rewrite fmap_cons in Hnd. apply NoDup_cons in Hnd as [Hx Hnd].
  destruct k as [|k]; cbn in Hk |- *.
  - injection Hk as ->. rewrite Nat.eqb_refl. reflexivity.
  - destruct (oid x =? oid s) eqn:Heq.
    + exfalso. apply Nat.eqb_eq in Heq. apply Hx. rewrite Heq.
      apply list_elem_of_fmap. exists s. split; [reflexivity|].
      eapply list_elem_of_lookup_2, Hk.
    + f_equal. apply IH; assumption.
Qed.

Lemma close_strip_delete a k s :
  registry_ok a → input_strips a !! k = Some s →
  close_strip s a
  = set_input_strips (delete k (input_strips a))
      (set_world (stop_stream (world a) s).1 a).
Proof.
  intros [_ Hnd] Hk. unfold close_strip. rewrite stop_stream_eq.
  unfold remove_input_strip.
  cbn [oid set_audio_queue set_stream set_is_active input_strips set_world fst].
  assert (Hex : existsb (fun x => oid x =? oid s) (input_strips a) = true).
  { apply existsb_exists. exists s. split; [|apply Nat.eqb_refl].
    apply list_elem_of_In. eapply list_elem_of_lookup_2, Hk. }
  rewrite Hex. rewrite (list_remove_delete _ k s Hnd Hk). reflexivity.
Qed.

Lemma set_same a :
  set_input_strips (input_strips a) (set_world (world a) a) = a.
Proof. destruct a; reflexivity. Qed.

(** Every event leaves a well-formed application well formed, and no
    event gets stuck. *)
Lemma event_step_ok a e :
  app_ok a → ∃ a', event_step a e = Some a' ∧ app_ok a'.
Proof.
  intros Hok. pose proof Hok as (Hreg & Hstrips & Hstreams & Hout).
  destruct e as [|k|k i answer|k v|i answer|k indata|frames];
    cbn [event_step].
  - (* add *)
    eexists. split; [reflexivity|]. split; [|split; [|split]].
    + apply (registry_ok_step a AddInput Hreg).
    + cbn. apply Forall_app. split; [exact Hstrips|].
      constructor; [apply strip_ok_new|constructor].
    + unfold streams_ok, held_sids in *. cbn.
      unfold strip_sids in *. rewrite bind_app. cbn. rewrite app_nil_r.
      exact Hstreams.
    + exact Hout.
  - (* remove *)
    eexists. split; [reflexivity|].
    pose proof (registry_ok_step a (RemoveInput k) Hreg) as Hreg'.
    cbn [control_step] in *.
    destruct (input_strips a !! k) as [s|] eqn:Hk;
      [|exact Hok].
    split; [exact Hreg'|].
    rewrite (close_strip_delete a k s Hreg Hk).
    cbn [control_step input_strips set_input_strips set_world].
    split; [apply Forall_delete, Hstrips|]. split; [|exact Hout].
    destruct Hstreams as (Hperm & Hnd & Hfresh).
    destruct (stop_stream_open (world a) s) as (Hopen & Hnext & _).
    unfold streams_ok, held_sids in *.
    cbn [input_strips output_stream world set_input_strips set_world].
    rewrite (strip_sids_middle _ _ _ Hk), <- !app_assoc in Hperm, Hnd.
    assert (Hdel : strip_sids (delete k (input_strips a))
                   = strip_sids (take k (input_strips a)) ++ []
                     ++ strip_sids (drop (S k) (input_strips a))).
    { rewrite delete_take_drop. unfold strip_sids. rewrite bind_app.
      reflexivity. }
    rewrite Hdel, <- !app_assoc.
    destruct (held_replace _ _ _ [] _ _ Hperm Hnd Hfresh) as [Hp' Hnd'];
      [constructor|intros x Hx; apply elem_of_nil in Hx; contradiction|].
    rewrite app_nil_r in Hp'.
    rewrite Hopen, Hnext. split; [exact Hp'|]. split; [exact Hnd'|].
    apply Forall_filter_keep, Hfresh.
  - (* a device is picked on a strip *)
    destruct (input_strips a !! k) as [s|] eqn:Hk;
      [|eexists; split; [reflexivity|exact Hok]].
    destruct (i <? length (items (device_combo s)));
      [|eexists; split; [reflexivity|exact Hok]].
    unfold strip_select_device, select_device. rewrite Hk.
    destruct (currentIndex (device_combo s) =? i).
    { eexists. split; [reflexivity|].
      rewrite list_insert_id by exact Hk. rewrite set_same.
      exact Hok. }
    pose proof (Forall_lookup_1 _ _ _ _ Hstrips Hk)
      as (_ & Hsl & Hvol & H0 & _).
    destruct Hstreams as (Hperm & Hnd & Hfresh).
    destruct (start_stream_effect 0 (fun _ => answer) (world a)
                (set_device_combo
                   {| items := items (device_combo s); currentIndex := i |} s)
                H0 Hsl Hvol Hfresh)
      as (w' & s' & Hrun & Hok' & Hoid & _ & _ & Hopen & Hsid & Hfresh').
    rewrite Hrun. eexists. split; [reflexivity|].
    split; [|split; [|split]].
    + eapply registry_ok_same_oids; [exact Hreg| |reflexivity].
      cbn. apply (fmap_insert_same oid _ _ s); [exact Hk|exact Hoid].
    + cbn. apply Forall_insert; assumption.
    + apply (streams_ok_insert a k s s' w'); try assumption.
      repeat split; assumption.
    + exact Hout.
  - (* a slider is moved *)
    eexists. split; [reflexivity|]. unfold strip_slider_setValue.
    split; [|split; [|split]].
    + eapply registry_ok_same_oids; [exact Hreg| |reflexivity].
      cbn. apply fmap_alter_same. intros s. apply slider_setValue_same.
    + cbn. apply Forall_alter; [exact Hstrips|].
      intros s _ Hs. apply strip_ok_slider, Hs.
    + apply streams_ok_same_streams; [exact Hstreams|].
      apply fmap_alter_same. intros s. apply slider_setValue_same.
    + exact Hout.
  - (* a playback device is picked *)
    destruct (i <? length (items (out_combo a)));
      [|eexists; split; [reflexivity|exact Hok]].
    unfold select_output.
    destruct (currentIndex (out_combo a) =? i);
      [eexists; split; [reflexivity|exact Hok]|].
    destruct Hout as (H0 & _).
    pose proof Hstreams as (_ & _ & Hfresh).
    destruct (restart_output_stream_effect 0 (fun _ => answer)
                (set_out_combo
                   {| items := items (out_combo a); currentIndex := i |} a)
                H0 Hfresh)
      as (a' & Hrun & Hout' & Hs' & Hn' & Hopen & Hsid & Hfresh').
    rewrite Hrun. exists a'. split; [reflexivity|].
    split; [|split; [|split]].
    + eapply registry_ok_same_oids; [exact Hreg| |exact Hn'].
      rewrite Hs'. reflexivity.
    + rewrite Hs'. exact Hstrips.
    + apply (streams_ok_output a a'); assumption.
    + exact Hout'.
  - (* the driver delivers a block *)
    destruct (input_strips a !! k) as [s|] eqn:Hk;
      [|eexists; split; [reflexivity|exact Hok]].
    destruct (stream_started (stream s));
      [|eexists; split; [reflexivity|exact Hok]].
    unfold strip_audio_callback. rewrite Hk.
    destruct (strip_ok_audio_callback indata s
                (Forall_lookup_1 _ _ _ _ Hstrips Hk))
      as (s' & Hrun & Hok' & Hoid & Hstream).
    rewrite Hrun. eexists. split; [reflexivity|].
    split; [|split; [|split]].
    + eapply registry_ok_same_oids; [exact Hreg| |reflexivity].
      cbn. apply (fmap_insert_same oid _ _ s); [exact Hk|exact Hoid].
    + cbn. apply Forall_insert; assumption.
    + apply streams_ok_same_streams; [exact Hstreams|].
      apply (fmap_insert_same stream _ _ s); [exact Hk|exact Hstream].
    + exact Hout.
  - (* the driver asks for a block *)
    destruct (stream_started (output_stream a));
      [|eexists; split; [reflexivity|exact Hok]].
    unfold output_callback. rewrite mix_strips_accumulate. cbn [fmap option_fmap option_map snd].
    eexists. split; [reflexivity|].
    split; [|split; [|split]].
    + eapply registry_ok_same_oids; [exact Hreg| |reflexivity].
      cbn. change (map after_chunk) with (fmap (M:=list) after_chunk).
      apply fmap_fmap_same. intros s. apply after_chunk_same.
    + cbn. change (map after_chunk) with (fmap (M:=list) after_chunk).
      apply Forall_fmap. eapply Forall_impl; [exact Hstrips|].
      intros s Hs. apply strip_ok_after_chunk, Hs.
    + apply streams_ok_same_streams; [exact Hstreams|].
      change (map after_chunk) with (fmap (M:=list) after_chunk).
      apply fmap_fmap_same. intros s. apply after_chunk_same.
    + exact Hout.
Qed.
End Events.

Section Runs.
Implicit Types (a : AudioRouterApp) (es : list event).

Lemma app_ok_new devs : app_ok (new_app devs).
Proof.
  split; [apply registry_ok_new|]. split; [constructor|]. split.
  - unfold streams_ok, held_sids. cbn. repeat split; constructor.
  - unfold output_ok. cbn. repeat split. intros st [=].
Qed.

Lemma run_events_ok es : ∀ a,
  app_ok a → ∃ a', run_events es a = Some a' ∧ app_ok a'.
Proof.
  induction es as [|e es IH]; intros a Hok; cbn [run_events].
  - exists a. split; [reflexivity|exact Hok].
  - destruct (event_step_ok a e Hok) as (a1 & -> & Hok1). apply IH, Hok1.
Qed.

Lemma run_events_reach devs es a :
  run_events es (new_app devs) = Some a → app_ok a.
Proof.
  intros Hrun.
  destruct (run_events_ok es (new_app devs) (app_ok_new devs))
    as (a' & Hrun' & Hok).
  rewrite Hrun in Hrun'. injection Hrun' as <-. exact Hok.
Qed.

Lemma filter_none {A} (P : A → Prop) `{∀ x, Decision (P x)} (l : list A) :
  (∀ x, x ∈ l → ¬ P x) → filter P l = [].
Proof.
  induction l as [|x l IH]; intros Hall; [reflexivity|].
  rewrite filter_cons_False by (apply Hall; left).
  apply IH. intros y Hy. apply Hall. right. exact Hy.
Qed.

(** The loop of [closeEvent]: every strip is stopped and every stream
    a strip holds is closed. *)
Lemma stop_all_eq l : ∀ w,
  (stop_all w l).2 = (fun s => (stop_stream w s).2) <$> l ∧
  open_streams (stop_all w l).1
  = filter (fun h => h ∉ strip_sids l) (open_streams w).
Proof.
  induction l as [|s l IH]; intros w.
  - cbn. split; [reflexivity|]. symmetry. apply filter_all.
    intros h _. apply not_elem_of_nil.
  - cbn [stop_all].
    destruct (stop_stream w s) as [w1 s1] eqn:Hs.
    destruct (IH w1) as [IH1 IH2].
    destruct (stop_all w1 l) as [w2 l2]. cbn [fst snd] in *.
    split.
    + rewrite fmap_cons, Hs. cbn [snd]. f_equal. rewrite IH1.
      apply list_fmap_ext. intros i x _. rewrite !stop_stream_eq. reflexivity.
    + rewrite IH2.
      pose proof (stop_stream_open w s) as (Hopen & _).
      rewrite Hs in Hopen. cbn [fst] in Hopen. rewrite Hopen.
      rewrite list_filter_filter. apply list_filter_iff. intros h.
      unfold strip_sids. rewrite bind_cons, elem_of_app. tauto.
Qed.
End Runs.

(** X1. No sequence of events gets stuck: from a fresh application
    every sequence of button clicks, device picks, slider moves and
    driver callbacks runs to its end (the capture callback never has to
    wait in [put], the playback callback never raises, no slot nests
    deeper than two), and every queue then holds at most 10 blocks. *)
Theorem X1_events_never_stuck (devs : list device_info) (es : list event) :
  ∃ a,
    run_events es (new_app devs) = Some a ∧
    Forall (fun s => length (audio_queue s) ≤ Queue.maxsize) (input_strips a).
Proof.
  destruct (run_events_ok es (new_app devs) (app_ok_new devs))
    as (a & Hrun & _ & Hstrips & _).
  exists a. split; [exact Hrun|].
  eapply Forall_impl; [exact Hstrips|]. intros s Hs. apply Hs.
Qed.

(** X2. No stream leaks: in every reachable state the streams the
    driver holds open are exactly the streams held by the registered
    strips and the playback stream, each once. *)
Theorem X2_no_stream_leak (devs : list device_info) (es : list event)
    (a : AudioRouterApp) :
  run_events es (new_app devs) = Some a →
  open_streams (world a) ≡ₚ held_sids a ∧ NoDup (open_streams (world a)).
Proof.
  intros Hrun. destruct (run_events_reach devs es a Hrun)
    as (_ & _ & (Hperm & Hnd & _) & _).
  split; [exact Hperm|]. rewrite Hperm. exact Hnd.
Qed.

Lemma X2_no_stream_leak_witness :
  open_streams (world ex_reached_app) ≡ₚ [0; 1; 2] ∧
  held_sids ex_reached_app = [0; 1; 2].
Proof.
  assert (Hrun : run_events (take 9 ex_events) (new_app ex_devices)
                 = Some ex_reached_app) by (vm_compute; reflexivity).
  assert (Hheld : held_sids ex_reached_app = [0; 1; 2])
    by (vm_compute; reflexivity).
  destruct (X2_no_stream_leak ex_devices (take 9 ex_events) ex_reached_app Hrun)
    as [Hperm _].
  split; [rewrite <- Hheld; exact Hperm|exact Hheld].
Defined.

(** X3. In every reachable state a strip is active exactly when it
    holds a stream, that stream is started, and the device list of the
    strip shows the device of the stream (the placeholder when there is
    none); the same holds of the playback stream and its list. *)
Theorem X3_selection_matches_stream (devs : list device_info)
    (es : list event) (a : AudioRouterApp) :
  run_events es (new_app devs) = Some a →
  Forall (fun s =>
            (is_active s = true ↔ ∃ st, stream s = Some st) ∧
            (∀ st, stream s = Some st → started st = true) ∧
            currentData (device_combo s) = sdevice <$> stream s)
         (input_strips a) ∧
  (∀ st, output_stream a = Some st → started st = true) ∧
  currentData (out_combo a) = sdevice <$> output_stream a.
Proof.
  intros Hrun. destruct (run_events_reach devs es a Hrun)
    as (_ & Hstrips & _ & (_ & Hstarted & Hdata)).
  split; [|split; [exact Hstarted|exact Hdata]].
  eapply Forall_impl; [exact Hstrips|].
  intros s (_ & _ & _ & _ & Hact & Hst & Hd).
  split; [|split; [exact Hst|exact Hd]].
  rewrite Hact. destruct (stream s) as [st|]; cbn.
  - rewrite (Hst st eq_refl). split; [eauto|reflexivity].
  - split; [discriminate|]. intros [st [=]].
Qed.

Lemma X3_selection_matches_stream_witness :
  currentData (device_combo (ex_strip_at 1 ex_reached_app)) = Some 2 ∧
  sdevice <$> stream (ex_strip_at 1 ex_reached_app) = Some 2.
Proof.
  assert (Hrun : run_events (take 9 ex_events) (new_app ex_devices)
                 = Some ex_reached_app) by (vm_compute; reflexivity).
  assert (Hk : input_strips ex_reached_app !! 1
               = Some (ex_strip_at 1 ex_reached_app))
    by (vm_compute; reflexivity).
  destruct (X3_selection_matches_stream ex_devices (take 9 ex_events)
              ex_reached_app Hrun) as (Hstrips & _).
  pose proof (Forall_lookup_1 _ _ _ _ Hstrips Hk) as (_ & _ & Hd).
  split; [|rewrite <- Hd]; vm_compute; reflexivity.
Defined.

(** X4. In every reachable state the gain of every strip is its slider
    position over 100.0, the position lies in [0..100] and the gain in
    [[0.0, 1.0]]. *)
Theorem X4_gain_follows_slider (devs : list device_info) (es : list event)
    (a : AudioRouterApp) :
  run_events es (new_app devs) = Some a →
  Forall (fun s =>
            (SLIDER_MIN ≤ slider s ≤ SLIDER_MAX)%Z ∧
            volume s = gain_of_percent (slider s) ∧
            unit_gain (volume s) = true)
         (input_strips a).
Proof.
  intros Hrun. destruct (run_events_reach devs es a Hrun) as (_ & Hstrips & _).
  eapply Forall_impl; [exact Hstrips|].
  intros s (_ & Hsl & Hvol & _).
  split; [exact Hsl|]. split; [exact Hvol|].
  rewrite Hvol. apply unit_gain_of_percent, Hsl.
Qed.

Lemma X4_gain_follows_slider_witness :
  slider (ex_strip_at 1 ex_reached_app) = 30%Z ∧
  unit_gain (volume (ex_strip_at 1 ex_reached_app)) = true.
Proof.
  assert (Hrun : run_events (take 9 ex_events) (new_app ex_devices)
                 = Some ex_reached_app) by (vm_compute; reflexivity).
  assert (Hk : input_strips ex_reached_app !! 1
               = Some (ex_strip_at 1 ex_reached_app))
    by (vm_compute; reflexivity).
  pose proof (X4_gain_follows_slider ex_devices (take 9 ex_events)
                ex_reached_app Hrun) as Hstrips.
  pose proof (Forall_lookup_1 _ _ _ _ Hstrips Hk) as (_ & _ & Hunit).
  split; [vm_compute; reflexivity|exact Hunit].
Defined.

(** X5. Closing the window from any reachable state leaves no stream
    open in the driver, and every strip inactive, without stream and
    with an empty queue; the playback stream object that is kept is
    stopped. *)
Theorem X5_closeEvent_releases_all (devs : list device_info)
    (es : list event) (a : AudioRouterApp) :
  run_events es (new_app devs) = Some a →
  open_streams (world (closeEvent a)) = [] ∧
  length (input_strips (closeEvent a)) = length (input_strips a) ∧
  Forall (fun s => is_active s = false ∧ stream s = None ∧ audio_queue s = [])
         (input_strips (closeEvent a)) ∧
  (∀ st, output_stream (closeEvent a) = Some st → started st = false).
Proof.
  intros Hrun. destruct (run_events_reach devs es a Hrun)
    as (_ & _ & (Hperm & _ & _) & _).
  unfold closeEvent.
  set (w1 := match output_stream a with
             | Some st => world_close st (world a)
             | None => world a
             end).
  assert (Hw1 : open_streams w1
                = filter (fun h => h ∉ opt_sid (output_stream a))
                    (open_streams (world a))).
  { pose proof (close_output_open a) as (Hopen & _).
    unfold close_output in Hopen. subst w1.
    destruct (output_stream a); exact Hopen. }
  destruct (stop_all_eq (input_strips a) w1) as [Hstrips Hopen].
  destruct (stop_all w1 (input_strips a)) as [w2 l2]. cbn [fst snd] in *.
  cbn [world input_strips set_input_strips set_world set_output_stream].
  split; [|split; [|split]]; cycle 3.
  { intros st. cbn [output_stream set_output_stream].
    destruct (output_stream a); cbn; [intros [= <-]; reflexivity|discriminate]. }
  - rewrite Hopen, Hw1, list_filter_filter. apply filter_none.
    intros h Hh [Hs Ho]. rewrite Hperm in Hh. unfold held_sids in Hh.
    apply elem_of_app in Hh as [Hh|Hh]; tauto.
  - rewrite Hstrips. apply length_fmap.
  - rewrite Hstrips. apply Forall_fmap, Forall_forall. intros s _. cbn.
    rewrite stop_stream_eq. repeat split; reflexivity.
Qed.

Lemma X5_closeEvent_releases_all_witness :
  open_streams (world ex_reached_app) = [0; 1; 2] ∧
  open_streams (world (closeEvent ex_reached_app)) = [].
Proof.
  assert (Hrun : run_events (take 9 ex_events) (new_app ex_devices)
                 = Some ex_reached_app) by (vm_compute; reflexivity).
  split; [vm_compute; reflexivity|].
  apply (X5_closeEvent_releases_all ex_devices (take 9 ex_events)
           ex_reached_app Hrun).
Defined.


(** ** Exact arithmetic at the ends of the gain range *)

Section UnitGain.
Implicit Types x y : spec_float.

Lemma shift23 (mx : positive) :
  SpecFloat.iter_pos shr_1 23
    {| shr_m := Zpos (8388608 * mx); shr_r := false; shr_s := false |}
  = {| shr_m := Zpos mx; shr_r := false; shr_s := false |}.
Proof. reflexivity. Qed.

Lemma digits2_xO (p : positive) :
  Zpos (digits2_pos p~0) = (Zpos (digits2_pos p) + 1)%Z.
Proof. cbn [digits2_pos]. apply Pos2Z.inj_succ. Qed.

Lemma digits23 (mx : positive) :
  Zpos (digits2_pos (8388608 * mx)) = (Zpos (digits2_pos mx) + 23)%Z.
Proof.
  change (8388608 * mx)%positive
    with (mx~0~0~0~0~0~0~0~0~0~0~0~0~0~0~0~0~0~0~0~0~0~0~0)%positive.
  rewrite !digits2_xO. lia.
Qed.

(** A float32 times 1.0 is that float32, bit for bit. *)
Lemma mul_one_valid x : f32_valid x = true → F32.mul x F32.one = x.
Proof.
  destruct x as [sx|sx| |sx mx ex]; intros Hv;
    try (destruct sx; reflexivity); try reflexivity.
  unfold f32_valid, valid_binary, bounded, canonical_mantissa in Hv.
  apply andb_true_iff in Hv as [Hcan Hle].
  apply Z.eqb_eq in Hcan.
  unfold F32.mul, F32.one, SFmul.
  rewrite xorb_false_r, Pos.mul_comm.
  unfold binary_round_aux, shr_fexp.
  cbn [Zdigits2]. rewrite digits23.
  replace (Z.pos (digits2_pos mx) + 23 + (ex + -23))%Z
    with (Z.pos (digits2_pos mx) + ex)%Z by lia.
  rewrite Hcan.
  replace (ex - (ex + -23))%Z with 23%Z by lia.
  cbn [shr shr_record_of_loc]. rewrite shift23.
  cbn [loc_of_shr_record shr_m round_nearest_even Zdigits2 shr_record_of_loc].
  replace (ex + -23 + 23)%Z with ex by lia.
  rewrite Hcan, Z.sub_diag. cbn [shr shr_m].
  rewrite Hle. reflexivity.
Qed.

Lemma add_zero_l x : F32.add F32.zero x = plus_zero x.
Proof. destruct x as [[]|[]| |]; reflexivity. Qed.

Lemma add_zero_r_plus x : F32.add (plus_zero x) F32.zero = plus_zero x.
Proof. destruct x as [[]|[]| |]; reflexivity. Qed.

Lemma in_range_plus_zero lo hi x :
  F32.in_range lo hi (plus_zero x) = F32.in_range lo hi x.
Proof.
  destruct x as [[]|[]| |]; try reflexivity;
    destruct lo as [[]|[]| |[]], hi as [[]|[]| |[]]; reflexivity.
Qed.

(** Comparing equal to a finite value is being that value. *)
Lemma compare_eq_finite s m e x :
  SFcompare (S754_finite s m e) x = Some Eq → x = S754_finite s m e.
Proof.
  destruct x as [sx|sx| |sx mx ex]; cbn.
  - destruct s; discriminate.
  - destruct sx; discriminate.
  - discriminate.
  - destruct s, sx; try discriminate;
      destruct (Z.compare e ex) eqn:He; try discriminate;
      intros [= Hm]; apply Z.compare_eq in He; subst ex.
    + destruct (Pos.compare_cont Eq m mx) eqn:Hc; try discriminate.
      apply Pos.compare_eq in Hc. subst. reflexivity.
    + apply Pos.compare_eq in Hm. subst. reflexivity.
Qed.

Lemma compare_eq_finite_r s m e x :
  SFcompare x (S754_finite s m e) = Some Eq → x = S754_finite s m e.
Proof.
  destruct x as [sx|sx| |sx mx ex]; cbn.
  - destruct s; discriminate.
  - destruct sx; discriminate.
  - discriminate.
  - destruct s, sx; try discriminate;
      destruct (Z.compare ex e) eqn:He; try discriminate;
      intros [= Hm]; apply Z.compare_eq in He; subst ex.
    + destruct (Pos.compare_cont Eq mx m) eqn:Hc; try discriminate.
      apply Pos.compare_eq in Hc. subst. reflexivity.
    + apply Pos.compare_eq in Hm. subst. reflexivity.
Qed.

(** The clip leaves a sample of [[-1.0, 1.0]] as it is. *)
Lemma clip_id x :
  F32.in_range F32.neg_one F32.one x = true →
  F32.clip x F32.neg_one F32.one = x.
Proof.
  unfold F32.in_range, F32.leb, SFleb. intros H.
  apply andb_true_iff in H as [Hlo Hhi].
  assert (Hnan : F32.is_nan x = false).
  { destruct x; try reflexivity. discriminate Hlo. }
  unfold F32.clip, F32.np_max, F32.np_min, F32.ltb, SFltb.
  rewrite Hnan.
  destruct (SFcompare F32.neg_one x) as [[]|] eqn:Hc1; try discriminate.
  - apply compare_eq_finite in Hc1. subst x. reflexivity.
  - rewrite Hnan.
    destruct (SFcompare x F32.one) as [[]|] eqn:Hc2; try discriminate.
    + apply compare_eq_finite_r in Hc2. subst x. reflexivity.
    + reflexivity.
Qed.
End UnitGain.

(** ** Mixing silence, one channel, two channels *)

Section MixerCases.
Implicit Types (a : AudioRouterApp) (s : AudioInputStrip).

Lemma add_comm x y : F32.add x y = F32.add y x.
Proof.
  destruct x as [sx|sx| |sx mx ex], y as [sy|sy| |sy my ey];
    try reflexivity; try (destruct sx, sy; reflexivity).
  unfold F32.add, SFadd. rewrite (Z.min_comm ey ex). f_equal. apply Z.add_comm.
Qed.

Lemma add_after_zero x y :
  F32.add (F32.add F32.zero x) y = F32.add (F32.add F32.zero y) x.
Proof.
  rewrite !add_zero_l.
  destruct x as [sx|sx| |sx mx ex], y as [sy|sy| |sy my ey];
    try reflexivity; try (destruct sx, sy; reflexivity);
    try (destruct sx; reflexivity); try (destruct sy; reflexivity).
  apply add_comm.
Qed.

Lemma block_add_zeros_l (b : list (spec_float * spec_float)) :
  block_add (np_zeros (len b)) b = block_plus_zero b.
Proof.
  induction b as [|[l r] b IH]; [reflexivity|].
  cbn [len length np_zeros replicate block_add zip_with block_plus_zero map
       fst snd] in *.
  unfold frame_add at 1. cbn [fst snd]. rewrite !add_zero_l. f_equal. exact IH.
Qed.

Lemma block_add_zeros_r (acc : list (spec_float * spec_float)) :
  Forall (fun x => F32.add x F32.zero = x) (samples acc) →
  block_add acc (np_zeros (len acc)) = acc.
Proof.
  induction acc as [|[l r] acc IH]; intros Hacc; [reflexivity|].
  cbn in Hacc.
  pose proof (Forall_inv Hacc) as Hl. apply Forall_inv_tail in Hacc.
  pose proof (Forall_inv Hacc) as Hr. apply Forall_inv_tail in Hacc.
  cbn [len length np_zeros replicate block_add zip_with fst snd] in *.
  unfold frame_add at 1. cbn [fst snd]. rewrite Hl, Hr. f_equal.
  apply IH, Hacc.
Qed.

(** Silent strips leave the accumulator as it is, whether their
    silence is added or skipped. *)
Lemma accumulate_silent l : ∀ (acc : list (spec_float * spec_float)),
  Forall (fun x => F32.add x F32.zero = x) (samples acc) →
  Forall silent l →
  spec_accumulate acc (map chunk_of l) = acc.
Proof.
  induction l as [|s l IH]; intros acc Hacc Hl; [reflexivity|].
  apply Forall_cons in Hl as [Hs Hl].
  cbn [map]. unfold spec_accumulate. cbn [fold_left].
  fold (spec_accumulate
          (if decide (size (chunk_of s) = size acc)
           then block_add acc (chunk_of s) else acc) (map chunk_of l)).
  assert (Hchunk : chunk_of s = np_zeros BLOCK_SIZE)
    by (unfold chunk_of; rewrite chunk_of_silent by exact Hs; reflexivity).
  rewrite Hchunk.
  destruct (decide (size (np_zeros BLOCK_SIZE) = size acc)) as [Heq|_].
  - apply size_eq_len in Heq. rewrite len_np_zeros in Heq.
    rewrite Heq, block_add_zeros_r by exact Hacc. apply IH; assumption.
  - apply IH; assumption.
Qed.

Lemma samples_zeros_absorb n :
  Forall (fun x => F32.add x F32.zero = x) (samples (np_zeros n)).
Proof. induction n as [|n IH]; cbn; repeat constructor. exact IH. Qed.

Lemma samples_plus_zero_absorb (b : list (spec_float * spec_float)) :
  Forall (fun x => F32.add x F32.zero = x) (samples (block_plus_zero b)).
Proof.
  induction b as [|[l r] b IH]; cbn; repeat constructor;
    try apply add_zero_r_plus. exact IH.
Qed.

Lemma map_after_chunk_silent l :
  Forall silent l → map after_chunk l = l.
Proof.
  induction 1 as [|s l Hs _ IH]; [reflexivity|].
  cbn. rewrite after_chunk_silent by exact Hs. f_equal. exact IH.
Qed.

Lemma block_clip_zeros n : block_clip (np_zeros n) = np_zeros n.
Proof. unfold np_zeros. rewrite block_clip_replicate. reflexivity. Qed.

Lemma block_scale_one (data : list (spec_float * spec_float)) :
  Forall (fun x => f32_valid x = true) (samples data) →
  block_scale data F64.one = data.
Proof.
  induction data as [|[l r] data IH]; intros Hv; [reflexivity|].
  cbn in Hv.
  pose proof (Forall_inv Hv) as Hl. apply Forall_inv_tail in Hv.
  pose proof (Forall_inv Hv) as Hr. apply Forall_inv_tail in Hv.
  cbn [block_scale map] in *. unfold frame_scale at 1. cbn [fst snd].
  change (F64.to_f32 F64.one) with F32.one.
  rewrite (mul_one_valid l Hl), (mul_one_valid r Hr). f_equal. apply IH, Hv.
Qed.

Lemma block_clip_plus_zero (data : list (spec_float * spec_float)) :
  Forall (fun x => F32.in_range F32.neg_one F32.one x = true) (samples data) →
  block_clip (block_plus_zero data) = block_plus_zero data.
Proof.
  induction data as [|[l r] data IH]; intros Hv; [reflexivity|].
  cbn in Hv.
  pose proof (Forall_inv Hv) as Hl. apply Forall_inv_tail in Hv.
  pose proof (Forall_inv Hv) as Hr. apply Forall_inv_tail in Hv.
  cbn [block_clip block_plus_zero map fst snd] in *.
  unfold frame_clip at 1. cbn [fst snd].
  rewrite !clip_id by (rewrite in_range_plus_zero; assumption).
  f_equal. apply IH, Hv.
Qed.
End MixerCases.

(** ** The size check of the mixing pass *)

Section SizeCheck.
Implicit Types (s : AudioInputStrip) (l before : list AudioInputStrip).

(** Blocks of another length leave the accumulator as it is. *)
Lemma accumulate_mismatched l : ∀ (acc : list (spec_float * spec_float)),
  Forall (fun x => len (chunk_of x) ≠ len acc) l →
  spec_accumulate acc (map chunk_of l) = acc.
Proof.
  induction l as [|s l IH]; intros acc Hl; [reflexivity|].
  apply Forall_cons in Hl as [Hs Hl].
  cbn [map]. unfold spec_accumulate. cbn [fold_left].
  destruct (decide (size (chunk_of s) = size acc)) as [Heq|_].
  - exfalso. apply size_eq_len in Heq. contradiction.
  - apply (IH acc Hl).
Qed.

Lemma len_block_plus_zero (b : list (spec_float * spec_float)) :
  len (block_plus_zero b) = len b.
Proof. unfold len, block_plus_zero. apply length_map. Qed.

(** One strip among strips whose blocks have another length. *)
Lemma accumulate_one frames before s (after_ : list AudioInputStrip) :
  Forall (fun x => len (chunk_of x) ≠ frames) (before ++ after_) →
  spec_accumulate (np_zeros frames) (map chunk_of (before ++ s :: after_))
  = if decide (len (chunk_of s) = frames)
    then block_plus_zero (chunk_of s) else np_zeros frames.
Proof.
  intros Hothers. apply Forall_app in Hothers as [Hb Ha].
  rewrite map_app. cbn [map]. rewrite spec_accumulate_app.
  rewrite accumulate_mismatched by (rewrite len_np_zeros; exact Hb).
  change (chunk_of s :: map chunk_of after_)
    with ([chunk_of s] ++ map chunk_of after_).
  rewrite spec_accumulate_app.
  assert (Hs : spec_accumulate (np_zeros frames) [chunk_of s]
               = if decide (len (chunk_of s) = frames)
                 then block_plus_zero (chunk_of s) else np_zeros frames).
  { unfold spec_accumulate. cbn [fold_left].
    destruct (decide (len (chunk_of s) = frames)) as [Heq|Hne].
    - rewrite decide_True
        by (apply size_eq_len; rewrite len_np_zeros; exact Heq).
      rewrite <- Heq. apply block_add_zeros_l.
    - rewrite decide_False; [reflexivity|].
      intros Heq. apply size_eq_len in Heq. rewrite len_np_zeros in Heq.
      contradiction. }
  rewrite Hs. apply accumulate_mismatched.
  destruct (decide (len (chunk_of s) = frames)) as [Heq|Hne].
  - rewrite len_block_plus_zero, Heq. exact Ha.
  - rewrite len_np_zeros. exact Ha.
Qed.

(** A block of another length can be left out of the pass. *)
Lemma accumulate_skip acc before s (after_ : list AudioInputStrip) :
  len (chunk_of s) ≠ len acc →
  spec_accumulate acc (map chunk_of (before ++ s :: after_))
  = spec_accumulate acc (map chunk_of (before ++ after_)).
Proof.
  intros Hne. rewrite !map_app. cbn [map]. rewrite !spec_accumulate_app.
  pose proof (spec_accumulate_len acc (map chunk_of before)) as Hlen.
  set (acc1 := spec_accumulate acc (map chunk_of before)) in *.
  unfold spec_accumulate. cbn [fold_left].
  rewrite decide_False; [reflexivity|].
  intros Heq. apply size_eq_len in Heq. rewrite Hlen in Heq.
  contradiction.
Qed.

Lemma block_plus_zero_ones n : block_plus_zero (np_ones n) = np_ones n.
Proof. induction n as [|n IH]; [reflexivity|]. cbn. f_equal. exact IH. Qed.

Lemma block_clip_ones n : block_clip (np_ones n) = np_ones n.
Proof. unfold np_ones. rewrite block_clip_replicate. reflexivity. Qed.
End SizeCheck.

(** C7. A yielded block is added to the accumulator exactly when its
    size equals the accumulator's and is skipped otherwise; the pass
    always completes and writes [frames] rows of [CHANNELS] samples.
    A block of another size can be left out without changing what is
    written; next to blocks of other sizes, a block of [frames] rows is
    what is written (clipped; a block of ones gives ones), and a block
    of another size gives zeros. *)
Theorem C7_mismatch_skipped (frames : nat) (a : AudioRouterApp) :
  ∃ out a',
    output_callback frames a = Some (out, a') ∧
    out = block_clip
            (spec_accumulate (np_zeros frames) (map chunk_of (input_strips a))) ∧
    len out = frames ∧
    size out = frames * CHANNELS ∧
    input_strips a' = map after_chunk (input_strips a) ∧
    (∀ before s after_,
       input_strips a = before ++ s :: after_ →
       len (chunk_of s) ≠ frames →
       ∃ a'',
         output_callback frames (set_input_strips (before ++ after_) a)
         = Some (out, a'')) ∧
    (∀ before s after_,
       input_strips a = before ++ s :: after_ →
       Forall (fun x => len (chunk_of x) ≠ frames) (before ++ after_) →
       (len (chunk_of s) = frames →
        out = block_clip (block_plus_zero (chunk_of s)) ∧
        (chunk_of s = np_ones frames → out = np_ones frames)) ∧
       (len (chunk_of s) ≠ frames → out = np_zeros frames)).
Proof.
  unfold output_callback. rewrite mix_strips_accumulate.
  eexists _, _. split; [reflexivity|]. split; [reflexivity|].
  destruct (spec_accumulate_matching (map chunk_of (input_strips a))
              (np_zeros frames)) as [_ Hlen].
  rewrite len_np_zeros in Hlen.
  assert (Hout : len (block_clip (spec_accumulate (np_zeros frames)
                        (map chunk_of (input_strips a)))) = frames)
    by (rewrite len_block_clip; exact Hlen).
  split; [exact Hout|]. split.
  { unfold size. unfold len in Hout. rewrite Hout. reflexivity. }
  split; [reflexivity|]. split.
  - intros before s after_ Hin Hne. rewrite mix_strips_accumulate.
    eexists. cbn [input_strips set_input_strips]. rewrite Hin.
    rewrite accumulate_skip by (rewrite len_np_zeros; exact Hne).
    reflexivity.
  - intros before s after_ Hin Hothers. rewrite Hin.
    rewrite (accumulate_one frames before s after_ Hothers).
    split.
    + intros Heq. rewrite decide_True by exact Heq.
      split; [reflexivity|]. intros ->.
      rewrite block_plus_zero_ones. apply block_clip_ones.
    + intros Hne. rewrite decide_False by exact Hne. apply block_clip_zeros.
Qed.

Lemma C7_mismatch_skipped_witness :
  fst <$> output_callback 512 ex_mixed_app = Some (np_ones 512) ∧
  fst <$> output_callback 1024 ex_mixed_app = Some (np_zeros 1024) ∧
  fst <$> output_callback 256 ex_mixed_app = Some (np_zeros 256).
Proof.
  assert (Hin0 : input_strips ex_mixed_app
                 = [] ++ ex_strip_at 0 ex_mixed_app
                      :: [ex_strip_at 1 ex_mixed_app])
    by (vm_compute; reflexivity).
  assert (Hin1 : input_strips ex_mixed_app
                 = [ex_strip_at 0 ex_mixed_app]
                   ++ ex_strip_at 1 ex_mixed_app :: [])
    by (vm_compute; reflexivity).
  assert (Hones : chunk_of (ex_strip_at 0 ex_mixed_app) = np_ones 512)
    by (vm_compute; reflexivity).
  assert (Hzeros : chunk_of (ex_strip_at 1 ex_mixed_app) = np_zeros 1024)
    by (vm_compute; reflexivity).
  assert (Hclip : block_clip (block_plus_zero (np_zeros 1024)) = np_zeros 1024)
    by (vm_compute; reflexivity).
  assert (Hlen0 : len (chunk_of (ex_strip_at 0 ex_mixed_app)) = 512)
    by (vm_compute; reflexivity).
  assert (Hlen1 : len (chunk_of (ex_strip_at 1 ex_mixed_app)) = 1024)
    by (vm_compute; reflexivity).
  split; [|split].
  - destruct (C7_mismatch_skipped 512 ex_mixed_app)
      as (out & a' & Hrun & _ & _ & _ & _ & _ & Hone).
    destruct (Hone _ _ _ Hin0) as [Hadd _].
    + cbn [app]. constructor; [|constructor]. rewrite Hlen1. discriminate.
    + destruct (Hadd Hlen0) as [_ Hout].
      rewrite Hrun. cbn [fmap option_fmap option_map fst]. f_equal.
      exact (Hout Hones).
  - destruct (C7_mismatch_skipped 1024 ex_mixed_app)
      as (out & a' & Hrun & _ & _ & _ & _ & _ & Hone).
    destruct (Hone _ _ _ Hin1) as [Hadd _].
    + cbn [app]. constructor; [|constructor]. rewrite Hlen0. discriminate.
    + destruct (Hadd Hlen1) as [Hout _].
      rewrite Hrun. cbn [fmap option_fmap option_map fst]. f_equal.
      rewrite Hout, Hzeros. exact Hclip.
  - destruct (C7_mismatch_skipped 256 ex_mixed_app)
      as (out & a' & Hrun & _ & _ & _ & _ & _ & Hone).
    destruct (Hone _ _ _ Hin0) as [_ Hskip].
    + cbn [app]. constructor; [|constructor]. rewrite Hlen1. discriminate.
    + rewrite Hrun. cbn [fmap option_fmap option_map fst]. f_equal.
      apply Hskip. rewrite Hlen0. discriminate.
Defined.

(** X6. With nothing to play the output is silence: when every strip is
    inactive or has an empty queue, the playback callback writes
    [frames] rows of zeros, whatever [frames] is, and changes nothing. *)
Theorem X6_silence_in_silence_out (frames : nat) (a : AudioRouterApp) :
  Forall silent (input_strips a) →
  output_callback frames a = Some (np_zeros frames, a).
Proof.
  intros Hsilent. unfold output_callback. rewrite mix_strips_accumulate.
  rewrite accumulate_silent by (apply samples_zeros_absorb || exact Hsilent).
  rewrite block_clip_zeros, map_after_chunk_silent by exact Hsilent.
  destruct a; reflexivity.
Qed.

Lemma X6_silence_in_silence_out_witness :
  output_callback BLOCK_SIZE ex_added_app
  = Some (np_zeros BLOCK_SIZE, ex_added_app).
Proof.
  apply (X6_silence_in_silence_out BLOCK_SIZE ex_added_app).
  repeat constructor; left; reflexivity.
Defined.

(** X7. One channel at full gain passes through unchanged: when one
    strip is active at gain 1.0, its oldest block has [frames] rows of
    float32 samples in [[-1.0, 1.0]], and every other strip is silent,
    the playback callback writes exactly that block (a negative zero
    written as positive zero). *)
Theorem X7_unit_gain_pass_through (frames : nat) (a : AudioRouterApp)
    (before after_ : list AudioInputStrip) (s : AudioInputStrip)
    (data : block) (rest : list block) :
  input_strips a = before ++ s :: after_ →
  Forall silent before → Forall silent after_ →
  is_active s = true → volume s = F64.one →
  audio_queue s = data :: rest → len data = frames →
  Forall (fun x => f32_valid x = true ∧
                   F32.in_range F32.neg_one F32.one x = true) (samples data) →
  ∃ a',
    output_callback frames a = Some (block_plus_zero data, a') ∧
    input_strips a' = before ++ set_audio_queue rest s :: after_.
Proof.
  intros Hin Hb Ha Hact Hvol Hq Hlen Hdata.
  assert (Hvalid : Forall (fun x => f32_valid x = true) (samples data))
    by (eapply Forall_impl; [exact Hdata|]; intros x Hx; apply Hx).
  assert (Hrange : Forall (fun x => F32.in_range F32.neg_one F32.one x = true)
                     (samples data))
    by (eapply Forall_impl; [exact Hdata|]; intros x Hx; apply Hx).
  unfold output_callback. rewrite mix_strips_accumulate.
  eexists. split.
  - f_equal. f_equal. rewrite Hin, map_app. cbn [map].
    rewrite spec_accumulate_app.
    rewrite accumulate_silent by (apply samples_zeros_absorb || exact Hb).
    change (chunk_of s :: map chunk_of after_)
      with ([chunk_of s] ++ map chunk_of after_).
    rewrite spec_accumulate_app.
    assert (Hchunk : chunk_of s = data).
    { unfold chunk_of. rewrite (chunk_of_active s data rest Hact Hq), Hvol.
      apply block_scale_one, Hvalid. }
    rewrite Hchunk. unfold spec_accumulate at 2. cbn [fold_left].
    unfold size. rewrite <- Hlen.
    change (length (np_zeros (len data))) with (len (np_zeros (len data))).
    rewrite len_np_zeros.
    destruct (decide (length data * CHANNELS = len data * CHANNELS))
      as [_|Hne]; [|contradiction].
    rewrite block_add_zeros_l.
    rewrite accumulate_silent by (apply samples_plus_zero_absorb || exact Ha).
    apply block_clip_plus_zero, Hrange.
  - cbn [input_strips set_input_strips]. rewrite Hin, map_app. cbn [map].
    rewrite !map_after_chunk_silent by assumption.
    unfold after_chunk. rewrite (chunk_of_active s data rest Hact Hq).
    reflexivity.
Qed.

Lemma X7_unit_gain_pass_through_witness :
  ∃ a',
    output_callback BLOCK_SIZE ex_three_tenths_app
    = Some (replicate BLOCK_SIZE (F32.three_tenths, F32.three_tenths), a').
Proof.
  destruct (X7_unit_gain_pass_through BLOCK_SIZE ex_three_tenths_app
              [] [ex_strip_at 1 ex_three_tenths_app]
              (ex_strip_at 0 ex_three_tenths_app)
              (replicate BLOCK_SIZE (F32.three_tenths, F32.three_tenths)) [])
    as (a' & Hrun & _).
  - vm_compute. reflexivity.
  - constructor.
  - constructor; [left; vm_compute; reflexivity|constructor].
  - vm_compute. reflexivity.
  - vm_compute. reflexivity.
  - vm_compute. reflexivity.
  - vm_compute. reflexivity.
  - apply Forall_forall. intros x Hx.
    assert (Hall : forallb (fun x => f32_valid x
                            && F32.in_range F32.neg_one F32.one x)
                     (samples (replicate BLOCK_SIZE
                                 (F32.three_tenths, F32.three_tenths))) = true)
      by (vm_compute; reflexivity).
    rewrite forallb_forall in Hall. apply list_elem_of_In in Hx.
    specialize (Hall x Hx). apply andb_true_iff in Hall. exact Hall.
  - exists a'. rewrite Hrun. reflexivity.
Defined.

(** X8. The order of two channels does not matter: a registry of two
    strips gives the same output block whichever strip comes first
    (float32 addition is commutative; with three or more channels the
    order of the roundings can matter). *)
Theorem X8_two_strips_commute (frames : nat) (a : AudioRouterApp)
    (s1 s2 : AudioInputStrip) :
  fst <$> output_callback frames (set_input_strips [s1; s2] a)
  = fst <$> output_callback frames (set_input_strips [s2; s1] a).
Proof.
  unfold output_callback. rewrite !mix_strips_accumulate.
  cbn [input_strips set_input_strips map fmap option_fmap option_map fst].
  f_equal. f_equal.
  destruct (spec_accumulate_matching [chunk_of s1; chunk_of s2] (np_zeros frames))
    as [-> _].
  destruct (spec_accumulate_matching [chunk_of s2; chunk_of s1] (np_zeros frames))
    as [-> _].
  rewrite len_np_zeros. unfold matching. rewrite !filter_cons, !filter_nil.
  destruct (decide (len (chunk_of s1) = frames)) as [H1|H1];
    destruct (decide (len (chunk_of s2) = frames)) as [H2|H2];
    try reflexivity.
  cbn [fold_left]. subst frames.
  generalize dependent (chunk_of s2). generalize (chunk_of s1).
  induction l as [|[l1 r1] c1 IH]; intros [|[l2 r2] c2] Hlen;
    try discriminate; [reflexivity|].
  cbn [len length] in Hlen. injection Hlen as Hlen.
  cbn [len length np_zeros replicate block_add zip_with].
  unfold frame_add. cbn [fst snd]. f_equal.
  - f_equal; apply add_after_zero.
  - apply (IH c2 Hlen).
Qed.

(** X9. A block of the wrong length is lost: when an active strip's
    oldest block does not have [frames] rows, the playback callback
    removes it from the queue all the same and writes what it writes
    without that strip. *)
Theorem X9_wrong_length_block_is_dropped (frames : nat) (a : AudioRouterApp)
    (before after_ : list AudioInputStrip) (s : AudioInputStrip)
    (data : block) (rest : list block) :
  input_strips a = before ++ s :: after_ →
  is_active s = true → audio_queue s = data :: rest → len data ≠ frames →
  ∃ out a' a'',
    output_callback frames a = Some (out, a') ∧
    input_strips a' !! length before = Some (set_audio_queue rest s) ∧
    output_callback frames (set_input_strips (before ++ after_) a)
    = Some (out, a'').
Proof.
  intros Hin Hact Hq Hlen.
  pose proof (chunk_of_active s data rest Hact Hq) as Hchunk.
  unfold output_callback. rewrite !mix_strips_accumulate.
  eexists _, _, _. split; [reflexivity|].
  cbn [input_strips set_input_strips]. rewrite Hin. split.
  - rewrite map_app. cbn [map].
    rewrite lookup_app_r by (rewrite length_map; lia).
    rewrite length_map, Nat.sub_diag. cbn [lookup list_lookup].
    unfold after_chunk. rewrite Hchunk. reflexivity.
  - do 2 f_equal. rewrite !map_app. cbn [map].
    rewrite !spec_accumulate_app.
    change (chunk_of s :: map chunk_of after_)
      with ([chunk_of s] ++ map chunk_of after_).
    rewrite spec_accumulate_app.
    set (acc := spec_accumulate (np_zeros frames) (map chunk_of before)).
    assert (Hskip : spec_accumulate acc [chunk_of s] = acc).
    { unfold spec_accumulate. cbn [fold_left].
      destruct (decide (size (chunk_of s) = size acc)) as [Heq|_];
        [|reflexivity].
      exfalso. apply size_eq_len in Heq. subst acc.
      rewrite spec_accumulate_len, len_np_zeros in Heq.
      unfold chunk_of in Heq. rewrite Hchunk in Heq. cbn [fst] in Heq.
      unfold block_scale, len in Heq. rewrite length_map in Heq.
      apply Hlen. exact Heq. }
    rewrite Hskip. reflexivity.
Qed.

Lemma X9_wrong_length_block_is_dropped_witness :
  ∃ out a' a'',
    output_callback BLOCK_SIZE ex_mixed_app = Some (out, a') ∧
    audio_queue (ex_strip_at 0 ex_mixed_app) = [np_ones 512] ∧
    audio_queue (ex_strip_at 0 a') = [] ∧
    output_callback BLOCK_SIZE
      (set_input_strips [ex_strip_at 1 ex_mixed_app] ex_mixed_app)
    = Some (out, a'').
Proof.
  destruct (X9_wrong_length_block_is_dropped BLOCK_SIZE ex_mixed_app
              [] [ex_strip_at 1 ex_mixed_app] (ex_strip_at 0 ex_mixed_app)
              (np_ones 512) [])
    as (out & a' & a'' & Hrun & Hk & Hwithout).
  - vm_compute. reflexivity.
  - vm_compute. reflexivity.
  - vm_compute. reflexivity.
  - vm_compute. lia.
  - exists out, a', a''. split; [exact Hrun|].
    split; [vm_compute; reflexivity|].
    split; [|exact Hwithout].
    unfold ex_strip_at. cbn [length] in Hk. rewrite Hk. reflexivity.
Defined.

Section SliderOrder.
Lemma gain_pairs_ordered :
  forallb (fun v =>
    forallb (fun w =>
      SFltb (gain_of_percent (Z.of_nat v)) (gain_of_percent (Z.of_nat w))
      && SFltb (F64.to_f32 (gain_of_percent (Z.of_nat v)))
               (F64.to_f32 (gain_of_percent (Z.of_nat w))))
      (seq (S v) (100 - v)))
    (seq 0 101) = true.
Proof. vm_compute. reflexivity. Qed.
End SliderOrder.

(** X10. The slider is strictly monotone: of two positions of the
    range 0..100 the higher gives the strictly greater gain, both as the
    Python float stored in [volume] and as the float32 factor the chunk
    is multiplied by. *)
Theorem X10_gain_strictly_monotone (s : AudioInputStrip) (v w : Z) :
  (SLIDER_MIN ≤ v)%Z → (v < w)%Z → (w ≤ SLIDER_MAX)%Z →
  SFltb (volume (update_volume (set_slider v s)))
        (volume (update_volume (set_slider w s))) = true ∧
  SFltb (F64.to_f32 (volume (update_volume (set_slider v s))))
        (F64.to_f32 (volume (update_volume (set_slider w s)))) = true.
Proof.
  unfold SLIDER_MIN, SLIDER_MAX. intros Hv Hvw Hw.
  change (volume (update_volume (set_slider v s))) with (gain_of_percent v).
  change (volume (update_volume (set_slider w s))) with (gain_of_percent w).
  pose proof gain_pairs_ordered as Hall.
  rewrite forallb_forall in Hall.
  specialize (Hall (Z.to_nat v) ltac:(apply in_seq; lia)).
  rewrite forallb_forall in Hall.
  specialize (Hall (Z.to_nat w) ltac:(apply in_seq; lia)).
  rewrite !Z2Nat.id in Hall by lia.
  apply andb_true_iff. exact Hall.
Qed.

Lemma X10_gain_strictly_monotone_witness :
  SFltb (volume (update_volume (set_slider 29 ex_strip)))
        (volume (update_volume (set_slider 30 ex_strip))) = true.
Proof.
  apply (X10_gain_strictly_monotone ex_strip 29 30);
    unfold SLIDER_MIN, SLIDER_MAX; lia.
Defined.

(** ** The device lists *)

Section DeviceLists.
Implicit Types (p : device_info → bool) (devs : list device_info).

Lemma enumerate_filter_elem p devs : ∀ i j,
  j ∈ enumerate_filter p i devs
  ↔ i ≤ j ∧ ∃ dev, devs !! (j - i) = Some dev ∧ p dev = true.
Proof.
  induction devs as [|dev devs IH]; intros i j; cbn [enumerate_filter].
  - split; [intros H; apply elem_of_nil in H; contradiction|].
    intros (_ & d & Hd & _). discriminate Hd.
  - assert (Hrest : j ∈ enumerate_filter p (S i) devs
                    ↔ i < j ∧ ∃ d, (dev :: devs) !! (j - i) = Some d ∧ p d = true).
    { rewrite IH. split.
      - intros (Hle & d & Hd & Hp). split; [lia|]. exists d. split; [|exact Hp].
        replace (j - i) with (S (j - S i)) by lia. exact Hd.
      - intros (Hlt & d & Hd & Hp). split; [lia|]. exists d. split; [|exact Hp].
        replace (j - i) with (S (j - S i)) in Hd by lia. exact Hd. }
    destruct (p dev) eqn:Hp.
    + rewrite elem_of_cons, Hrest. split.
      * intros [->|(Hlt & Hd)].
        -- split; [lia|]. exists dev. rewrite Nat.sub_diag. split; [reflexivity|exact Hp].
        -- split; [lia|exact Hd].
      * intros (Hle & Hd). destruct (decide (j = i)) as [->|Hne]; [left; reflexivity|].
        right. split; [lia|exact Hd].
    + rewrite Hrest. split.
      * intros (Hlt & Hd). split; [lia|exact Hd].
      * intros (Hle & d & Hd & Hpd). split; [|eauto].
        destruct (decide (j = i)) as [->|Hne]; [|lia].
        rewrite Nat.sub_diag in Hd. cbn in Hd. injection Hd as <-. congruence.
Qed.

Lemma enumerate_filter_NoDup p devs : ∀ i,
  NoDup (enumerate_filter p i devs).
Proof.
  induction devs as [|dev devs IH]; intros i; cbn [enumerate_filter];
    [constructor|].
  destruct (p dev); [|apply IH].
  constructor; [|apply IH].
  intros Hin. apply enumerate_filter_elem in Hin. lia.
Qed.

Lemma lookup_map_Some (l : list nat) n (d : option nat) :
  map Some l !! n = Some d ↔ ∃ j, d = Some j ∧ l !! n = Some j.
Proof.
  revert n. induction l as [|x l IH]; intros [|n]; cbn [map].
  - split; [discriminate|]. intros (j & _ & H). discriminate H.
  - split; [discriminate|]. intros (j & _ & H). discriminate H.
  - split.
    + intros [= <-]. exists x. split; reflexivity.
    + intros (j & -> & [= ->]). reflexivity.
  - apply IH.
Qed.

(** The items of a list built from the devices that satisfy [p]. *)
Lemma device_items p devs n d :
  (None :: map Some (enumerate_filter p 0 devs)) !! n = Some d →
  (n = 0 ∧ d = None) ∨
  (∃ j dev, d = Some j ∧ devs !! j = Some dev ∧ p dev = true).
Proof.
  destruct n as [|n]; [intros [= <-]; left; split; reflexivity|].
  intros Hn. right.
  change (map Some (enumerate_filter p 0 devs) !! n = Some d) in Hn.
  apply lookup_map_Some in Hn as (j & -> & Hj).
  apply list_elem_of_lookup_2, enumerate_filter_elem in Hj
    as (_ & dev & Hdev & Hp).
  rewrite Nat.sub_0_r in Hdev. eauto.
Qed.

Lemma device_listed p devs j dev :
  devs !! j = Some dev → p dev = true →
  ∃ n, (None :: map Some (enumerate_filter p 0 devs)) !! S n = Some (Some j).
Proof.
  intros Hdev Hp.
  assert (Hj : j ∈ enumerate_filter p 0 devs).
  { apply enumerate_filter_elem. split; [lia|]. rewrite Nat.sub_0_r. eauto. }
  apply list_elem_of_lookup_1 in Hj as [n Hn]. exists n.
  change (map Some (enumerate_filter p 0 devs) !! n = Some (Some j)).
  apply lookup_map_Some. eauto.
Qed.
End DeviceLists.

(** X11. The device list of a strip starts on the placeholder, whose
    data is [None]; every other item holds the id of a device of
    [sd.query_devices()] that has input channels; every such device is
    listed, exactly once.  The playback list is the same with output
    channels. *)
Theorem X11_device_lists (devs : list device_info) :
  currentData (populate_devices devs) = None ∧
  currentData (populate_output_devices devs) = None ∧
  (∀ n d, items (populate_devices devs) !! n = Some d →
     (n = 0 ∧ d = None) ∨
     (∃ j dev, d = Some j ∧ devs !! j = Some dev ∧ 0 < max_input_channels dev)) ∧
  (∀ n d, items (populate_output_devices devs) !! n = Some d →
     (n = 0 ∧ d = None) ∨
     (∃ j dev, d = Some j ∧ devs !! j = Some dev ∧ 0 < max_output_channels dev)) ∧
  (∀ j dev, devs !! j = Some dev →
     (0 < max_input_channels dev →
      ∃ n, items (populate_devices devs) !! S n = Some (Some j)) ∧
     (0 < max_output_channels dev →
      ∃ n, items (populate_output_devices devs) !! S n = Some (Some j))) ∧
  NoDup (items (populate_devices devs)) ∧
  NoDup (items (populate_output_devices devs)).
Proof.
  assert (Hnd : ∀ p, NoDup (None :: map Some (enumerate_filter p 0 devs))).
  { intros p. constructor.
    - intros Hin. change (map Some) with (fmap (M:=list) (@Some nat)) in Hin.
      apply list_elem_of_fmap in Hin as (j & Hj & _). discriminate Hj.
    - change (map Some) with (fmap (M:=list) (@Some nat)).
      apply NoDup_fmap; [intros x y [=]; assumption|].
      apply enumerate_filter_NoDup. }
  split; [reflexivity|]. split; [reflexivity|].
  split; [|split; [|split; [|split; [apply Hnd|apply Hnd]]]].
  - intros n d Hn. destruct (device_items _ devs n d Hn)
      as [H|(j & dev & -> & Hdev & Hp)]; [left; exact H|right].
    exists j, dev. apply Nat.ltb_lt in Hp. auto.
  - intros n d Hn. destruct (device_items _ devs n d Hn)
      as [H|(j & dev & -> & Hdev & Hp)]; [left; exact H|right].
    exists j, dev. apply Nat.ltb_lt in Hp. auto.
  - intros j dev Hdev. split; intros Hp;
      apply (device_listed _ devs j dev Hdev); apply Nat.ltb_lt, Hp.
Qed.

Lemma X11_device_lists_witness :
  items (populate_devices ex_devices) = [None; Some 0; Some 2] ∧
  ∃ n, items (populate_devices ex_devices) !! S n = Some (Some 2).
Proof.
  split; [reflexivity|].
  destruct (X11_device_lists ex_devices) as (_ & _ & _ & _ & Hlisted & _).
  apply (Hlisted 2 {| max_input_channels := 2; max_output_channels := 2 |});
    [reflexivity|cbn; lia].
Defined.

(** X12. When the driver opens the device picked on a strip,
    [start_stream] leaves the strip active on a new started stream of
    that device with an empty queue (what was buffered from the
    previous device is dropped), the previous stream closed, gain and
    selection unchanged and no dialog shown; when the placeholder is
    picked, [start_stream] only stops the strip. *)
Theorem X12_start_stream_opens (fuel : nat) (drv : driver) (w : World)
    (s : AudioInputStrip) :
  (∀ d, currentData (device_combo s) = Some d → drv d = Opens →
     ∃ w' s',
       start_stream (S fuel) drv w s = Some (w', s') ∧
       is_active s' = true ∧
       stream s'
       = Some {| sid := next_sid w; sdevice := d; started := true |} ∧
       audio_queue s' = [] ∧
       volume s' = volume s ∧ device_combo s' = device_combo s ∧
       index s' = index s ∧
       dialogs w' = dialogs w ∧
       open_streams w'
       = filter (fun h => h ∉ opt_sid (stream s)) (open_streams w)
         ++ [next_sid w]) ∧
  (currentData (device_combo s) = None →
   start_stream (S fuel) drv w s = Some (stop_stream w s)).
Proof.
  destruct (stop_stream_open w s) as (Hopen & Hnext & _ & Hdialogs).
  split.
  - intros d Hd Hdrv. cbn [start_stream].
    rewrite stop_stream_eq in *. cbn [fst snd] in *.
    cbn [device_combo set_audio_queue set_stream set_is_active].
    rewrite Hd, Hdrv. eexists _, _. split; [reflexivity|].
    cbn [is_active stream audio_queue volume device_combo index
         set_audio_queue set_stream set_is_active
         world_open dialogs open_streams].
    rewrite Hnext, Hopen, Hdialogs. repeat split; reflexivity.
  - intros Hd. cbn [start_stream].
    rewrite stop_stream_eq. cbn [device_combo set_audio_queue set_stream set_is_active].
    rewrite Hd. reflexivity.
Qed.

Lemma X12_start_stream_opens_witness :
  ∃ w' s',
    start_stream 1 ex_driver (world ex_selected_app)
      (ex_strip_at 1 ex_selected_app) = Some (w', s') ∧
    is_active s' = true ∧
    open_streams (world ex_selected_app) = [0; 1] ∧
    open_streams w' = [0; 2].
Proof.
  destruct (X12_start_stream_opens 0 ex_driver (world ex_selected_app)
              (ex_strip_at 1 ex_selected_app)) as [Hopens _].
  destruct (Hopens 0) as (w' & s' & Hrun & Hact & _ & _ & _ & _ & _ & _ & Hopen).
  - vm_compute. reflexivity.
  - vm_compute. reflexivity.
  - exists w', s'. split; [exact Hrun|]. split; [exact Hact|].
    split; [vm_compute; reflexivity|]. rewrite Hopen. vm_compute. reflexivity.
Defined.

(** X13. When the driver opens the playback device picked,
    [restart_output_stream] leaves a new started playback stream of
    that device, the previous one closed, the registry untouched and no
    dialog shown; when the placeholder is picked it only closes the
    playback stream. *)
Theorem X13_restart_output_stream_opens (fuel : nat) (drv : driver)
    (a : AudioRouterApp) :
  (∀ d, currentData (out_combo a) = Some d → drv d = Opens →
     ∃ a',
       restart_output_stream (S fuel) drv a = Some a' ∧
       output_stream a'
       = Some {| sid := next_sid (world a); sdevice := d; started := true |} ∧
       input_strips a' = input_strips a ∧ out_combo a' = out_combo a ∧
       dialogs (world a') = dialogs (world a) ∧
       open_streams (world a')
       = filter (fun h => h ∉ opt_sid (output_stream a)) (open_streams (world a))
         ++ [next_sid (world a)]) ∧
  (currentData (out_combo a) = None →
   restart_output_stream (S fuel) drv a = Some (close_output a) ∧
   output_stream (close_output a) = None ∧
   input_strips (close_output a) = input_strips a ∧
   open_streams (world (close_output a))
   = filter (fun h => h ∉ opt_sid (output_stream a)) (open_streams (world a))).
Proof.
  destruct (close_output_open a) as (Hopen & Hnext & _).
  assert (Hc : out_combo (close_output a) = out_combo a)
    by (unfold close_output; destruct (output_stream a); reflexivity).
  assert (Hs : input_strips (close_output a) = input_strips a)
    by (unfold close_output; destruct (output_stream a); reflexivity).
  assert (Hd : dialogs (world (close_output a)) = dialogs (world a))
    by (unfold close_output; destruct (output_stream a); reflexivity).
  assert (Ho : output_stream (close_output a) = None).
  { unfold close_output. destruct (output_stream a) eqn:E; [reflexivity|exact E]. }
  split.
  - intros d Hdata Hdrv. cbn [restart_output_stream]. fold (close_output a).
    rewrite Hc, Hdata, Hdrv. eexists. split; [reflexivity|].
    cbn [output_stream input_strips out_combo world set_output_stream
         set_world world_open dialogs open_streams].
    rewrite Hnext, Hopen, Hs, Hc, Hd. repeat split; reflexivity.
  - intros Hdata. cbn [restart_output_stream]. fold (close_output a).
    rewrite Hc, Hdata. repeat split; assumption.
Qed.

Lemma X13_restart_output_stream_opens_witness :
  ∃ a',
    restart_output_stream 1 ex_driver ex_selected_app = Some a' ∧
    sdevice <$> output_stream a' = Some 1 ∧
    open_streams (world a') = [0; 1; 2].
Proof.
  destruct (X13_restart_output_stream_opens 0 ex_driver ex_selected_app)
    as [Hopens _].
  destruct (Hopens 1) as (a' & Hrun & Hout & _ & _ & _ & Hopen).
  - vm_compute. reflexivity.
  - vm_compute. reflexivity.
  - exists a'. split; [exact Hrun|]. rewrite Hout, Hopen.
    split; vm_compute; reflexivity.
Defined.

Section ReadMany.
(** Reading [n] times from an active strip. *)
Lemma get_audio_chunks_active n : ∀ s,
  is_active s = true →
  get_audio_chunks n s
  = (((fun data => block_scale data (volume s)) <$> take n (audio_queue s))
     ++ replicate (n - length (audio_queue s)) (np_zeros BLOCK_SIZE),
     set_audio_queue (drop n (audio_queue s)) s).
Proof.
  induction n as [|n IH]; intros s Hact.
  - cbn. rewrite drop_0, set_audio_queue_id. reflexivity.
  - cbn [get_audio_chunks].
    destruct (audio_queue s) as [|data rest] eqn:Hq.
    + rewrite chunk_of_silent by (right; exact Hq).
      rewrite (IH s Hact), Hq. rewrite !take_nil, !drop_nil.
      cbn [length fmap list_fmap app]. rewrite !Nat.sub_0_r.
      reflexivity.
    + rewrite (chunk_of_active s data rest Hact Hq).
      rewrite (IH (set_audio_queue rest s) Hact).
      cbn [audio_queue volume set_audio_queue take drop length fmap list_fmap
           app Nat.sub].
      reflexivity.
Qed.

Lemma get_audio_chunks_inactive n : ∀ s,
  is_active s = false →
  get_audio_chunks n s = (replicate n (np_zeros BLOCK_SIZE), s).
Proof.
  induction n as [|n IH]; intros s Hact; [reflexivity|].
  cbn [get_audio_chunks]. rewrite chunk_of_silent by (left; exact Hact).
  rewrite (IH s Hact). reflexivity.
Qed.
End ReadMany.

(** X14. Underrun is silence: [n] reads of an active strip that holds
    [m] blocks return the first [min n m] blocks scaled by the gain, in
    queue order, followed by [n - m] blocks of silence, and leave the
    blocks not read in the queue; [n] reads of an inactive strip return
    [n] blocks of silence and leave the strip as it is. *)
Theorem X14_underrun_is_silence (n : nat) (s : AudioInputStrip) :
  (is_active s = true →
   get_audio_chunks n s
   = (((fun data => block_scale data (volume s)) <$> take n (audio_queue s))
      ++ replicate (n - length (audio_queue s)) (np_zeros BLOCK_SIZE),
      set_audio_queue (drop n (audio_queue s)) s)) ∧
  (is_active s = false →
   get_audio_chunks n s = (replicate n (np_zeros BLOCK_SIZE), s)).
Proof.
  split; [apply get_audio_chunks_active|apply get_audio_chunks_inactive].
Qed.

Lemma X14_underrun_is_silence_witness :
  ∃ s1,
    audio_callbacks (take 2 ex_blocks) ex_active_strip = Some s1 ∧
    get_audio_chunks 3 s1
    = ([ex_block 1; ex_block 2; np_zeros BLOCK_SIZE], ex_active_strip).
Proof.
  assert (Hrun : audio_callbacks (take 2 ex_blocks) ex_active_strip
                 = Some (set_audio_queue (take 2 ex_blocks) ex_active_strip))
    by (vm_compute; reflexivity).
  eexists. split; [exact Hrun|].
  destruct (X14_underrun_is_silence 3
              (set_audio_queue (take 2 ex_blocks) ex_active_strip))
    as [Hactive _].
  rewrite Hactive by (vm_compute; reflexivity).
  vm_compute. reflexivity.
Defined.

(** ** Removal, and the registry under every event *)

(** X15. Removing a strip of a running application closes the stream
    of that strip and no other: the strip leaves its position, the
    other strips and the playback stream are as before, the driver
    holds open what it held except the stream of the removed strip,
    and every stream the application still holds is still open. *)
Theorem X15_remove_closes_only_its_stream (devs : list device_info)
    (es : list event) (a : AudioRouterApp) (k : nat) (s : AudioInputStrip) :
  run_events es (new_app devs) = Some a →
  input_strips a !! k = Some s →
  ∃ a',
    event_step a (EvRemoveInput k) = Some a' ∧
    input_strips a' = delete k (input_strips a) ∧
    output_stream a' = output_stream a ∧
    open_streams (world a')
    = filter (fun h => h ∉ opt_sid (stream s)) (open_streams (world a)) ∧
    (∀ st, stream s = Some st → sid st ∉ open_streams (world a')) ∧
    (∀ h, h ∈ held_sids a' → h ∈ open_streams (world a')).
Proof.
  intros Hrun Hk. pose proof (run_events_reach devs es a Hrun) as Hok.
  destruct (event_step_ok a (EvRemoveInput k) Hok) as (a' & Hstep & Hok').
  exists a'. split; [exact Hstep|].
  cbn [event_step control_step] in Hstep. rewrite Hk in Hstep.
  destruct Hok as (Hreg & _).
  rewrite (close_strip_delete a k s Hreg Hk) in Hstep.
  injection Hstep as <-.
  destruct (stop_stream_open (world a) s) as (Hopen & _).
  cbn [input_strips output_stream world set_input_strips set_world] in *.
  split; [reflexivity|]. split; [reflexivity|]. split; [exact Hopen|].
  split.
  - intros st Hst Hin. rewrite Hopen, Hst in Hin.
    apply list_elem_of_filter in Hin as [Hnot _]. apply Hnot. left.
  - intros h Hh. destruct Hok' as (_ & _ & (Hperm & _) & _).
    cbn [world set_input_strips set_world] in Hperm.
    rewrite Hperm. exact Hh.
Qed.

Lemma X15_remove_closes_only_its_stream_witness :
  ∃ a',
    event_step ex_reached_app (EvRemoveInput 1) = Some a' ∧
    open_streams (world ex_reached_app) = [0; 1; 2] ∧
    open_streams (world a') = [0; 2].
Proof.
  assert (Hrun : run_events (take 9 ex_events) (new_app ex_devices)
                 = Some ex_reached_app) by (vm_compute; reflexivity).
  assert (Hk : input_strips ex_reached_app !! 1
               = Some (ex_strip_at 1 ex_reached_app))
    by (vm_compute; reflexivity).
  destruct (X15_remove_closes_only_its_stream ex_devices (take 9 ex_events)
              ex_reached_app 1 (ex_strip_at 1 ex_reached_app) Hrun Hk)
    as (a' & Hstep & _ & _ & Hopen & _).
  exists a'. split; [exact Hstep|].
  split; [vm_compute; reflexivity|].
  rewrite Hopen. vm_compute. reflexivity.
Defined.

Section Labels.
Implicit Types (a : AudioRouterApp) (s : AudioInputStrip).

Lemma stop_stream_label w s :
  oid (stop_stream w s).2 = oid s ∧ index (stop_stream w s).2 = index s.
Proof. rewrite stop_stream_eq. split; reflexivity. Qed.

Lemma start_stream_label fuel drv : ∀ w s w' s',
  start_stream fuel drv w s = Some (w', s') →
  oid s' = oid s ∧ index s' = index s.
Proof.
  induction fuel as [|fuel IH]; intros w s w' s' Hrun; [discriminate|].
  cbn [start_stream] in Hrun.
  destruct (stop_stream_label w s) as [Ho Hi].
  destruct (stop_stream w s) as [w1 s1]. cbn [snd] in Ho, Hi.
  destruct (currentData (device_combo s1)) as [d|].
  - assert (Hhandler : ∀ w2 s2,
              oid s2 = oid s → index s2 = index s →
              (if currentIndex (device_combo s2) =? 0
               then Some (world_dialog AudioError w2, s2)
               else start_stream fuel drv (world_dialog AudioError w2)
                      (set_device_combo
                         {| items := items (device_combo s2);
                            currentIndex := 0 |} s2)) = Some (w', s') →
              oid s' = oid s ∧ index s' = index s).
    { clear Hrun. intros w2 s2 Ho2 Hi2 H.
      destruct (currentIndex (device_combo s2) =? 0).
      - injection H as _ <-. split; assumption.
      - apply IH in H as [-> ->]. split; assumption. }
    destruct (drv d).
    + eapply Hhandler; [| |exact Hrun]; assumption.
    + eapply Hhandler; [| |exact Hrun]; assumption.
    + injection Hrun as _ <-. split; assumption.
  - injection Hrun as _ <-. split; assumption.
Qed.

Lemma restart_output_stream_strips fuel drv : ∀ a a',
  restart_output_stream fuel drv a = Some a' →
  input_strips a' = input_strips a ∧ next_oid a' = next_oid a.
Proof.
  induction fuel as [|fuel IH]; intros a a' Hrun; [discriminate|].
  cbn [restart_output_stream] in Hrun. fold (close_output a) in Hrun.
  assert (Hc : input_strips (close_output a) = input_strips a
               ∧ next_oid (close_output a) = next_oid a)
    by (unfold close_output; destruct (output_stream a); split; reflexivity).
  destruct Hc as [Hs Hn].
  set (a1 := close_output a) in *. clearbody a1.
  destruct (currentData (out_combo a1)) as [d|].
  - assert (Hhandler : ∀ a2,
              input_strips a2 = input_strips a → next_oid a2 = next_oid a →
              (let a3 := set_world (world_dialog OutputError (world a2)) a2 in
               if currentIndex (out_combo a3) =? 0 then Some a3
               else restart_output_stream fuel drv
                      (set_out_combo
                         {| items := items (out_combo a3);
                            currentIndex := 0 |} a3)) = Some a' →
              input_strips a' = input_strips a ∧ next_oid a' = next_oid a).
    { clear Hrun. intros a2 Hs2 Hn2 H. cbn zeta in H.
      destruct (currentIndex _ =? 0).
      - injection H as <-. split; assumption.
      - apply IH in H as [-> ->]. split; assumption. }
    destruct (drv d).
    + eapply Hhandler; [| |exact Hrun]; assumption.
    + eapply Hhandler; [| |exact Hrun]; assumption.
    + injection Hrun as <-. split; assumption.
  - injection Hrun as <-. split; assumption.
Qed.

Lemma audio_callback_label indata s s' :
  audio_callback indata s = Some s' → oid s' = oid s ∧ index s' = index s.
Proof.
  unfold audio_callback. intros H.
  destruct (Queue.put indata _); [|discriminate].
  injection H as <-. split; reflexivity.
Qed.

Lemma labels_insert a k s s' w :
  input_strips a !! k = Some s → oid s' = oid s → index s' = index s →
  labels (set_input_strips (<[k := s']> (input_strips a)) (set_world w a))
  = labels a.
Proof.
  intros Hk Ho Hi. unfold labels.
  cbn [input_strips set_input_strips set_world].
  apply (fmap_insert_same _ _ k s s' Hk). rewrite Ho, Hi. reflexivity.
Qed.

(** One event: the strips that stay keep identity, id and relative
    order; a strip that is added comes last, with a new identity. *)
Lemma event_step_labels a e a' :
  app_ok a → event_step a e = Some a' →
  next_oid a ≤ next_oid a' ∧
  ∃ kept added,
    labels a' = kept ++ added ∧ kept `sublist_of` labels a ∧
    Forall (fun p => next_oid a ≤ p.1) added.
Proof.
  intros (Hreg & _) Hstep.
  assert (Hsame : labels a' = labels a → next_oid a' = next_oid a →
            next_oid a ≤ next_oid a' ∧
            ∃ kept added,
              labels a' = kept ++ added ∧ kept `sublist_of` labels a ∧
              Forall (fun p => next_oid a ≤ p.1) added).
  { intros Hl Hn. split; [lia|]. exists (labels a), [].
    rewrite app_nil_r. split; [exact Hl|]. split; [reflexivity|constructor]. }
  destruct e as [|k|k i answer|k v|i answer|k indata|frames];
    cbn [event_step] in Hstep.
  - injection Hstep as <-. cbn [add_input_strip next_oid]. split; [lia|].
    exists (labels a), [(next_oid a, length (input_strips a))].
    split; [|split; [reflexivity|repeat constructor]].
    unfold labels. cbn [add_input_strip input_strips].
    rewrite fmap_app. reflexivity.
  - injection Hstep as <-. cbn [control_step].
    destruct (input_strips a !! k) as [s|] eqn:Hk;
      [|apply Hsame; reflexivity].
    rewrite (close_strip_delete a k s Hreg Hk).
    cbn [next_oid set_input_strips set_world]. split; [lia|].
    exists (delete k (labels a)), []. rewrite app_nil_r.
    split; [|split; [apply sublist_delete|constructor]].
    unfold labels. cbn [input_strips set_input_strips set_world].
    apply list_fmap_delete.
  - destruct (input_strips a !! k) as [s|] eqn:Hk;
      [|injection Hstep as <-; apply Hsame; reflexivity].
    destruct (i <? _);
      [|injection Hstep as <-; apply Hsame; reflexivity].
    unfold strip_select_device in Hstep. rewrite Hk in Hstep.
    destruct (select_device _ _ _ _ _) as [[w s']|] eqn:Hsel; [|discriminate].
    injection Hstep as <-.
    assert (Hlab : oid s' = oid s ∧ index s' = index s).
    { unfold select_device in Hsel.
      destruct (currentIndex (device_combo s) =? i).
      - injection Hsel as _ <-. split; reflexivity.
      - apply start_stream_label in Hsel. exact Hsel. }
    destruct Hlab as [Ho Hi].
    apply Hsame; [|reflexivity]. apply (labels_insert a k s s' w Hk Ho Hi).
  - injection Hstep as <-. apply Hsame; [|reflexivity].
    unfold labels, strip_slider_setValue.
    cbn [input_strips set_input_strips].
    apply fmap_alter_same. intros s.
    destruct (slider_setValue_same v s) as (-> & _ & ->). reflexivity.
  - destruct (i <? _);
      [|injection Hstep as <-; apply Hsame; reflexivity].
    unfold select_output in Hstep.
    destruct (currentIndex (out_combo a) =? i);
      [injection Hstep as <-; apply Hsame; reflexivity|].
    apply restart_output_stream_strips in Hstep as [Hs Hn].
    apply Hsame; [|exact Hn]. unfold labels. rewrite Hs. reflexivity.
  - destruct (input_strips a !! k) as [s|] eqn:Hk;
      [|injection Hstep as <-; apply Hsame; reflexivity].
    destruct (stream_started (stream s));
      [|injection Hstep as <-; apply Hsame; reflexivity].
    unfold strip_audio_callback in Hstep. rewrite Hk in Hstep.
    destruct (audio_callback indata s) as [s'|] eqn:Hcb; [|discriminate].
    injection Hstep as <-.
    apply audio_callback_label in Hcb as [Ho Hi].
    apply Hsame; [|reflexivity].
    rewrite <- (labels_insert a k s s' (world a) Hk Ho Hi).
    destruct a; reflexivity.
  - destruct (stream_started (output_stream a));
      [|injection Hstep as <-; apply Hsame; reflexivity].
    unfold output_callback in Hstep. rewrite mix_strips_accumulate in Hstep.
    cbn [fmap option_fmap option_map snd] in Hstep. injection Hstep as <-.
    apply Hsame; [|reflexivity].
    unfold labels. cbn [input_strips set_input_strips].
    change (map after_chunk) with (fmap (M:=list) after_chunk).
    apply fmap_fmap_same. intros s.
    destruct (after_chunk_same s) as (-> & _ & ->). reflexivity.
Qed.

Lemma run_events_labels es : ∀ a a',
  app_ok a → run_events es a = Some a' →
  next_oid a ≤ next_oid a' ∧
  ∃ kept added,
    labels a' = kept ++ added ∧ kept `sublist_of` labels a ∧
    Forall (fun p => next_oid a ≤ p.1) added.
Proof.
  induction es as [|e es IH]; intros a a' Hok Hrun; cbn [run_events] in Hrun.
  - injection Hrun as <-. split; [lia|]. exists (labels a), [].
    rewrite app_nil_r. split; [reflexivity|]. split; [reflexivity|constructor].
  - destruct (event_step_ok a e Hok) as (a1 & Hstep & Hok1).
    rewrite Hstep in Hrun.
    destruct (event_step_labels a e a1 Hok Hstep)
      as (Hn1 & kept1 & added1 & Hl1 & Hsub1 & Hnew1).
    destruct (IH a1 a' Hok1 Hrun) as (Hn & kept & added & Hl & Hsub & Hnew).
    split; [lia|].
    rewrite Hl1 in Hsub. apply sublist_app_r in Hsub
      as (k1 & k2 & -> & Hk1 & Hk2).
    exists k1, (k2 ++ added). split; [rewrite Hl, app_assoc; reflexivity|].
    split; [etransitivity; eassumption|].
    apply Forall_app. split.
    + rewrite Forall_forall in Hnew1 |- *. intros p Hp. apply Hnew1.
      eapply elem_of_sublist; eassumption.
    + eapply Forall_impl; [exact Hnew|]. cbn. intros p Hp. lia.
Qed.
End Labels.

(** X16. Whatever happens to a running application (device picks,
    failed opens, slider moves, driver callbacks, additions and
    removals), the strips that are still registered keep their
    identity, their id and their relative order, and the strips added
    since come after them, with new identities.  In particular the id
    shown by a strip never changes while the strip is registered. *)
Theorem X16_strips_keep_id_and_order (devs : list device_info)
    (es es' : list event) (a a' : AudioRouterApp) :
  run_events es (new_app devs) = Some a →
  run_events es' a = Some a' →
  (∃ kept added,
     labels a' = kept ++ added ∧ kept `sublist_of` labels a ∧
     Forall (fun p => next_oid a ≤ p.1) added) ∧
  (∀ s s', s ∈ input_strips a → s' ∈ input_strips a' →
     oid s' = oid s → index s' = index s).
Proof.
  intros Hrun Hrun'. pose proof (run_events_reach devs es a Hrun) as Hok.
  destruct (run_events_labels es' a a' Hok Hrun')
    as (_ & kept & added & Hl & Hsub & Hnew).
  split; [exists kept, added; auto|].
  intros s s' Hs Hs' Hoid.
  destruct Hok as ((Hfresh & Hnd) & _).
  assert (Hin : (oid s', index s') ∈ labels a').
  { unfold labels. apply list_elem_of_fmap. exists s'. split; [reflexivity|exact Hs']. }
  rewrite Hl in Hin. apply elem_of_app in Hin as [Hin|Hin].
  - apply (elem_of_sublist _ _ _ Hin) in Hsub as Hin0. clear Hin.
    rename Hin0 into Hin.
    unfold labels in Hin. apply list_elem_of_fmap in Hin as (s0 & Heq & Hs0).
    injection Heq as Ho Hi. rewrite Hi.
    f_equal. eapply same_oid_same_strip; try eassumption. congruence.
  - exfalso. rewrite Forall_forall in Hnew. rewrite Forall_forall in Hfresh.
    specialize (Hnew _ Hin). specialize (Hfresh _ Hs). cbn in Hnew. lia.
Qed.

Lemma X16_strips_keep_id_and_order_witness :
  ∃ a' kept added,
    run_events (drop 9 ex_events) ex_reached_app = Some a' ∧
    labels a' = kept ++ added ∧ kept `sublist_of` [(0, 0); (1, 1)].
Proof.
  assert (Hrun : run_events (take 9 ex_events) (new_app ex_devices)
                 = Some ex_reached_app) by (vm_compute; reflexivity).
  assert (Hlab : labels ex_reached_app = [(0, 0); (1, 1)])
    by (vm_compute; reflexivity).
  destruct (run_events_ok (drop 9 ex_events) ex_reached_app
              (run_events_reach _ _ _ Hrun)) as (a' & Hrun' & _).
  destruct (X16_strips_keep_id_and_order ex_devices (take 9 ex_events)
              (drop 9 ex_events) ex_reached_app a' Hrun Hrun')
    as [(kept & added & Hl & Hsub & _) _].
  exists a', kept, added. rewrite <- Hlab.
  split; [exact Hrun'|]. split; [exact Hl|exact Hsub].
Defined.

(** X17. Adding a strip and removing it again leaves the application
    as it was: the same strips in the same positions, the same streams,
    the same driver state and no dialog; only the identity handed to
    the next new strip has moved on. *)
Theorem X17_add_then_remove (devs : list device_info) (es : list event)
    (a : AudioRouterApp) :
  run_events es (new_app devs) = Some a →
  ∃ a',
    run_events [EvAddInput; EvRemoveInput (length (input_strips a))] a
    = Some a' ∧
    input_strips a' = input_strips a ∧
    output_stream a' = output_stream a ∧ out_combo a' = out_combo a ∧
    world a' = world a ∧ next_oid a' = S (next_oid a).
Proof.
  intros Hrun. pose proof (run_events_reach devs es a Hrun) as (Hreg & _).
  cbn [run_events event_step control_step].
  set (s := new_strip (next_oid a) (length (input_strips a))
              (devices (world a))).
  assert (Hk : input_strips (add_input_strip a) !! length (input_strips a)
               = Some s).
  { cbn [add_input_strip input_strips].
    rewrite lookup_app_r by lia. rewrite Nat.sub_diag. reflexivity. }
  rewrite Hk.
  rewrite (close_strip_delete (add_input_strip a) _ s
             (registry_ok_step a AddInput Hreg) Hk).
  eexists. split; [reflexivity|].
  cbn [add_input_strip input_strips output_stream out_combo world next_oid
       set_input_strips set_world].
  split; [rewrite delete_middle; apply app_nil_r|].
  repeat split; reflexivity.
Qed.

Lemma X17_add_then_remove_witness :
  ∃ a',
    run_events [EvAddInput; EvRemoveInput 2] ex_reached_app = Some a' ∧
    input_strips a' = input_strips ex_reached_app ∧
    world a' = world ex_reached_app.
Proof.
  assert (Hrun : run_events (take 9 ex_events) (new_app ex_devices)
                 = Some ex_reached_app) by (vm_compute; reflexivity).
  assert (Hlen : length (input_strips ex_reached_app) = 2)
    by (vm_compute; reflexivity).
  destruct (X17_add_then_remove ex_devices (take 9 ex_events) ex_reached_app
              Hrun) as (a' & Hrun' & Hstrips & _ & _ & Hworld & _).
  rewrite Hlen in Hrun'.
  exists a'. split; [exact Hrun'|]. split; [exact Hstrips|exact Hworld].
Defined.

Section Isolation.
Implicit Types (a : AudioRouterApp) (s : AudioInputStrip).

Lemma set_world_id a : set_world (world a) a = a.
Proof. destruct a; reflexivity. Qed.

Lemma slider_setValue_rest v s :
  stream (slider_setValue v s) = stream s ∧
  audio_queue (slider_setValue v s) = audio_queue s ∧
  is_active (slider_setValue v s) = is_active s ∧
  device_combo (slider_setValue v s) = device_combo s.
Proof.
  unfold slider_setValue. destruct (Z.eqb _ _); repeat split; reflexivity.
Qed.

Lemma after_chunk_rest s :
  volume (after_chunk s) = volume s ∧
  slider (after_chunk s) = slider s ∧
  is_active (after_chunk s) = is_active s ∧
  device_combo (after_chunk s) = device_combo s.
Proof.
  destruct (after_chunk_cases s) as [->|(data & rest & _ & ->)];
    repeat split; reflexivity.
Qed.

(** What an event on strip [k] leaves alone. *)
Lemma strip_event_frame a e a' k :
  event_step a e = Some a' → event_strip e = Some k →
  length (input_strips a') = length (input_strips a) ∧
  (∀ j, j ≠ k → input_strips a' !! j = input_strips a !! j) ∧
  output_stream a' = output_stream a ∧ out_combo a' = out_combo a.
Proof.
  intros Hstep Hk.
  assert (Hid : length (input_strips a) = length (input_strips a) ∧
            (∀ j, j ≠ k → input_strips a !! j = input_strips a !! j) ∧
            output_stream a = output_stream a ∧ out_combo a = out_combo a)
    by (repeat split; reflexivity).
  assert (Hins : ∀ s' w,
            length (input_strips
                      (set_input_strips (<[k := s']> (input_strips a))
                         (set_world w a)))
            = length (input_strips a) ∧
            (∀ j, j ≠ k →
               input_strips
                 (set_input_strips (<[k := s']> (input_strips a))
                    (set_world w a)) !! j = input_strips a !! j) ∧
            output_stream
              (set_input_strips (<[k := s']> (input_strips a)) (set_world w a))
            = output_stream a ∧
            out_combo
              (set_input_strips (<[k := s']> (input_strips a)) (set_world w a))
            = out_combo a).
  { intros s' w.
    cbn [input_strips output_stream out_combo set_input_strips set_world].
    split; [apply length_insert|]. split; [|split; reflexivity].
    intros j Hj. apply list_lookup_insert_ne. congruence. }
  destruct e as [|k0|k0 i answer|k0 v|i answer|k0 indata|frames];
    try discriminate Hk; injection Hk as ->; cbn [event_step] in Hstep.
  - destruct (input_strips a !! k) as [s|] eqn:Hs;
      [|injection Hstep as <-; exact Hid].
    destruct (i <? _); [|injection Hstep as <-; exact Hid].
    unfold strip_select_device in Hstep. rewrite Hs in Hstep.
    destruct (select_device _ _ _ _ _) as [[w s']|]; [|discriminate].
    injection Hstep as <-. apply Hins.
  - injection Hstep as <-. unfold strip_slider_setValue.
    cbn [input_strips output_stream out_combo set_input_strips].
    split; [apply length_alter|]. split; [|split; reflexivity].
    intros j Hj. apply list_lookup_alter_ne. congruence.
  - destruct (input_strips a !! k) as [s|] eqn:Hs;
      [|injection Hstep as <-; exact Hid].
    destruct (stream_started (stream s)); [|injection Hstep as <-; exact Hid].
    unfold strip_audio_callback in Hstep. rewrite Hs in Hstep.
    destruct (audio_callback indata s) as [s'|]; [|discriminate].
    injection Hstep as <-. rewrite <- (set_world_id a) at 1 2 3 4.
    apply Hins.
Qed.

(** What the slider and the driver callbacks leave alone. *)
Lemma audio_event_frame a e a' :
  event_step a e = Some a' → audio_event e = true →
  world a' = world a ∧ output_stream a' = output_stream a ∧
  out_combo a' = out_combo a ∧
  stream <$> input_strips a' = stream <$> input_strips a ∧
  is_active <$> input_strips a' = is_active <$> input_strips a ∧
  device_combo <$> input_strips a' = device_combo <$> input_strips a.
Proof.
  intros Hstep He.
  destruct e as [|k0|k0 i answer|k v|i answer|k indata|frames];
    try discriminate He; cbn [event_step] in Hstep.
  - injection Hstep as <-. unfold strip_slider_setValue.
    cbn [world input_strips output_stream out_combo set_input_strips].
    repeat split; try reflexivity; apply fmap_alter_same; intros s;
      destruct (slider_setValue_rest v s) as (H1 & _ & H2 & H3); assumption.
  - destruct (input_strips a !! k) as [s|] eqn:Hs;
      [|injection Hstep as <-; repeat split; reflexivity].
    destruct (stream_started (stream s));
      [|injection Hstep as <-; repeat split; reflexivity].
    unfold strip_audio_callback in Hstep. rewrite Hs in Hstep.
    destruct (audio_callback indata s) as [s'|] eqn:Hcb; [|discriminate].
    injection Hstep as <-.
    assert (Hs' : ∃ q, s' = set_audio_queue q s).
    { unfold audio_callback in Hcb. destruct (Queue.put indata _) as [q|];
        [|discriminate]. injection Hcb as <-. exists q. reflexivity. }
    destruct Hs' as [q ->].
    cbn [world input_strips output_stream out_combo set_input_strips].
    repeat split; try reflexivity;
      apply (fmap_insert_same _ _ k s _ Hs); reflexivity.
  - destruct (stream_started (output_stream a));
      [|injection Hstep as <-; repeat split; reflexivity].
    unfold output_callback in Hstep. rewrite mix_strips_accumulate in Hstep.
    cbn [fmap option_fmap option_map snd] in Hstep. injection Hstep as <-.
    cbn [world input_strips output_stream out_combo set_input_strips].
    change (map after_chunk) with (fmap (M:=list) after_chunk).
    repeat split; try reflexivity; apply fmap_fmap_same; intros s.
    + apply after_chunk_same.
    + apply after_chunk_rest.
    + apply after_chunk_rest.
Qed.
End Isolation.

(** X18. The strips do not disturb each other, and the audio side
    does not touch the streams: a device pick, a slider move or a
    captured block on one strip leaves every other strip, the playback
    stream and the playback selection exactly as they were; a slider
    move, a capture callback and a playback callback open and close no
    stream, show no dialog, and change no strip's stream, active flag or
    device selection. *)
Theorem X18_strips_are_isolated (a a' : AudioRouterApp) (e : event) :
  event_step a e = Some a' →
  (∀ k, event_strip e = Some k →
     length (input_strips a') = length (input_strips a) ∧
     (∀ j, j ≠ k → input_strips a' !! j = input_strips a !! j) ∧
     output_stream a' = output_stream a ∧ out_combo a' = out_combo a) ∧
  (audio_event e = true →
     world a' = world a ∧ output_stream a' = output_stream a ∧
     out_combo a' = out_combo a ∧
     stream <$> input_strips a' = stream <$> input_strips a ∧
     is_active <$> input_strips a' = is_active <$> input_strips a ∧
     device_combo <$> input_strips a' = device_combo <$> input_strips a).
Proof.
  intros Hstep. split.
  - intros k Hk. exact (strip_event_frame a e a' k Hstep Hk).
  - intros He. exact (audio_event_frame a e a' Hstep He).
Qed.

Lemma X18_strips_are_isolated_witness :
  ∃ a',
    event_step ex_reached_app (EvSelectDevice 0 2 StartRaises) = Some a' ∧
    input_strips a' !! 1 = input_strips ex_reached_app !! 1 ∧
    output_stream a' = output_stream ex_reached_app.
Proof.
  assert (Hrun : run_events (take 9 ex_events) (new_app ex_devices)
                 = Some ex_reached_app) by (vm_compute; reflexivity).
  destruct (event_step_ok ex_reached_app (EvSelectDevice 0 2 StartRaises)
              (run_events_reach _ _ _ Hrun)) as (a' & Hstep & _).
  destruct (X18_strips_are_isolated ex_reached_app a' _ Hstep) as [Hstrip _].
  destruct (Hstrip 0) as (_ & Hother & Hout & _); [reflexivity|].
  exists a'. split; [exact Hstep|]. split; [apply Hother; lia|exact Hout].
Defined.

Section Lists.
Implicit Types (a : AudioRouterApp) (s : AudioInputStrip).

Lemma start_stream_lists fuel drv : ∀ w s w' s',
  start_stream fuel drv w s = Some (w', s') →
  items (device_combo s') = items (device_combo s) ∧ devices w' = devices w.
Proof.
  induction fuel as [|fuel IH]; intros w s w' s' Hrun; [discriminate|].
  cbn [start_stream] in Hrun.
  destruct (stop_stream_open w s) as (_ & _ & Hdev & _).
  assert (Hc : device_combo (stop_stream w s).2 = device_combo s)
    by (rewrite stop_stream_eq; reflexivity).
  destruct (stop_stream w s) as [w1 s1]. cbn [fst snd] in Hdev, Hc.
  destruct (currentData (device_combo s1)) as [d|].
  - assert (Hhandler : ∀ w2 s2,
              items (device_combo s2) = items (device_combo s) →
              devices w2 = devices w →
              (if currentIndex (device_combo s2) =? 0
               then Some (world_dialog AudioError w2, s2)
               else start_stream fuel drv (world_dialog AudioError w2)
                      (set_device_combo
                         {| items := items (device_combo s2);
                            currentIndex := 0 |} s2)) = Some (w', s') →
              items (device_combo s') = items (device_combo s)
              ∧ devices w' = devices w).
    { clear Hrun. intros w2 s2 Hi2 Hd2 H.
      destruct (currentIndex (device_combo s2) =? 0).
      - injection H as <- <-. split; assumption.
      - apply IH in H as [-> ->]. split; assumption. }
    destruct (drv d).
    + eapply Hhandler; [| |exact Hrun]; [rewrite Hc; reflexivity|exact Hdev].
    + eapply Hhandler; [| |exact Hrun]; [rewrite <- Hc; reflexivity|exact Hdev].
    + injection Hrun as <- <-. rewrite <- Hc. split; [reflexivity|exact Hdev].
  - injection Hrun as <- <-. rewrite Hc. split; [reflexivity|exact Hdev].
Qed.

Lemma restart_output_stream_lists fuel drv : ∀ a a',
  restart_output_stream fuel drv a = Some a' →
  items (out_combo a') = items (out_combo a) ∧
  devices (world a') = devices (world a).
Proof.
  induction fuel as [|fuel IH]; intros a a' Hrun; [discriminate|].
  cbn [restart_output_stream] in Hrun. fold (close_output a) in Hrun.
  assert (Hc : out_combo (close_output a) = out_combo a
               ∧ devices (world (close_output a)) = devices (world a))
    by (unfold close_output; destruct (output_stream a); split; reflexivity).
  destruct Hc as [Hc Hd].
  set (a1 := close_output a) in *. clearbody a1.
  destruct (currentData (out_combo a1)) as [d|].
  - assert (Hhandler : ∀ a2,
              items (out_combo a2) = items (out_combo a) →
              devices (world a2) = devices (world a) →
              (let a3 := set_world (world_dialog OutputError (world a2)) a2 in
               if currentIndex (out_combo a3) =? 0 then Some a3
               else restart_output_stream fuel drv
                      (set_out_combo
                         {| items := items (out_combo a3);
                            currentIndex := 0 |} a3)) = Some a' →
              items (out_combo a') = items (out_combo a)
              ∧ devices (world a') = devices (world a)).
    { clear Hrun. intros a2 Hi2 Hd2 H. cbn zeta in H.
      destruct (currentIndex _ =? 0).
      - injection H as <-. split; assumption.
      - apply IH in H as [-> ->]. split; assumption. }
    destruct (drv d).
    + eapply Hhandler; [| |exact Hrun]; [rewrite Hc; reflexivity|exact Hd].
    + eapply Hhandler; [| |exact Hrun]; [rewrite <- Hc; reflexivity|exact Hd].
    + injection Hrun as <-. rewrite <- Hc. split; [reflexivity|exact Hd].
  - injection Hrun as <-. rewrite Hc. split; [reflexivity|exact Hd].
Qed.

Lemma lists_ok_new devs : lists_ok devs (new_app devs).
Proof. repeat split. constructor. Qed.

Lemma lists_ok_same devs a a' :
  lists_ok devs a →
  devices (world a') = devices (world a) →
  items (out_combo a') = items (out_combo a) →
  (fun s => items (device_combo s)) <$> input_strips a'
  = (fun s => items (device_combo s)) <$> input_strips a →
  lists_ok devs a'.
Proof.
  intros (Hd & Ho & Hs) Hd' Ho' Hs'. split; [congruence|]. split; [congruence|].
  assert (H : Forall (fun l => l = items (populate_devices devs))
                ((fun s => items (device_combo s)) <$> input_strips a'))
    by (rewrite Hs'; apply Forall_fmap; exact Hs).
  apply Forall_fmap in H. exact H.
Qed.

Lemma event_step_lists devs a e a' :
  app_ok a → lists_ok devs a → event_step a e = Some a' → lists_ok devs a'.
Proof.
  intros (Hreg & _) Hl Hstep. pose proof Hl as (Hd & Ho & Hs).
  destruct e as [|k|k i answer|k v|i answer|k indata|frames];
    cbn [event_step] in Hstep.
  - injection Hstep as <-. split; [exact Hd|]. split; [exact Ho|].
    cbn [add_input_strip input_strips]. apply Forall_app. split; [exact Hs|].
    constructor; [|constructor]. cbn [new_strip device_combo]. rewrite Hd.
    reflexivity.
  - injection Hstep as <-. cbn [control_step].
    destruct (input_strips a !! k) as [s|] eqn:Hk; [|exact Hl].
    rewrite (close_strip_delete a k s Hreg Hk).
    destruct (stop_stream_open (world a) s) as (_ & _ & Hdev & _).
    split; [cbn [world set_input_strips set_world]; congruence|].
    split; [exact Ho|].
    cbn [input_strips set_input_strips set_world]. apply Forall_delete, Hs.
  - destruct (input_strips a !! k) as [s|] eqn:Hk;
      [|injection Hstep as <-; exact Hl].
    destruct (i <? _); [|injection Hstep as <-; exact Hl].
    unfold strip_select_device in Hstep. rewrite Hk in Hstep.
    destruct (select_device _ _ _ _ _) as [[w s']|] eqn:Hsel; [|discriminate].
    injection Hstep as <-.
    assert (Hsame : items (device_combo s') = items (device_combo s)
                    ∧ devices w = devices (world a)).
    { unfold select_device in Hsel.
      destruct (currentIndex (device_combo s) =? i).
      - injection Hsel as <- <-. split; reflexivity.
      - apply start_stream_lists in Hsel. exact Hsel. }
    destruct Hsame as [Hi Hw].
    apply (lists_ok_same devs a); [exact Hl|exact Hw|reflexivity|].
    cbn [input_strips set_input_strips set_world].
    apply (fmap_insert_same _ _ k s s' Hk Hi).
  - injection Hstep as <-.
    apply (lists_ok_same devs a); [exact Hl|reflexivity|reflexivity|].
    unfold strip_slider_setValue. cbn [input_strips set_input_strips].
    apply fmap_alter_same. intros s.
    destruct (slider_setValue_rest v s) as (_ & _ & _ & ->). reflexivity.
  - destruct (i <? _); [|injection Hstep as <-; exact Hl].
    unfold select_output in Hstep.
    destruct (currentIndex (out_combo a) =? i);
      [injection Hstep as <-; exact Hl|].
    pose proof (restart_output_stream_strips _ _ _ _ Hstep) as [Hst _].
    apply restart_output_stream_lists in Hstep as [Hi Hw].
    apply (lists_ok_same devs a); [exact Hl|exact Hw|exact Hi|].
    rewrite Hst. reflexivity.
  - pose proof (audio_event_frame a (EvCapture k indata) a' Hstep eq_refl)
      as (Hw & _ & Hc & _ & _ & Hcombo).
    apply (lists_ok_same devs a); [exact Hl|congruence|congruence|].
    rewrite (list_fmap_compose device_combo items), Hcombo,
      <- list_fmap_compose. reflexivity.
  - pose proof (audio_event_frame a (EvPlayback frames) a' Hstep eq_refl)
      as (Hw & _ & Hc & _ & _ & Hcombo).
    apply (lists_ok_same devs a); [exact Hl|congruence|congruence|].
    rewrite (list_fmap_compose device_combo items), Hcombo,
      <- list_fmap_compose. reflexivity.
Qed.

Lemma run_events_lists devs es : ∀ a a',
  app_ok a → lists_ok devs a → run_events es a = Some a' → lists_ok devs a'.
Proof.
  induction es as [|e es IH]; intros a a' Hok Hl Hrun; cbn [run_events] in Hrun.
  - injection Hrun as <-. exact Hl.
  - destruct (event_step_ok a e Hok) as (a1 & Hstep & Hok1).
    rewrite Hstep in Hrun.
    apply (IH a1 a' Hok1); [|exact Hrun].
    apply (event_step_lists devs a e a1 Hok Hl Hstep).
Qed.

Lemma currentData_item c d :
  currentData c = Some d → items c !! currentIndex c = Some (Some d).
Proof.
  unfold currentData. destruct (items c !! currentIndex c) as [[x|]|];
    cbn; congruence.
Qed.
End Lists.

(** X19. A stream is only ever open on a device of its kind: in every
    reachable state the device lists are the ones built at start-up from
    [sd.query_devices()], the stream a strip holds is on a device of
    that list that has input channels, and the playback stream is on a
    device that has output channels. *)
Theorem X19_streams_on_listed_devices (devs : list device_info)
    (es : list event) (a : AudioRouterApp) :
  run_events es (new_app devs) = Some a →
  devices (world a) = devs ∧
  items (out_combo a) = items (populate_output_devices devs) ∧
  (∀ s, s ∈ input_strips a →
     items (device_combo s) = items (populate_devices devs) ∧
     ∀ st, stream s = Some st →
       ∃ dev, devs !! sdevice st = Some dev ∧ 0 < max_input_channels dev) ∧
  (∀ st, output_stream a = Some st →
     ∃ dev, devs !! sdevice st = Some dev ∧ 0 < max_output_channels dev).
Proof.
  intros Hrun. pose proof (run_events_reach devs es a Hrun) as Hok.
  pose proof (run_events_lists devs es _ a (app_ok_new devs)
                (lists_ok_new devs) Hrun) as (Hd & Ho & Hs).
  destruct Hok as (_ & Hstrips & _ & (_ & _ & Hout)).
  split; [exact Hd|]. split; [exact Ho|]. split.
  - intros s Hin. rewrite Forall_forall in Hs. rewrite Forall_forall in Hstrips.
    specialize (Hs s Hin). split; [exact Hs|].
    intros st Hst.
    destruct (Hstrips s Hin) as (_ & _ & _ & _ & _ & _ & Hdata).
    rewrite Hst in Hdata. cbn in Hdata. apply currentData_item in Hdata.
    rewrite Hs in Hdata.
    destruct (device_items _ devs _ _ Hdata)
      as [[_ Hnone]|(j & dev & Hj & Hdev & Hp)]; [discriminate|].
    injection Hj as ->. exists dev. split; [exact Hdev|].
    apply Nat.ltb_lt, Hp.
  - intros st Hst. rewrite Hst in Hout. cbn in Hout.
    apply currentData_item in Hout. rewrite Ho in Hout.
    destruct (device_items _ devs _ _ Hout)
      as [[_ Hnone]|(j & dev & Hj & Hdev & Hp)]; [discriminate|].
    injection Hj as ->. exists dev. split; [exact Hdev|].
    apply Nat.ltb_lt, Hp.
Qed.

Lemma X19_streams_on_listed_devices_witness :
  sdevice <$> output_stream ex_reached_app = Some 1 ∧
  ∃ dev, ex_devices !! 1 = Some dev ∧ 0 < max_output_channels dev.
Proof.
  assert (Hrun : run_events (take 9 ex_events) (new_app ex_devices)
                 = Some ex_reached_app) by (vm_compute; reflexivity).
  assert (Hout : output_stream ex_reached_app
                 = Some {| sid := 2; sdevice := 1; started := true |})
    by (vm_compute; reflexivity).
  destruct (X19_streams_on_listed_devices ex_devices (take 9 ex_events)
              ex_reached_app Hrun) as (_ & _ & _ & Hplay).
  split; [rewrite Hout; reflexivity|].
  exact (Hplay _ Hout).
Defined.

(** ** The gain and the buffered audio *)

(** X20. The gain is applied when a block is read, not when it is
    captured: a slider move changes neither the queue nor what is
    captured afterwards, and the next block read, captured before the
    move, comes out scaled by the new gain. *)
Theorem X20_gain_applies_at_read (s : AudioInputStrip) (v : Z) :
  volume s = gain_of_percent (slider s) →
  audio_queue (slider_setValue v s) = audio_queue s ∧
  (∀ indata,
     audio_callback indata (slider_setValue v s)
     = slider_setValue v <$> audio_callback indata s) ∧
  (∀ data rest,
     is_active s = true → audio_queue s = data :: rest →
     get_audio_chunk (slider_setValue v s)
     = (block_scale data (gain_of_percent (clamp_percent v)),
        slider_setValue v (set_audio_queue rest s))).
Proof.
  intros Hsync.
  assert (Hvol : volume (slider_setValue v s)
                 = gain_of_percent (clamp_percent v)).
  { unfold slider_setValue. fold (clamp_percent v).
    destruct (Z.eqb (clamp_percent v) (slider s)) eqn:Heq; [|reflexivity].
    apply Z.eqb_eq in Heq. rewrite Heq. exact Hsync. }
  assert (Hq : ∀ q, slider_setValue v (set_audio_queue q s)
                    = set_audio_queue q (slider_setValue v s)).
  { intros q. unfold slider_setValue. cbn [slider set_audio_queue].
    destruct (Z.eqb _ _); reflexivity. }
  destruct (slider_setValue_rest v s) as (_ & Hqueue & Hact & _).
  split; [exact Hqueue|]. split.
  - intros indata. unfold audio_callback. rewrite Hqueue.
    destruct (Queue.put indata _) as [q|]; [|reflexivity].
    cbn [fmap option_fmap option_map]. rewrite Hq. reflexivity.
  - intros data rest Ha Hd.
    rewrite (chunk_of_active (slider_setValue v s) data rest)
      by congruence.
    rewrite Hvol, Hq. reflexivity.
Qed.

Lemma X20_gain_applies_at_read_witness :
  ∃ s1,
    audio_callback (np_ones BLOCK_SIZE) ex_active_strip = Some s1 ∧
    (get_audio_chunk (slider_setValue 50 s1)).1
    = replicate BLOCK_SIZE (F32.half, F32.half).
Proof.
  assert (Hcb : audio_callback (np_ones BLOCK_SIZE) ex_active_strip
                = Some (set_audio_queue [np_ones BLOCK_SIZE] ex_active_strip))
    by (vm_compute; reflexivity).
  eexists. split; [exact Hcb|].
  destruct (X20_gain_applies_at_read
              (set_audio_queue [np_ones BLOCK_SIZE] ex_active_strip) 50)
    as (_ & _ & Hread).
  - vm_compute. reflexivity.
  - rewrite (Hread (np_ones BLOCK_SIZE) []) by (vm_compute; reflexivity).
    vm_compute. reflexivity.
Defined.
